(** * Gift auctions: a shallow embedding of the auction service

    The development follows the TypeScript sources:
    - [src/domain/ranking.ts]           -> Module [Ranking]
    - [src/errors.ts]                   -> Module [Errors]
    - [src/db/collections.ts]           -> Modules [User], [Auction], [Bid],
                                           [Round], [Ledger], [EngineLock]
    - [src/db/mongo.ts], [src/db/transactions.ts]
                                        -> Module [Store]
    - [src/services/users.ts]           -> Module [Users]
    - [src/services/auctions.ts]        -> Module [Auctions]
    - [src/services/auctionEngine.ts]   -> Module [Engine]

    Conventions of the embedding.
    - A JavaScript [number] holding an integer is a [Z]; the arithmetic is
      exact (the services only accept safe integers, and the model does
      not follow IEEE rounding past 2^53).
    - A [Date] is its [getTime()] value, a [Z] of milliseconds.
    - An [ObjectId] is the 96-bit number its twelve bytes spell; the byte
      order MongoDB sorts by is the order of [N].  [new ObjectId()] draws
      from a generator that is part of the world, [new Date()] reads the
      world's clock.
    - A collection is a [gmap] from [_id] to document, so the primary key
      is unique by construction; the secondary unique indexes declared by
      [ensureIndexes] are checked on every write that touches them.
    - A transaction body is a state-and-exception computation over the
      world; [withTxn] commits the body's writes when it returns and
      discards them when it throws. *)

From Stdlib Require Import ZArith Lia Sorted Permutation.
From Stdlib Require Import OrdersEx.
From stdpp Require Import gmap strings list fin_maps.

Open Scope Z_scope.

(** ** JavaScript array helpers *)

Section ArrayHelpers.
Context {A : Type}.

(** [Array.prototype.sort(cmp)]: the language requires a stable sort
    that looks at the sign of [cmp] only.  Insertion from the right is
    such a sort. *)
Fixpoint insertBy (cmp : A -> A -> Z) (x : A) (l : list A) : list A :=
  match l with
  | [] => [x]
  | y :: r => if cmp x y <=? 0 then x :: y :: r else y :: insertBy cmp x r
  end.

Fixpoint sortBy (cmp : A -> A -> Z) (l : list A) : list A :=
  match l with
  | [] => []
  | x :: r => insertBy cmp x (sortBy cmp r)
  end.

(** Relative index resolution of [Array.prototype.slice]. *)
Definition relIndex (len i : Z) : Z :=
  if i <? 0 then Z.max (len + i) 0 else Z.min i len.

Definition slice (s e : Z) (l : list A) : list A :=
  let len := Z.of_nat (length l) in
  let k := relIndex len s in
  let f := relIndex len e in
  take (Z.to_nat (f - k)) (drop (Z.to_nat k) l).

(** [arr[i]], [undefined] out of range. *)
Definition at_index (l : list A) (i : Z) : option A :=
  if i <? 0 then None else l !! Z.to_nat i.

Definition jsLength (l : list A) : Z := Z.of_nat (length l).

(** The order a comparator stands for: [x] does not come after [y]. *)
Definition cmpLe (cmp : A -> A -> Z) (x y : A) : Prop := cmp x y <= 0.
End ArrayHelpers.

(** [Number.isSafeInteger] on an integer. *)
Definition isSafeInteger (n : Z) : bool := Z.abs n <=? 9007199254740991.

(** [s.includes(sub)]. *)
Definition includes (s sub : string) : bool :=
  match String.index 0 sub s with
  | Some _ => true
  | None => false
  end.

(** ** src/domain/ranking.ts *)

Module Ranking.

(** [type RankableBid = { userId: string; amount: number; lastBidAt: Date }];
    [T extends RankableBid] is a type with these three projections. *)
Class RankableBid (T : Type) := {
  userId : T -> string;
  amount : T -> Z;
  lastBidAt : T -> Z
}.

Section Generic.
Context {T : Type} `{RankableBid T}.

Definition compareRankableBids (a b : T) : Z :=
  if negb (amount a =? amount b) then amount b - amount a
  else
    let at_ := lastBidAt a in
    let bt := lastBidAt b in
    if negb (at_ =? bt) then at_ - bt
    else if String.ltb (userId a) (userId b) then -1
    else if String.ltb (userId b) (userId a) then 1
    else 0.

Definition selectWinners (bids : list T) (winnersCount : Z) : list T * Z :=
  if winnersCount <=? 0 then ([], 0)
  else
    let sorted := sortBy compareRankableBids bids in
    let winners := slice 0 winnersCount sorted in
    let clearingPrice :=
      if jsLength winners =? 0 then 0
      else match at_index winners (jsLength winners - 1) with
           | Some w => amount w
           | None => 0
           end in
    (winners, clearingPrice).

(** The order as the specification words it: higher [amount] first, then
    earlier [lastBidAt], then lower [userId]. *)
Definition ranksNoLater (a b : T) : Prop :=
  amount b < amount a \/
  (amount a = amount b /\
   (lastBidAt a < lastBidAt b \/
    (lastBidAt a = lastBidAt b /\ String.leb (userId a) (userId b) = true))).
End Generic.

(** The plain record, for concrete inputs. *)
Record Bid := mkBid { bid_userId : string; bid_amount : Z; bid_lastBidAt : Z }.

#[global] Instance Bid_rankable : RankableBid Bid :=
  {| userId := bid_userId; amount := bid_amount; lastBidAt := bid_lastBidAt |}.

End Ranking.

(** ** src/errors.ts and the values a [catch] can receive *)

Module Errors.

Inductive AppErrorCode :=
| INVALID_ID | INVALID_INPUT | NOT_FOUND | NOT_STARTABLE | NOT_CANCELLABLE
| NOT_OPEN | ROUND_ENDED | BID_NOT_ACTIVE | INSUFFICIENT_FUNDS
| INVARIANT_VIOLATION.

(** A thrown value is an [AppError] (code, message, status), a plain
    [new Error(message)], an error of the MongoDB driver with its
    numeric [code], optional [keyPattern] (the field names of the index
    that rejected the write), [message] and error labels, or [undefined]
    (what [throw lastErr] throws when no attempt ran). *)
Inductive Thrown :=
| AppError (code : AppErrorCode) (message : string) (status : Z)
| PlainError (message : string)
| MongoServerError (code : Z) (keyPattern : option (list string))
                   (message : string) (errorLabels : list string)
| ThrownUndefined.

Definition appError (code : AppErrorCode) (message : string) (status : Z) : Thrown :=
  AppError code message status.

Definition isAppError (err : Thrown) : bool :=
  match err with AppError _ _ _ => true | _ => false end.

(** What the store throws when a unique index rejects a write. *)
Definition duplicateKey (collection : string) (keyPattern : list string) : Thrown :=
  MongoServerError 11000 (Some keyPattern)
    (String.append "E11000 duplicate key error collection: "
       (String.append collection
          (String.append " index: " (String.concat "_1_" keyPattern))))
    [].

Inductive Result (A : Type) :=
| Ok (value : A)
| Throw (err : Thrown).
Arguments Ok {A} value.
Arguments Throw {A} err.

End Errors.
Export Errors.

#[global] Instance AppErrorCode_eq_dec : EqDecision AppErrorCode.
Proof. solve_decision. Defined.

(** ** src/db/collections.ts *)

Abbreviation ObjectId := N (only parsing).

Module User.
Record Balance := mkBalance { available : Z; reserved : Z; spent : Z }.
Record Doc := mkDoc { createdAt : Z; balance : Balance; totalTopups : Z }.

(** [$inc] on the three balance fields and on [totalTopups]. *)
Definition incBalance (dAvailable dReserved dSpent : Z) (d : Doc) : Doc :=
  mkDoc (createdAt d)
    (mkBalance (available (balance d) + dAvailable)
               (reserved (balance d) + dReserved)
               (spent (balance d) + dSpent))
    (totalTopups d).

Definition incTotalTopups (dTopups : Z) (d : Doc) : Doc :=
  mkDoc (createdAt d) (balance d) (totalTopups d + dTopups).
End User.

Module Auction.
Inductive State := draft | running | ended | cancelled.
Inductive RoundState := open | closing.
Inductive EndReason := soldOut | maxDuration | emptyRounds | cancelledByAdmin.

Record Config := mkConfig {
  roundDurationMs : Z;
  winnersPerRound : Z;
  antiSnipeWindowMs : Z;
  antiSnipeExtendMs : Z;
  maxWinsPerUser : Z;
  maxDurationMs : Z;
  maxConsecutiveEmptyRounds : Z
}.

(** An optional field ([endsAt?: Date]) is an [option]; the closing
    token is the hex spelling of an [ObjectId] and is kept as that
    [ObjectId]. *)
Record Doc := mkDoc {
  createdAt : Z;
  updatedAt : Z;
  title : string;
  state : State;
  startedAt : option Z;
  endsAt : option Z;
  endedAt : option Z;
  endReason : option EndReason;
  totalQuantity : Z;
  awardedCount : Z;
  revenue : Z;
  currentRound : Z;
  consecutiveEmptyRounds : Z;
  roundState : option RoundState;
  roundEndsAt : option Z;
  closingToken : option ObjectId;
  closingStartedAt : option Z;
  version : Z;
  config : Config
}.

(** Field updates ([$set] of one field). *)
Definition set_updatedAt (v : Z) (d : Doc) : Doc :=
  mkDoc (createdAt d) v (title d) (state d) (startedAt d) (endsAt d) (endedAt d) (endReason d) (totalQuantity d) (awardedCount d) (revenue d) (currentRound d) (consecutiveEmptyRounds d) (roundState d) (roundEndsAt d) (closingToken d) (closingStartedAt d) (version d) (config d).
Definition set_state (v : State) (d : Doc) : Doc :=
  mkDoc (createdAt d) (updatedAt d) (title d) v (startedAt d) (endsAt d) (endedAt d) (endReason d) (totalQuantity d) (awardedCount d) (revenue d) (currentRound d) (consecutiveEmptyRounds d) (roundState d) (roundEndsAt d) (closingToken d) (closingStartedAt d) (version d) (config d).
Definition set_startedAt (v : option Z) (d : Doc) : Doc :=
  mkDoc (createdAt d) (updatedAt d) (title d) (state d) v (endsAt d) (endedAt d) (endReason d) (totalQuantity d) (awardedCount d) (revenue d) (currentRound d) (consecutiveEmptyRounds d) (roundState d) (roundEndsAt d) (closingToken d) (closingStartedAt d) (version d) (config d).
Definition set_endsAt (v : option Z) (d : Doc) : Doc :=
  mkDoc (createdAt d) (updatedAt d) (title d) (state d) (startedAt d) v (endedAt d) (endReason d) (totalQuantity d) (awardedCount d) (revenue d) (currentRound d) (consecutiveEmptyRounds d) (roundState d) (roundEndsAt d) (closingToken d) (closingStartedAt d) (version d) (config d).
Definition set_endedAt (v : option Z) (d : Doc) : Doc :=
  mkDoc (createdAt d) (updatedAt d) (title d) (state d) (startedAt d) (endsAt d) v (endReason d) (totalQuantity d) (awardedCount d) (revenue d) (currentRound d) (consecutiveEmptyRounds d) (roundState d) (roundEndsAt d) (closingToken d) (closingStartedAt d) (version d) (config d).
Definition set_endReason (v : option EndReason) (d : Doc) : Doc :=
  mkDoc (createdAt d) (updatedAt d) (title d) (state d) (startedAt d) (endsAt d) (endedAt d) v (totalQuantity d) (awardedCount d) (revenue d) (currentRound d) (consecutiveEmptyRounds d) (roundState d) (roundEndsAt d) (closingToken d) (closingStartedAt d) (version d) (config d).
Definition set_awardedCount (v : Z) (d : Doc) : Doc :=
  mkDoc (createdAt d) (updatedAt d) (title d) (state d) (startedAt d) (endsAt d) (endedAt d) (endReason d) (totalQuantity d) v (revenue d) (currentRound d) (consecutiveEmptyRounds d) (roundState d) (roundEndsAt d) (closingToken d) (closingStartedAt d) (version d) (config d).
Definition set_revenue (v : Z) (d : Doc) : Doc :=
  mkDoc (createdAt d) (updatedAt d) (title d) (state d) (startedAt d) (endsAt d) (endedAt d) (endReason d) (totalQuantity d) (awardedCount d) v (currentRound d) (consecutiveEmptyRounds d) (roundState d) (roundEndsAt d) (closingToken d) (closingStartedAt d) (version d) (config d).
Definition set_currentRound (v : Z) (d : Doc) : Doc :=
  mkDoc (createdAt d) (updatedAt d) (title d) (state d) (startedAt d) (endsAt d) (endedAt d) (endReason d) (totalQuantity d) (awardedCount d) (revenue d) v (consecutiveEmptyRounds d) (roundState d) (roundEndsAt d) (closingToken d) (closingStartedAt d) (version d) (config d).
Definition set_consecutiveEmptyRounds (v : Z) (d : Doc) : Doc :=
  mkDoc (createdAt d) (updatedAt d) (title d) (state d) (startedAt d) (endsAt d) (endedAt d) (endReason d) (totalQuantity d) (awardedCount d) (revenue d) (currentRound d) v (roundState d) (roundEndsAt d) (closingToken d) (closingStartedAt d) (version d) (config d).
Definition set_roundState (v : option RoundState) (d : Doc) : Doc :=
  mkDoc (createdAt d) (updatedAt d) (title d) (state d) (startedAt d) (endsAt d) (endedAt d) (endReason d) (totalQuantity d) (awardedCount d) (revenue d) (currentRound d) (consecutiveEmptyRounds d) v (roundEndsAt d) (closingToken d) (closingStartedAt d) (version d) (config d).
Definition set_roundEndsAt (v : option Z) (d : Doc) : Doc :=
  mkDoc (createdAt d) (updatedAt d) (title d) (state d) (startedAt d) (endsAt d) (endedAt d) (endReason d) (totalQuantity d) (awardedCount d) (revenue d) (currentRound d) (consecutiveEmptyRounds d) (roundState d) v (closingToken d) (closingStartedAt d) (version d) (config d).
Definition set_closingToken (v : option ObjectId) (d : Doc) : Doc :=
  mkDoc (createdAt d) (updatedAt d) (title d) (state d) (startedAt d) (endsAt d) (endedAt d) (endReason d) (totalQuantity d) (awardedCount d) (revenue d) (currentRound d) (consecutiveEmptyRounds d) (roundState d) (roundEndsAt d) v (closingStartedAt d) (version d) (config d).
Definition set_closingStartedAt (v : option Z) (d : Doc) : Doc :=
  mkDoc (createdAt d) (updatedAt d) (title d) (state d) (startedAt d) (endsAt d) (endedAt d) (endReason d) (totalQuantity d) (awardedCount d) (revenue d) (currentRound d) (consecutiveEmptyRounds d) (roundState d) (roundEndsAt d) (closingToken d) v (version d) (config d).
Definition set_version (v : Z) (d : Doc) : Doc :=
  mkDoc (createdAt d) (updatedAt d) (title d) (state d) (startedAt d) (endsAt d) (endedAt d) (endReason d) (totalQuantity d) (awardedCount d) (revenue d) (currentRound d) (consecutiveEmptyRounds d) (roundState d) (roundEndsAt d) (closingToken d) (closingStartedAt d) v (config d).
End Auction.

Module Bid.
Inductive Status := active | won | lost | withdrawn.

Record Settlement := mkSettlement {
  wonRound : Z;
  giftSerial : Z;
  clearingPrice : Z;
  paid : Z;
  refunded : Z;
  settledAt : Z
}.

Record Doc := mkDoc {
  auctionId : ObjectId;
  userId : ObjectId;
  amount : Z;
  status : Status;
  createdAt : Z;
  updatedAt : Z;
  lastBidAt : Z;
  settlement : option Settlement
}.

(** Field updates ([$set] of one field). *)
Definition set_amount (v : Z) (d : Doc) : Doc :=
  mkDoc (auctionId d) (userId d) v (status d) (createdAt d) (updatedAt d) (lastBidAt d) (settlement d).
Definition set_status (v : Status) (d : Doc) : Doc :=
  mkDoc (auctionId d) (userId d) (amount d) v (createdAt d) (updatedAt d) (lastBidAt d) (settlement d).
Definition set_updatedAt (v : Z) (d : Doc) : Doc :=
  mkDoc (auctionId d) (userId d) (amount d) (status d) (createdAt d) v (lastBidAt d) (settlement d).
Definition set_lastBidAt (v : Z) (d : Doc) : Doc :=
  mkDoc (auctionId d) (userId d) (amount d) (status d) (createdAt d) (updatedAt d) v (settlement d).
Definition set_settlement (v : option Settlement) (d : Doc) : Doc :=
  mkDoc (auctionId d) (userId d) (amount d) (status d) (createdAt d) (updatedAt d) (lastBidAt d) v.
End Bid.

Module Round.
Record Winner := mkWinner {
  userId : ObjectId;
  amount : Z;
  giftSerial : Z;
  paid : Z;
  refunded : Z
}.

Record Doc := mkDoc {
  auctionId : ObjectId;
  roundNumber : Z;
  endedAt : Z;
  clearingPrice : Z;
  winners : list Winner
}.
End Round.

Module Ledger.
Inductive Type_ := topup | reserve | unreserve | spend | refund.

(** [meta?: Record<string, unknown>]: the three shapes the services write. *)
Inductive Meta :=
| MetaBid (bidId : ObjectId)
| MetaRound (round : Z) (giftSerial : Z)
| MetaReason (reason : string).

Record Doc := mkDoc {
  createdAt : Z;
  userId : ObjectId;
  type : Type_;
  amount : Z;
  auctionId : option ObjectId;
  meta : option Meta
}.
End Ledger.

Module EngineLock.
Record Doc := mkDoc { ownerId : ObjectId; expiresAt : Z; updatedAt : Z }.
End EngineLock.

#[global] Instance AuctionState_eq_dec : EqDecision Auction.State.
Proof. solve_decision. Defined.
#[global] Instance RoundState_eq_dec : EqDecision Auction.RoundState.
Proof. solve_decision. Defined.
#[global] Instance BidStatus_eq_dec : EqDecision Bid.Status.
Proof. solve_decision. Defined.
#[global] Instance LedgerType_eq_dec : EqDecision Ledger.Type_.
Proof. solve_decision. Defined.

(** ** src/db/mongo.ts and src/db/transactions.ts *)

Module Store.

Record Db := mkDb {
  users : gmap ObjectId User.Doc;
  auctions : gmap ObjectId Auction.Doc;
  bids : gmap ObjectId Bid.Doc;
  rounds : gmap ObjectId Round.Doc;
  ledger : gmap ObjectId Ledger.Doc;
  engineLocks : gmap string EngineLock.Doc
}.

Inductive LogLine :=
| LogInfo (msg : string)
| LogError (msg : string).

(** The database, the [ObjectId] generator and clock of the process, and
    what the logger has received. *)
Record World := mkWorld {
  db : Db;
  oidGen : ObjectId;
  clock : Z;
  logs : list LogLine
}.

Definition emptyDb : Db := mkDb ∅ ∅ ∅ ∅ ∅ ∅.
Definition initialWorld : World := mkWorld emptyDb 0%N 0 [].

(** *** Computations that read and write the world and may throw *)

Definition M (A : Type) : Type := World -> Result A * World.

Definition ret {A} (a : A) : M A := fun w => (Ok a, w).

Definition bind {A B} (m : M A) (k : A -> M B) : M B :=
  fun w => match m w with
           | (Ok a, w') => k a w'
           | (Throw e, w') => (Throw e, w')
           end.

Definition throw {A} (e : Thrown) : M A := fun w => (Throw e, w).

Definition tryCatch {A} (m : M A) (handler : Thrown -> M A) : M A :=
  fun w => match m w with
           | (Ok a, w') => (Ok a, w')
           | (Throw e, w') => handler e w'
           end.

Declare Scope txn_scope.
Delimit Scope txn_scope with txn.
Notation "'let*' x ':=' m 'in' k" := (bind m (fun x => k))
  (at level 10, x name, m at level 100, k at level 200) : txn_scope.
Notation "m ;; k" := (bind m (fun _ => k))
  (at level 100, k at level 200, right associativity) : txn_scope.
Open Scope txn_scope.

Fixpoint forEach {A} (l : list A) (body : A -> M unit) : M unit :=
  match l with
  | [] => ret tt
  | x :: r => body x ;; forEach r body
  end.

Definition newDate : M Z := fun w => (Ok (clock w), w).

Definition newObjectId : M ObjectId :=
  fun w => (Ok (oidGen w), mkWorld (db w) (N.succ (oidGen w)) (clock w) (logs w)).

Definition readDb {A} (f : Db -> A) : M A := fun w => (Ok (f (db w)), w).

Definition writeDb (f : Db -> Db) : M unit :=
  fun w => (Ok tt, mkWorld (f (db w)) (oidGen w) (clock w) (logs w)).

Definition logInfo (msg : string) : M unit :=
  fun w => (Ok tt, mkWorld (db w) (oidGen w) (clock w) (logs w ++ [LogInfo msg])).

Definition logError (msg : string) : M unit :=
  fun w => (Ok tt, mkWorld (db w) (oidGen w) (clock w) (logs w ++ [LogError msg])).

(** *** Collections and their unique indexes *)

(** A unique index: the field names of its key, and when two documents
    both fall under the index with the same key. *)
Record UniqueIndex (D : Type) := mkUniqueIndex {
  keyPattern : list string;
  sameKey : D -> D -> bool
}.
Arguments mkUniqueIndex {D} keyPattern sameKey.
Arguments keyPattern {D} _.
Arguments sameKey {D} _ _ _.

Record Collection (D : Type) := mkCollection {
  colName : string;
  getCol : Db -> gmap ObjectId D;
  setCol : gmap ObjectId D -> Db -> Db;
  uniqueIndexes : list (UniqueIndex D)
}.
Arguments mkCollection {D} colName getCol setCol uniqueIndexes.
Arguments colName {D} _.
Arguments getCol {D} _ _.
Arguments setCol {D} _ _ _.
Arguments uniqueIndexes {D} _.

(** [ensureIndexes]: the unique ones.
    - bids [{ auctionId: 1, userId: 1 }, unique]
    - bids [{ auctionId: 1, 'settlement.giftSerial': 1 }, unique], partial
      on [status = 'won'] with [settlement.giftSerial] present
    - rounds [{ auctionId: 1, roundNumber: 1 }, unique] *)
Definition bidsByAuctionUser : UniqueIndex Bid.Doc :=
  mkUniqueIndex ["auctionId"; "userId"]
    (fun a b => (Bid.auctionId a =? Bid.auctionId b)%N && (Bid.userId a =? Bid.userId b)%N).

Definition wonSerial (b : Bid.Doc) : option Z :=
  match Bid.status b, Bid.settlement b with
  | Bid.won, Some s => Some (Bid.giftSerial s)
  | _, _ => None
  end.

Definition bidsByAuctionSerial : UniqueIndex Bid.Doc :=
  mkUniqueIndex ["auctionId"; "settlement.giftSerial"]
    (fun a b =>
       match wonSerial a, wonSerial b with
       | Some x, Some y => (Bid.auctionId a =? Bid.auctionId b)%N && (x =? y)
       | _, _ => false
       end).

Definition roundsByAuctionNumber : UniqueIndex Round.Doc :=
  mkUniqueIndex ["auctionId"; "roundNumber"]
    (fun a b => (Round.auctionId a =? Round.auctionId b)%N
                && (Round.roundNumber a =? Round.roundNumber b)).

(** [col] of collections.ts. *)
Definition colUsers : Collection User.Doc :=
  mkCollection "users" users
    (fun c d => mkDb c (auctions d) (bids d) (rounds d) (ledger d) (engineLocks d)) [].

Definition colAuctions : Collection Auction.Doc :=
  mkCollection "auctions" auctions
    (fun c d => mkDb (users d) c (bids d) (rounds d) (ledger d) (engineLocks d)) [].

Definition colBids : Collection Bid.Doc :=
  mkCollection "bids" bids
    (fun c d => mkDb (users d) (auctions d) c (rounds d) (ledger d) (engineLocks d))
    [bidsByAuctionUser; bidsByAuctionSerial].

Definition colRounds : Collection Round.Doc :=
  mkCollection "rounds" rounds
    (fun c d => mkDb (users d) (auctions d) (bids d) c (ledger d) (engineLocks d))
    [roundsByAuctionNumber].

Definition colLedger : Collection Ledger.Doc :=
  mkCollection "ledger" ledger
    (fun c d => mkDb (users d) (auctions d) (bids d) (rounds d) c (engineLocks d)) [].

Section CollectionOps.
Context {D : Type}.

(** Does another document of the collection hold the key [d] would take? *)
Definition keyTaken (ix : UniqueIndex D) (id : ObjectId) (d : D)
    (c : gmap ObjectId D) : bool :=
  existsb (fun kd => negb (kd.1 =? id)%N && sameKey ix d kd.2) (map_to_list c).

Fixpoint firstViolation (ixs : list (UniqueIndex D)) (id : ObjectId)
    (old : option D) (d : D) (c : gmap ObjectId D) : option (list string) :=
  match ixs with
  | [] => None
  | ix :: rest =>
      let moved := match old with
                   | Some o => negb (sameKey ix o d)
                   | None => true
                   end in
      if moved && keyTaken ix id d c then Some (keyPattern ix)
      else firstViolation rest id old d c
  end.

(** [insertOne]: the primary key first, then the secondary indexes. *)
Definition insertOne (col : Collection D) (id : ObjectId) (d : D) : M unit :=
  let* c := readDb (getCol col) in
  match c !! id with
  | Some _ => throw (duplicateKey (colName col) ["_id"])
  | None =>
      match firstViolation (uniqueIndexes col) id None d c with
      | Some kp => throw (duplicateKey (colName col) kp)
      | None => writeDb (setCol col (<[id := d]> c))
      end
  end.

(** [findOne({ _id: id, ...filter })]. *)
Definition findOne (col : Collection D) (id : ObjectId) (filter : D -> bool)
    : M (option D) :=
  let* c := readDb (getCol col) in
  ret (match c !! id with
       | Some d => if filter d then Some d else None
       | None => None
       end).

(** [find(filter).toArray()], and [findOne(filter)] on other fields. *)
Definition find (col : Collection D) (filter : ObjectId -> D -> bool)
    : M (list (ObjectId * D)) :=
  let* c := readDb (getCol col) in
  ret (List.filter (fun kd => filter kd.1 kd.2) (map_to_list c)).

Definition findFirst (col : Collection D) (filter : ObjectId -> D -> bool)
    : M (option (ObjectId * D)) :=
  let* l := find col filter in
  ret (head l).

(** [findOneAndUpdate({ _id: id, ...filter }, update, { returnDocument: 'after' })]:
    the updated document, or [null] when nothing matches. *)
Definition findOneAndUpdate (col : Collection D) (id : ObjectId)
    (filter : D -> bool) (update : D -> D) : M (option D) :=
  let* c := readDb (getCol col) in
  match c !! id with
  | Some d =>
      if filter d then
        match firstViolation (uniqueIndexes col) id (Some d) (update d) c with
        | Some kp => throw (duplicateKey (colName col) kp)
        | None => writeDb (setCol col (<[id := update d]> c)) ;; ret (Some (update d))
        end
      else ret None
  | None => ret None
  end.

(** [updateOne(...)]: its [matchedCount]. *)
Definition updateOne (col : Collection D) (id : ObjectId)
    (filter : D -> bool) (update : D -> D) : M Z :=
  let* r := findOneAndUpdate col id filter update in
  ret (match r with Some _ => 1 | None => 0 end).

(** [.limit(n)]: zero is no limit, a negative count is its absolute value. *)
Definition limit {X} (n : Z) (l : list X) : list X :=
  if n =? 0 then l else take (Z.to_nat (Z.abs n)) l.
End CollectionOps.

(** *** transactions.ts *)

Record TxnOptions := mkTxnOptions {
  maxAttempts : option nat;
  retryOnDuplicateKey : option bool
}.

Definition noOptions : TxnOptions := mkTxnOptions None None.

Definition isTransientTxnError (err : Thrown) : bool :=
  match err with
  | MongoServerError _ _ _ labels =>
      existsb (String.eqb "TransientTransactionError") labels
  | _ => false
  end.

Definition isDuplicateKeyError (err : Thrown) : bool :=
  match err with
  | MongoServerError code _ _ _ => code =? 11000
  | _ => false
  end.

(** An aborted transaction leaves the database as it was when the
    transaction began; the generator and the log are not part of it. *)
Definition abortTo (w0 w : World) : World :=
  mkWorld (db w0) (oidGen w) (clock w) (logs w).

(** The attempts of [withTxn] after the current one are [remaining]. *)
Fixpoint withTxnAttempts {A} (remaining : nat) (retryDup : bool) (fn : M A) : M A :=
  fun w =>
    match fn w with
    | (Ok res, w') => (Ok res, w')
    | (Throw err, w') =>
        match remaining with
        | S r =>
            if isTransientTxnError err || (retryDup && isDuplicateKeyError err)
            then withTxnAttempts r retryDup fn (abortTo w w')
            else (Throw err, abortTo w w')
        | O => (Throw err, abortTo w w')
        end
    end.

Definition withTxn {A} (fn : M A) (opts : TxnOptions) : M A :=
  let maxAttempts := default 5%nat (maxAttempts opts) in
  let retryOnDuplicateKey := default false (retryOnDuplicateKey opts) in
  match maxAttempts with
  | O => throw ThrownUndefined
  | S r => withTxnAttempts r retryOnDuplicateKey fn
  end.

End Store.
Export Store.

(** ** src/services/users.ts *)

Module Users.

Definition createUser : M (ObjectId * User.Doc) :=
  let* now := newDate in
  let* id := newObjectId in
  let doc := User.mkDoc now (User.mkBalance 0 0 0) 0 in
  insertOne colUsers id doc ;;
  ret (id, doc).

Definition getUser (userId : ObjectId) : M (option User.Doc) :=
  findOne colUsers userId (fun _ => true).

(** The transaction body of [topupUser]. *)
Definition topupUserTxn (userId : ObjectId) (amount : Z) : M User.Doc :=
  let* now := newDate in
  let* res := findOneAndUpdate colUsers userId (fun _ => true)
                (fun u => User.incTotalTopups amount (User.incBalance amount 0 0 u)) in
  match res with
  | None => throw (appError NOT_FOUND "User not found" 404)
  | Some user =>
      let* lid := newObjectId in
      insertOne colLedger lid (Ledger.mkDoc now userId Ledger.topup amount None None) ;;
      ret user
  end.

Definition topupUser (userId : ObjectId) (amount : Z) : M User.Doc :=
  if negb (isSafeInteger amount) || (amount <=? 0)
  then throw (appError INVALID_INPUT "Amount must be a positive integer" 400)
  else withTxn (topupUserTxn userId amount) noOptions.

End Users.

(** ** src/services/auctions.ts *)

Module Auctions.

(** [Partial<AuctionConfig>]: an absent field is [None]; an absent
    [config] is the record of absent fields. *)
Record PartialConfig := mkPartialConfig {
  roundDurationMs : option Z;
  winnersPerRound : option Z;
  antiSnipeWindowMs : option Z;
  antiSnipeExtendMs : option Z;
  maxWinsPerUser : option Z;
  maxDurationMs : option Z;
  maxConsecutiveEmptyRounds : option Z
}.

Record CreateAuctionInput := mkCreateAuctionInput {
  title : string;
  totalQuantity : Z;
  config : PartialConfig
}.

Definition clampInt (v min max : Z) : Z :=
  let iv := v in
  if iv <? min then min
  else if iv >? max then max
  else iv.

(** [!input.title.trim()] on a title of one-byte characters. *)
Definition isWhiteSpace (c : Ascii.ascii) : bool :=
  let n := Ascii.nat_of_ascii c in
  ((9 <=? n) && (n <=? 13))%nat || (n =? 32)%nat.

Fixpoint trimsToEmpty (s : string) : bool :=
  match s with
  | EmptyString => true
  | String c r => isWhiteSpace c && trimsToEmpty r
  end.

Definition createAuction (input : CreateAuctionInput) : M (ObjectId * Auction.Doc) :=
  if trimsToEmpty (title input)
  then throw (appError INVALID_INPUT "Title is required" 400)
  else if negb (isSafeInteger (totalQuantity input)) || (totalQuantity input <=? 0)
  then throw (appError INVALID_INPUT "totalQuantity must be a positive integer" 400)
  else
    let cfg :=
      Auction.mkConfig
        (clampInt (default 60000 (roundDurationMs (config input))) 5000 (60 * 60000))
        (clampInt (default 10 (winnersPerRound (config input))) 1 (totalQuantity input))
        (clampInt (default 10000 (antiSnipeWindowMs (config input))) 0 60000)
        (clampInt (default 10000 (antiSnipeExtendMs (config input))) 0 60000)
        (clampInt (default 1 (maxWinsPerUser (config input))) 1 1)
        (clampInt (default 0 (maxDurationMs (config input))) 0 (7 * 24 * 60 * 60000))
        (clampInt (default 3 (maxConsecutiveEmptyRounds (config input))) 0 10000) in
    let* now := newDate in
    let* id := newObjectId in
    let doc :=
      Auction.mkDoc now now (title input) Auction.draft None None None None
        (totalQuantity input) 0 0 0 0 None None None None 0 cfg in
    insertOne colAuctions id doc ;;
    ret (id, doc).

Definition listAuctions : M (list (ObjectId * Auction.Doc)) :=
  let* l := find colAuctions (fun _ _ => true) in
  ret (limit 50 (sortBy (fun a b => Auction.createdAt b.2 - Auction.createdAt a.2) l)).


Definition isState (s : Auction.State) (a : Auction.Doc) : bool :=
  bool_decide (Auction.state a = s).

Definition isRoundState (s : Auction.RoundState) (a : Auction.Doc) : bool :=
  bool_decide (Auction.roundState a = Some s).

Definition startAuctionTxn (auctionId : ObjectId) : M Auction.Doc :=
  let* now := newDate in
  let* existing := findOne colAuctions auctionId (fun _ => true) in
  match existing with
  | None => throw (appError NOT_FOUND "Auction not found" 404)
  | Some existing =>
      if negb (isState Auction.draft existing)
      then throw (appError NOT_STARTABLE "Auction not startable" 409)
      else
        let endsAt := now + Auction.roundDurationMs (Auction.config existing) in
        let auctionEndsAt :=
          if Auction.maxDurationMs (Auction.config existing) >? 0
          then Some (now + Auction.maxDurationMs (Auction.config existing))
          else None in
        let roundEndsAt :=
          match auctionEndsAt with
          | Some e => if e <? endsAt then e else endsAt
          | None => endsAt
          end in
        let* res :=
          findOneAndUpdate colAuctions auctionId (isState Auction.draft)
            (fun a =>
               Auction.set_version (Auction.version a + 1)
                 (Auction.set_endedAt None
                 (Auction.set_endReason None
                 (Auction.set_state Auction.running
                 (Auction.set_startedAt (Some now)
                 (Auction.set_endsAt auctionEndsAt
                 (Auction.set_currentRound 1
                 (Auction.set_roundState (Some Auction.open)
                 (Auction.set_roundEndsAt (Some roundEndsAt)
                 (Auction.set_consecutiveEmptyRounds 0
                 (Auction.set_updatedAt now a))))))))))) in
        match res with
        | None => throw (appError NOT_STARTABLE "Auction not startable" 409)
        | Some auction => ret auction
        end
  end.

Definition startAuction (auctionId : ObjectId) : M Auction.Doc :=
  withTxn (startAuctionTxn auctionId) noOptions.

(** [reserved -= amount; available += amount], predicated on [reserved >= amount]. *)
Definition hasReserved (amount : Z) (u : User.Doc) : bool :=
  amount <=? User.reserved (User.balance u).

Definition hasAvailable (amount : Z) (u : User.Doc) : bool :=
  amount <=? User.available (User.balance u).

Definition isBidStatus (s : Bid.Status) (b : Bid.Doc) : bool :=
  bool_decide (Bid.status b = s).

Definition isActiveBidOf (auctionId : ObjectId) (b : Bid.Doc) : bool :=
  (Bid.auctionId b =? auctionId)%N && isBidStatus Bid.active b.

Definition cancelAuctionTxn (auctionId : ObjectId) : M Auction.Doc :=
  let* now := newDate in
  let* res :=
    findOneAndUpdate colAuctions auctionId
      (fun a => isState Auction.draft a || isState Auction.running a)
      (fun a =>
         Auction.set_version (Auction.version a + 1)
           (Auction.set_roundState None
           (Auction.set_roundEndsAt None
           (Auction.set_closingToken None
           (Auction.set_closingStartedAt None
           (Auction.set_state Auction.cancelled
           (Auction.set_endedAt (Some now)
           (Auction.set_endReason (Some Auction.cancelledByAdmin)
           (Auction.set_updatedAt now a))))))))) in
  match res with
  | None => throw (appError NOT_CANCELLABLE "Auction not found or not cancellable" 409)
  | Some auction =>
      let* activeBids := find colBids (fun _ b => isActiveBidOf auctionId b) in
      forEach activeBids (fun b =>
        let* bidRes :=
          updateOne colBids b.1 (isBidStatus Bid.active)
            (fun d => Bid.set_status Bid.withdrawn (Bid.set_updatedAt now d)) in
        if negb (bidRes =? 1)
        then throw (appError INVARIANT_VIOLATION
                      "Invariant violation: active bid missing on cancel" 500)
        else
          let* userRes :=
            updateOne colUsers (Bid.userId b.2) (hasReserved (Bid.amount b.2))
              (User.incBalance (Bid.amount b.2) (- Bid.amount b.2) 0) in
          if negb (userRes =? 1)
          then throw (appError INVARIANT_VIOLATION
                        "Invariant violation: insufficient reserved on cancel" 500)
          else
            let* lid := newObjectId in
            insertOne colLedger lid
              (Ledger.mkDoc now (Bid.userId b.2) Ledger.unreserve (Bid.amount b.2)
                 (Some auctionId) None)) ;;
      ret auction
  end.

Definition cancelAuction (auctionId : ObjectId) : M Auction.Doc :=
  withTxn (cancelAuctionTxn auctionId) noOptions.

(** [$max: { roundEndsAt: v }]. *)
Definition maxRoundEndsAt (v : Z) (a : Auction.Doc) : Auction.Doc :=
  Auction.set_roundEndsAt
    (match Auction.roundEndsAt a with
     | Some r => Some (Z.max r v)
     | None => Some v
     end) a.

(** The [newEndsAt] that [placeBid] computes after the bid is written:
    the current end of the round, clamped to the deadline of the auction,
    or the anti-snipe candidate when that is later. *)
Definition antiSnipeEndsAt (auction : Auction.Doc) (roundEndsAt now : Z) : Z :=
  let newEndsAt :=
    match Auction.endsAt auction with
    | Some e => if roundEndsAt >? e then e else roundEndsAt
    | None => roundEndsAt
    end in
  let remainingMs := roundEndsAt - now in
  if remainingMs <=? Auction.antiSnipeWindowMs (Auction.config auction)
  then
    let candidate := now + Auction.antiSnipeExtendMs (Auction.config auction) in
    let candidate :=
      match Auction.endsAt auction with
      | Some e => if candidate >? e then e else candidate
      | None => candidate
      end in
    if candidate >? newEndsAt then candidate else newEndsAt
  else newEndsAt.

Definition placeBidTxn (auctionId userId : ObjectId) (newAmount : Z)
    : M (Auction.Doc * (ObjectId * Bid.Doc)) :=
  let* now := newDate in
  let* auction := findOne colAuctions auctionId (fun _ => true) in
  match auction with
  | None => throw (appError NOT_FOUND "Auction not found" 404)
  | Some auction =>
  match Auction.roundEndsAt auction with
  | None => throw (appError NOT_OPEN "Auction is not open for bids" 409)
  | Some roundEndsAt =>
  if negb (isState Auction.running auction) || negb (isRoundState Auction.open auction)
  then throw (appError NOT_OPEN "Auction is not open for bids" 409)
  else if now >=? roundEndsAt
  then throw (appError ROUND_ENDED "Round already ended" 409)
  else
    let* existing :=
      findFirst colBids
        (fun _ b => (Bid.auctionId b =? auctionId)%N && (Bid.userId b =? userId)%N) in
    let existingActive :=
      match existing with
      | Some e => isBidStatus Bid.active e.2
      | None => false
      end in
    if match existing with
       | Some e => negb existingActive && negb (isBidStatus Bid.withdrawn e.2)
       | None => false
       end
    then throw (appError BID_NOT_ACTIVE "Bid is not active" 409)
    else
      let oldAmount :=
        match existing with
        | Some e => if existingActive then Bid.amount e.2 else 0
        | None => 0
        end in
      if newAmount <=? oldAmount
      then throw (appError INVALID_INPUT
                    "New amount must be greater than previous amount" 400)
      else
        let delta := newAmount - oldAmount in
        let* userRes :=
          findOneAndUpdate colUsers userId (hasAvailable delta)
            (User.incBalance (- delta) delta 0) in
        match userRes with
        | None => throw (appError INSUFFICIENT_FUNDS
                           "Insufficient funds or user not found" 409)
        | Some _ =>
            let* bid :=
              match existing with
              | Some e =>
                  if existingActive then
                    let* upd :=
                      findOneAndUpdate colBids e.1 (isBidStatus Bid.active)
                        (fun d => Bid.set_amount newAmount
                                    (Bid.set_lastBidAt now (Bid.set_updatedAt now d))) in
                    match upd with
                    | None => throw (appError INVARIANT_VIOLATION
                                       "Invariant violation: failed to update bid" 500)
                    | Some d => ret (e.1, d)
                    end
                  else
                    let* upd :=
                      findOneAndUpdate colBids e.1 (isBidStatus Bid.withdrawn)
                        (fun d => Bid.set_status Bid.active
                                    (Bid.set_amount newAmount
                                       (Bid.set_lastBidAt now (Bid.set_updatedAt now d)))) in
                    match upd with
                    | None => throw (appError INVARIANT_VIOLATION
                                       "Invariant violation: failed to reactivate bid" 500)
                    | Some d => ret (e.1, d)
                    end
              | None =>
                  let* bidId := newObjectId in
                  let bid := Bid.mkDoc auctionId userId newAmount Bid.active
                               now now now None in
                  insertOne colBids bidId bid ;;
                  ret (bidId, bid)
              end in
            let* lid := newObjectId in
            insertOne colLedger lid
              (Ledger.mkDoc now userId Ledger.reserve delta (Some auctionId)
                 (Some (Ledger.MetaBid bid.1))) ;;
            let newEndsAt := antiSnipeEndsAt auction roundEndsAt now in
            let* auRes :=
              findOneAndUpdate colAuctions auctionId
                (fun a => isState Auction.running a && isRoundState Auction.open a)
                (fun a =>
                   Auction.set_version (Auction.version a + 1)
                     (maxRoundEndsAt newEndsAt (Auction.set_updatedAt now a))) in
            match auRes with
            | None => throw (appError NOT_OPEN "Auction is not open for bids" 409)
            | Some updatedAuction => ret (updatedAuction, bid)
            end
        end
  end
  end.

Definition placeBid (auctionId userId : ObjectId) (newAmount : Z)
    : M (Auction.Doc * (ObjectId * Bid.Doc)) :=
  if negb (isSafeInteger newAmount) || (newAmount <=? 0)
  then throw (appError INVALID_INPUT "Amount must be a positive integer" 400)
  else withTxn (placeBidTxn auctionId userId newAmount) (mkTxnOptions None (Some true)).

Definition withdrawBidTxn (auctionId userId : ObjectId) : M (ObjectId * Bid.Doc) :=
  let* now := newDate in
  let* auction := findOne colAuctions auctionId (fun _ => true) in
  match auction with
  | None => throw (appError NOT_FOUND "Auction not found" 404)
  | Some auction =>
  match Auction.roundEndsAt auction with
  | None => throw (appError NOT_OPEN "Auction is not open for withdraw" 409)
  | Some roundEndsAt =>
  if negb (isState Auction.running auction) || negb (isRoundState Auction.open auction)
  then throw (appError NOT_OPEN "Auction is not open for withdraw" 409)
  else if now >=? roundEndsAt
  then throw (appError ROUND_ENDED "Round already ended" 409)
  else
    let* bid :=
      findFirst colBids
        (fun _ b => (Bid.auctionId b =? auctionId)%N && (Bid.userId b =? userId)%N
                    && isBidStatus Bid.active b) in
    match bid with
    | None => throw (appError BID_NOT_ACTIVE "Active bid not found" 409)
    | Some bid =>
        let* bidRes :=
          updateOne colBids bid.1 (isBidStatus Bid.active)
            (fun d => Bid.set_status Bid.withdrawn (Bid.set_updatedAt now d)) in
        if negb (bidRes =? 1)
        then throw (appError BID_NOT_ACTIVE "Active bid not found" 409)
        else
          let* userRes :=
            findOneAndUpdate colUsers userId (hasReserved (Bid.amount bid.2))
              (User.incBalance (Bid.amount bid.2) (- Bid.amount bid.2) 0) in
          match userRes with
          | None => throw (appError INVARIANT_VIOLATION
                "Invariant violation: user not found or inconsistent balance" 500)
          | Some _ =>
              let* lid := newObjectId in
              insertOne colLedger lid
                (Ledger.mkDoc now userId Ledger.unreserve (Bid.amount bid.2)
                   (Some auctionId) (Some (Ledger.MetaBid bid.1))) ;;
              let* auRes :=
                updateOne colAuctions auctionId (fun _ => true)
                  (fun a => Auction.set_version (Auction.version a + 1)
                              (Auction.set_updatedAt now a)) in
              if negb (auRes =? 1)
              then throw (appError NOT_FOUND "Auction not found" 404)
              else ret (bid.1, Bid.set_status Bid.withdrawn (Bid.set_updatedAt now bid.2))
          end
    end
  end
  end.

Definition withdrawBid (auctionId userId : ObjectId) : M (ObjectId * Bid.Doc) :=
  withTxn (withdrawBidTxn auctionId userId) noOptions.

(** [.sort({ amount: -1, lastBidAt: 1, userId: 1 })] on bids. *)
Definition bidSortOrder (a b : ObjectId * Bid.Doc) : Z :=
  if negb (Bid.amount a.2 =? Bid.amount b.2) then Bid.amount b.2 - Bid.amount a.2
  else if negb (Bid.lastBidAt a.2 =? Bid.lastBidAt b.2)
  then Bid.lastBidAt a.2 - Bid.lastBidAt b.2
  else Z.of_N (Bid.userId a.2) - Z.of_N (Bid.userId b.2).

Record LeaderboardRow := mkLeaderboardRow {
  lb_userId : ObjectId;
  lb_amount : Z;
  lb_lastBidAt : Z
}.

Record MyBid := mkMyBid {
  my_status : Bid.Status;
  my_amount : Z;
  my_lastBidAt : Z
}.

Record RecentWinner := mkRecentWinner {
  rw_userId : ObjectId;
  rw_amount : Z;
  rw_giftSerial : Z
}.

Record RecentRound := mkRecentRound {
  rr_roundNumber : Z;
  rr_clearingPrice : Z;
  rr_endedAt : Z;
  rr_winners : list RecentWinner
}.

Record Snapshot := mkSnapshot {
  now : Z;
  auction : Auction.Doc;
  timeRemainingMs : option Z;
  remainingQuantity : Z;
  leaderboard : list LeaderboardRow;
  myBid : option MyBid;
  estimatedClearingPrice : option Z;
  recentRounds : list RecentRound
}.

Definition getAuctionSnapshot (auctionId : ObjectId) (userId : option ObjectId)
    : M Snapshot :=
  let* auction := findOne colAuctions auctionId (fun _ => true) in
  match auction with
  | None => throw (appError NOT_FOUND "Auction not found" 404)
  | Some auction =>
      let* now := newDate in
      let timeRemainingMs :=
        match Auction.roundEndsAt auction with
        | Some roundEndsAt =>
            if isState Auction.running auction && isRoundState Auction.open auction
            then Some (Z.max 0 (roundEndsAt - now))
            else None
        | None => None
        end in
      let remainingQuantity :=
        Z.max 0 (Auction.totalQuantity auction - Auction.awardedCount auction) in
      let k :=
        if isState Auction.running auction
        then Z.min remainingQuantity (Auction.winnersPerRound (Auction.config auction))
        else 0 in
      let leaderboardLimit := Z.max 20 (Z.min 200 k) in
      let* found := find colBids (fun _ b => isActiveBidOf auctionId b) in
      let activeBids := limit leaderboardLimit (sortBy bidSortOrder found) in
      let leaderboard :=
        map (fun b => mkLeaderboardRow (Bid.userId b.2) (Bid.amount b.2) (Bid.lastBidAt b.2))
            (slice 0 20 activeBids) in
      let* myBidDoc :=
        match userId with
        | Some uid =>
            findFirst colBids
              (fun _ b => (Bid.auctionId b =? auctionId)%N && (Bid.userId b =? uid)%N)
        | None => ret None
        end in
      let myBid :=
        match myBidDoc with
        | Some b => Some (mkMyBid (Bid.status b.2) (Bid.amount b.2) (Bid.lastBidAt b.2))
        | None => None
        end in
      let estimatedClearingPrice :=
        if (k >? 0) && (jsLength activeBids >=? k)
        then match at_index activeBids (k - 1) with
             | Some b => Some (Bid.amount b.2)
             | None => None
             end
        else None in
      let* foundRounds := find colRounds (fun _ r => (Round.auctionId r =? auctionId)%N) in
      let recentRounds :=
        limit 5 (sortBy (fun a b => Round.roundNumber b.2 - Round.roundNumber a.2)
                   foundRounds) in
      ret (mkSnapshot now auction timeRemainingMs remainingQuantity leaderboard myBid
             estimatedClearingPrice
             (rev (map (fun r =>
                          mkRecentRound (Round.roundNumber r.2) (Round.clearingPrice r.2)
                            (Round.endedAt r.2)
                            (map (fun w => mkRecentWinner (Round.userId w) (Round.amount w)
                                             (Round.giftSerial w))
                                 (Round.winners r.2)))
                       recentRounds)))
  end.

End Auctions.

(** ** src/services/auctionEngine.ts *)

Module Engine.

Import Auctions.

Definition closeGraceMs : Z := 250.

Definition isDuplicateKeyError (err : Thrown) : bool :=
  match err with
  | MongoServerError code _ _ _ => code =? 11000
  | _ => false
  end.

Definition hasOwnProperty (kp : list string) (name : string) : bool :=
  existsb (String.eqb name) kp.

Definition isDuplicateRoundSettlement (err : Thrown) : bool :=
  if negb (isDuplicateKeyError err) then false
  else
    match err with
    | MongoServerError _ (Some kp) _ _ =>
        hasOwnProperty kp "auctionId" && hasOwnProperty kp "roundNumber"
    | MongoServerError _ None message _ => includes message "roundNumber"
    | _ => false
    end.

(** The [winners] array of [settleClosingAuction]. *)
Record SettleWinner := mkSettleWinner {
  bidId : ObjectId;
  userId : ObjectId;
  amount : Z;
  giftSerial : Z;
  paid : Z;
  refunded : Z
}.

Definition isClosingWith (closingToken : ObjectId) (a : Auction.Doc) : bool :=
  isState Auction.running a && isRoundState Auction.closing a
  && bool_decide (Auction.closingToken a = Some closingToken).

Definition isRunningWith (closingToken : ObjectId) (a : Auction.Doc) : bool :=
  isState Auction.running a
  && bool_decide (Auction.closingToken a = Some closingToken).

(** The top [winnersCount] active bids of the auction, in rank order. *)
Definition findWinnerBids (auctionId : ObjectId) (winnersCount : Z)
    : M (list (ObjectId * Bid.Doc)) :=
  if winnersCount >? 0 then
    let* found := find colBids (fun _ b => isActiveBidOf auctionId b) in
    ret (limit winnersCount (sortBy bidSortOrder found))
  else ret [].

Definition clearingPriceOf (winnerBids : list (ObjectId * Bid.Doc)) : Z :=
  if jsLength winnerBids =? 0 then 0
  else match at_index winnerBids (jsLength winnerBids - 1) with
       | Some b => Bid.amount b.2
       | None => 0
       end.

Definition winnersOf (auction : Auction.Doc) (winnerBids : list (ObjectId * Bid.Doc))
    : list SettleWinner :=
  let clearingPrice := clearingPriceOf winnerBids in
  imap (fun idx b =>
          let giftSerial := Auction.awardedCount auction + Z.of_nat idx + 1 in
          let refunded := Bid.amount b.2 - clearingPrice in
          mkSettleWinner b.1 (Bid.userId b.2) (Bid.amount b.2) giftSerial
            clearingPrice refunded)
       winnerBids.

(** The settlement of one winner: bid, balance, ledger. *)
Definition settleWinner (auctionId : ObjectId) (auction : Auction.Doc)
    (clearingPrice now : Z) (w : SettleWinner) : M unit :=
  let* bidRes :=
    updateOne colBids (bidId w) (isBidStatus Bid.active)
      (fun d =>
         Bid.set_status Bid.won
           (Bid.set_updatedAt now
              (Bid.set_settlement
                 (Some (Bid.mkSettlement (Auction.currentRound auction) (giftSerial w)
                          clearingPrice (paid w) (refunded w) now)) d))) in
  if negb (bidRes =? 1)
  then throw (PlainError "Invariant violation: winner bid not active")
  else
    let* userRes :=
      updateOne colUsers (userId w) (hasReserved (amount w))
        (User.incBalance (refunded w) (- amount w) (paid w)) in
    if negb (userRes =? 1)
    then throw (PlainError "Invariant violation: insufficient reserved balance")
    else
      let* spendId := newObjectId in
      let spendDoc :=
        Ledger.mkDoc now (userId w) Ledger.spend (paid w) (Some auctionId)
          (Some (Ledger.MetaRound (Auction.currentRound auction) (giftSerial w))) in
      if refunded w >? 0 then
        let* refundId := newObjectId in
        insertOne colLedger spendId spendDoc ;;
        insertOne colLedger refundId
          (Ledger.mkDoc now (userId w) Ledger.refund (refunded w) (Some auctionId)
             (Some (Ledger.MetaRound (Auction.currentRound auction) (giftSerial w))))
      else insertOne colLedger spendId spendDoc.

(** The refund of one bid that is still active when the auction ends. *)
Definition refundLoser (auctionId : ObjectId) (now : Z) (b : ObjectId * Bid.Doc)
    : M unit :=
  let* bidRes :=
    updateOne colBids b.1 (isBidStatus Bid.active)
      (fun d => Bid.set_status Bid.lost (Bid.set_updatedAt now d)) in
  if negb (bidRes =? 1)
  then throw (PlainError "Invariant violation: active bid missing on refund")
  else
    let* userRes :=
      updateOne colUsers (Bid.userId b.2) (hasReserved (Bid.amount b.2))
        (User.incBalance (Bid.amount b.2) (- Bid.amount b.2) 0) in
    if negb (userRes =? 1)
    then throw (PlainError "Invariant violation: insufficient reserved on refund")
    else
      let* lid := newObjectId in
      insertOne colLedger lid
        (Ledger.mkDoc now (Bid.userId b.2) Ledger.unreserve (Bid.amount b.2)
           (Some auctionId) (Some (Ledger.MetaReason "auctionEnded"))).

(** The transaction body of [settleClosingAuction]. *)
Definition settleClosingAuctionTxn (auctionId closingToken : ObjectId) : M unit :=
  let* now := newDate in
  let* auction := findOne colAuctions auctionId (isClosingWith closingToken) in
  match auction with
  | None => ret tt
  | Some auction =>
      let remainingQty :=
        Z.max 0 (Auction.totalQuantity auction - Auction.awardedCount auction) in
      let winnersCount :=
        Z.min (Auction.winnersPerRound (Auction.config auction)) remainingQty in
      let* winnerBids := findWinnerBids auctionId winnersCount in
      let clearingPrice := clearingPriceOf winnerBids in
      let winners := winnersOf auction winnerBids in
      let* roundId := newObjectId in
      insertOne colRounds roundId
        (Round.mkDoc auctionId (Auction.currentRound auction) now clearingPrice
           (map (fun w => Round.mkWinner (userId w) (amount w) (giftSerial w)
                            (paid w) (refunded w))
                winners)) ;;
      forEach winners (settleWinner auctionId auction clearingPrice now) ;;
      let newAwardedCount := Auction.awardedCount auction + jsLength winners in
      let soldOut := newAwardedCount >=? Auction.totalQuantity auction in
      let forcedByDuration :=
        match Auction.endsAt auction with
        | Some e => now >=? e
        | None => false
        end in
      let emptyRound := (remainingQty >? 0) && (jsLength winnerBids =? 0) in
      let newConsecutiveEmptyRounds :=
        if emptyRound then Auction.consecutiveEmptyRounds auction + 1 else 0 in
      let forcedByEmptyRounds :=
        emptyRound
        && (Auction.maxConsecutiveEmptyRounds (Auction.config auction) >? 0)
        && (newConsecutiveEmptyRounds
            >=? Auction.maxConsecutiveEmptyRounds (Auction.config auction)) in
      let shouldEnd := soldOut || forcedByDuration || forcedByEmptyRounds in
      let endReason :=
        if soldOut then Auction.soldOut
        else if forcedByDuration then Auction.maxDuration
        else Auction.emptyRounds in
      if shouldEnd then
        let* active := find colBids (fun _ b => isActiveBidOf auctionId b) in
        forEach active (refundLoser auctionId now) ;;
        let* auRes :=
          updateOne colAuctions auctionId (isRunningWith closingToken)
            (fun a =>
               Auction.set_version (Auction.version a + 1)
                 (Auction.set_roundState None
                 (Auction.set_roundEndsAt None
                 (Auction.set_closingToken None
                 (Auction.set_closingStartedAt None
                 (Auction.set_state Auction.ended
                 (Auction.set_endedAt (Some now)
                 (Auction.set_endReason (Some endReason)
                 (Auction.set_awardedCount newAwardedCount
                 (Auction.set_consecutiveEmptyRounds newConsecutiveEmptyRounds
                 (Auction.set_revenue
                    (Auction.revenue auction + clearingPrice * jsLength winners)
                 (Auction.set_updatedAt now a)))))))))))) in
        if negb (auRes =? 1)
        then throw (PlainError "Invariant violation: auction not updated on end")
        else logInfo "auction ended"
      else
        let nextEndsAt := now + Auction.roundDurationMs (Auction.config auction) in
        let nextEndsAt :=
          match Auction.endsAt auction with
          | Some e => if e <? nextEndsAt then e else nextEndsAt
          | None => nextEndsAt
          end in
        let* auRes :=
          updateOne colAuctions auctionId (isRunningWith closingToken)
            (fun a =>
               Auction.set_version (Auction.version a + 1)
                 (Auction.set_closingToken None
                 (Auction.set_closingStartedAt None
                 (Auction.set_awardedCount newAwardedCount
                 (Auction.set_revenue
                    (Auction.revenue auction + clearingPrice * jsLength winners)
                 (Auction.set_currentRound (Auction.currentRound auction + 1)
                 (Auction.set_consecutiveEmptyRounds newConsecutiveEmptyRounds
                 (Auction.set_roundState (Some Auction.open)
                 (Auction.set_roundEndsAt (Some nextEndsAt)
                 (Auction.set_updatedAt now a)))))))))) in
        if negb (auRes =? 1)
        then throw (PlainError "Invariant violation: auction not updated for next round")
        else ret tt
  end.

Definition settleClosingAuction (auctionId closingToken : ObjectId) : M unit :=
  tryCatch (withTxn (settleClosingAuctionTxn auctionId closingToken) noOptions)
    (fun err =>
       if isDuplicateRoundSettlement err
       then logInfo "round already settled"
       else logError "settleClosingAuction failed").

(** The singleton of [engineLocks]; every document the engine writes has
    [expiresAt], so the [$exists: false] disjunct of the filter never
    holds.  An upsert whose filter rejects the existing singleton inserts
    under the taken [_id] and fails on it. *)
Definition tryAcquireEngineLock (ownerId : ObjectId) (ttlMs now : Z) : M bool :=
  let expiresAt := now + ttlMs in
  let newDoc := EngineLock.mkDoc ownerId expiresAt now in
  let setLock := fun d : Db =>
    mkDb (users d) (auctions d) (bids d) (rounds d) (ledger d)
         (<["auctionEngine" := newDoc]> (engineLocks d)) in
  tryCatch
    (let* locks := readDb engineLocks in
     let* doc :=
       match locks !! "auctionEngine" with
       | Some d =>
           if (EngineLock.ownerId d =? ownerId)%N || (EngineLock.expiresAt d <=? now)
           then writeDb setLock ;; ret (Some newDoc)
           else throw (duplicateKey "engineLocks" ["_id"])
       | None => writeDb setLock ;; ret (Some newDoc)
       end in
     ret (match doc with
          | Some d => (EngineLock.ownerId d =? ownerId)%N
          | None => false
          end))
    (fun err => if isDuplicateKeyError err then ret false else throw err).

(** The closure of [startAuctionEngine]. *)
Record EngineState := mkEngineState {
  engineOwnerId : ObjectId;
  pollIntervalMs : Z;
  leader : bool;
  stopped : bool;
  inFlight : bool
}.

Definition lockTtlMs (e : EngineState) : Z := Z.max 2000 (pollIntervalMs e * 10).

Definition isDue (threshold : Z) (a : Auction.Doc) : bool :=
  isState Auction.running a && isRoundState Auction.open a
  && (match Auction.roundEndsAt a with Some r => r <=? threshold | None => false end
      || match Auction.endsAt a with Some e => e <=? threshold | None => false end).

(** The compare-and-set of a due round into [closing]. *)
Definition lockDueRound (auctionId token : ObjectId) (threshold now : Z)
    : M (option Auction.Doc) :=
  findOneAndUpdate colAuctions auctionId (isDue threshold)
    (fun a =>
       Auction.set_version (Auction.version a + 1)
         (Auction.set_roundState (Some Auction.closing)
         (Auction.set_closingToken (Some token)
         (Auction.set_closingStartedAt (Some now)
         (Auction.set_updatedAt now a))))).

Definition tickBody (e : EngineState) : M bool :=
  let* now := newDate in
  let* isLeader := tryAcquireEngineLock (engineOwnerId e) (lockTtlMs e) now in
  if negb isLeader then
    (if leader e then logInfo "auctionEngine lost leadership" else ret tt) ;;
    ret false
  else
    (if negb (leader e) then logInfo "auctionEngine became leader" else ret tt) ;;
    let* found :=
      find colAuctions
        (fun _ a => isState Auction.running a && isRoundState Auction.closing a
                    && bool_decide (is_Some (Auction.closingToken a))) in
    let closing := limit 5 found in
    forEach closing (fun a =>
      match Auction.closingToken a.2 with
      | None => ret tt
      | Some token => settleClosingAuction a.1 token
      end) ;;
    let threshold := now - closeGraceMs in
    let* foundDue := find colAuctions (fun _ a => isDue threshold a) in
    let due := limit 5 foundDue in
    forEach due (fun a =>
      let* token := newObjectId in
      let* lock := lockDueRound a.1 token threshold now in
      match lock with
      | None => ret tt
      | Some _ => settleClosingAuction a.1 token
      end) ;;
    ret true.

Definition tick (e : EngineState) : M EngineState :=
  if stopped e || inFlight e then ret e
  else
    let* l :=
      tryCatch (tickBody e)
        (fun err => logError "auctionEngine tick failed" ;; ret (leader e)) in
    ret (mkEngineState (engineOwnerId e) (pollIntervalMs e) l (stopped e) false).

Definition startAuctionEngine (pollIntervalMs : Z) : M EngineState :=
  let* owner := newObjectId in
  tick (mkEngineState owner pollIntervalMs false false false).

Definition stop (e : EngineState) : EngineState :=
  mkEngineState (engineOwnerId e) (pollIntervalMs e) (leader e) true (inFlight e).

End Engine.

(** ** The service as a whole *)

Module System.

Import Auctions Engine.

(** One call into the service, or the passing of time. *)
Inductive Op :=
| OpSetClock (t : Z)
| OpCreateUser
| OpTopupUser (userId : ObjectId) (amount : Z)
| OpCreateAuction (input : CreateAuctionInput)
| OpStartAuction (auctionId : ObjectId)
| OpCancelAuction (auctionId : ObjectId)
| OpPlaceBid (auctionId userId : ObjectId) (newAmount : Z)
| OpWithdrawBid (auctionId userId : ObjectId)
| OpLockDueRound (auctionId : ObjectId)
| OpSettle (auctionId closingToken : ObjectId)
| OpTick (e : EngineState).

Definition setClock (t : Z) : M unit :=
  fun w => (Ok tt, mkWorld (db w) (oidGen w) t (logs w)).

(** The first half of a tick's work on a due auction, on its own: what
    is left when the engine stops between the lock and the settlement. *)
Definition lockDue (auctionId : ObjectId) : M (option Auction.Doc) :=
  let* now := newDate in
  let* token := newObjectId in
  lockDueRound auctionId token (now - closeGraceMs) now.

Definition exec {A} (m : M A) (w : World) : World := (m w).2.

Definition applyOp (op : Op) (w : World) : World :=
  match op with
  | OpSetClock t => exec (setClock t) w
  | OpCreateUser => exec Users.createUser w
  | OpTopupUser userId amount => exec (Users.topupUser userId amount) w
  | OpCreateAuction input => exec (createAuction input) w
  | OpStartAuction auctionId => exec (startAuction auctionId) w
  | OpCancelAuction auctionId => exec (cancelAuction auctionId) w
  | OpPlaceBid auctionId userId newAmount => exec (placeBid auctionId userId newAmount) w
  | OpWithdrawBid auctionId userId => exec (withdrawBid auctionId userId) w
  | OpLockDueRound auctionId => exec (lockDue auctionId) w
  | OpSettle auctionId closingToken => exec (settleClosingAuction auctionId closingToken) w
  | OpTick e => exec (tick e) w
  end.

Definition run (ops : list Op) (w : World) : World :=
  fold_left (fun w op => applyOp op w) ops w.

End System.

(** ** Invariants of the store *)

Module Invariants.

(** P1 for one user. *)
Definition userOk (u : User.Doc) : Prop :=
  User.totalTopups u
  = User.available (User.balance u) + User.reserved (User.balance u)
    + User.spent (User.balance u)
  /\ 0 <= User.available (User.balance u)
  /\ 0 <= User.reserved (User.balance u)
  /\ 0 <= User.spent (User.balance u).

Definition usersOk (us : gmap ObjectId User.Doc) : Prop :=
  forall id u, us !! id = Some u -> userOk u.

Definition bidsPositive (bs : gmap ObjectId Bid.Doc) : Prop :=
  forall id b, bs !! id = Some b -> 0 < Bid.amount b.

(** The unique index on [(auctionId, userId)] holds. *)
Definition bidsUnique (bs : gmap ObjectId Bid.Doc) : Prop :=
  forall i j b1 b2,
    bs !! i = Some b1 -> bs !! j = Some b2 ->
    Bid.auctionId b1 = Bid.auctionId b2 -> Bid.userId b1 = Bid.userId b2 -> i = j.

(** Every bid belongs to an auction of the store. *)
Definition bidsRefer (bs : gmap ObjectId Bid.Doc) (aus : gmap ObjectId Auction.Doc)
    : Prop :=
  forall i b, bs !! i = Some b -> is_Some (aus !! Bid.auctionId b).

(** The gift serials of the won bids of auction [aid] are exactly
    [1..n], each held by one bid. *)
Definition serialsExactly (bs : gmap ObjectId Bid.Doc) (aid : ObjectId) (n : Z)
    : Prop :=
  (forall i b, bs !! i = Some b -> Bid.auctionId b = aid -> Bid.status b = Bid.won ->
               exists k, wonSerial b = Some k /\ 1 <= k <= n)
  /\ (forall i j b1 b2 k,
        bs !! i = Some b1 -> bs !! j = Some b2 ->
        Bid.auctionId b1 = aid -> Bid.auctionId b2 = aid ->
        wonSerial b1 = Some k -> wonSerial b2 = Some k -> i = j)
  /\ (forall k, 1 <= k <= n ->
                exists i b, bs !! i = Some b /\ Bid.auctionId b = aid
                            /\ wonSerial b = Some k).

Definition giftSerials (bs : gmap ObjectId Bid.Doc) (aus : gmap ObjectId Auction.Doc)
    : Prop :=
  forall aid a, aus !! aid = Some a ->
                0 <= Auction.awardedCount a
                /\ serialsExactly bs aid (Auction.awardedCount a).

(** [roundEndsAt] does not pass the deadline of the auction. *)
Definition clampOk (a : Auction.Doc) : Prop :=
  forall e r, Auction.endsAt a = Some e -> Auction.roundEndsAt a = Some r -> r <= e.

Definition deadlineClamp (aus : gmap ObjectId Auction.Doc) : Prop :=
  forall aid a, aus !! aid = Some a -> clampOk a.

Definition Inv (d : Db) : Prop :=
  usersOk (users d)
  /\ bidsPositive (bids d)
  /\ bidsUnique (bids d)
  /\ bidsRefer (bids d) (auctions d)
  /\ giftSerials (bids d) (auctions d)
  /\ deadlineClamp (auctions d).

(** The state inside a settlement of auction [aid] that began in [d0]:
    the auction documents are those of [d0], no bid has changed auction,
    user or amount, and the won bids of [aid] hold the serials [1..n]
    while [awardedCount] still waits for the final write. *)
Definition settling (d0 : Db) (aid : ObjectId) (n : Z) (d : Db) : Prop :=
  usersOk (users d)
  /\ bidsPositive (bids d)
  /\ bidsUnique (bids d)
  /\ bidsRefer (bids d) (auctions d)
  /\ deadlineClamp (auctions d)
  /\ auctions d = auctions d0
  /\ (forall i b, bids d !! i = Some b ->
                  exists b0, bids d0 !! i = Some b0
                             /\ Bid.auctionId b0 = Bid.auctionId b
                             /\ Bid.userId b0 = Bid.userId b
                             /\ Bid.amount b0 = Bid.amount b)
  /\ (forall aid' a', auctions d !! aid' = Some a' -> aid' <> aid ->
                      0 <= Auction.awardedCount a'
                      /\ serialsExactly (bids d) aid' (Auction.awardedCount a'))
  /\ 0 <= n
  /\ serialsExactly (bids d) aid n.

(** Every won bid of [d] is still there, untouched, in [d']. *)
Definition wonKept (d d' : Db) : Prop :=
  forall i b, bids d !! i = Some b -> Bid.status b = Bid.won -> bids d' !! i = Some b.

(** A computation keeps the invariants, however it ends. *)
Definition keepsInv {A} (m : M A) : Prop :=
  forall w r w', Inv (db w) -> m w = (r, w') -> Inv (db w').

(** The world with another database. *)
Definition setDb (d : Db) (w : World) : World :=
  mkWorld d (oidGen w) (clock w) (logs w).

End Invariants.

(** ** Property P8 of the specification, as it is worded *)

Module Spec.

Import Auctions System.

(** "placeBid is monotone per user per auction: successive successful
    calls strictly increase amount", whatever the service does between
    the two calls. *)
Definition placeBidMonotone : Prop :=
  forall (before between : list Op) (auctionId userId : ObjectId) (m1 m2 : Z)
         (r1 r2 : Auction.Doc * (ObjectId * Bid.Doc)) (w1 w2 : World),
    placeBid auctionId userId m1 (run before initialWorld) = (Ok r1, w1) ->
    placeBid auctionId userId m2 (run between w1) = (Ok r2, w2) ->
    m1 < m2.

End Spec.

(** ** Sample runs of the service *)

Module Samples.

Import Auctions Engine System.

(** Two gifts, two winners a round, the default anti-snipe settings. *)
Definition demoInput : CreateAuctionInput :=
  mkCreateAuctionInput "demo" 2
    (mkPartialConfig (Some 5000) (Some 2) None None None None None).

(** One gift, no anti-snipe window, a deadline after one minute. *)
Definition quietInput : CreateAuctionInput :=
  mkCreateAuctionInput "quiet" 1
    (mkPartialConfig (Some 5000) (Some 1) (Some 0) None None (Some 60000) None).

(** Three users with 1000 each; auction 6 is started and has the bids
    100, 90 and 80 of users 0, 1 and 2. *)
Definition opsOpen : list Op :=
  [OpCreateUser; OpCreateUser; OpCreateUser;
   OpTopupUser 0%N 1000; OpTopupUser 1%N 1000; OpTopupUser 2%N 1000;
   OpCreateAuction demoInput; OpStartAuction 6%N;
   OpPlaceBid 6%N 0%N 100; OpPlaceBid 6%N 1%N 90; OpPlaceBid 6%N 2%N 80].

Definition openWorld : World := run opsOpen initialWorld.

(** Twenty seconds later the engine has locked the round of auction 6
    with the closing token 13 and has stopped there. *)
Definition opsClosing : list Op := opsOpen ++ [OpSetClock 20000; OpLockDueRound 6%N].

Definition closingWorld : World := run opsClosing initialWorld.

Definition opsSettled : list Op := opsClosing ++ [OpSettle 6%N 13%N].

Definition settledWorld : World := run opsSettled initialWorld.

(** One user with 1000 and the started auction 2 without anti-snipe. *)
Definition opsQuiet : list Op :=
  [OpCreateUser; OpTopupUser 0%N 1000; OpCreateAuction quietInput; OpStartAuction 2%N;
   OpSetClock 4000].

Definition quietWorld : World := run opsQuiet initialWorld.

(** [closingWorld] in which another engine has already written the Round
    document of round 1 of auction 6. *)
Definition racedWorld : World :=
  mkWorld
    (setCol colRounds
       (<[99%N := Round.mkDoc 6%N 1 20000 90
                    [Round.mkWinner 0%N 100 1 90 10; Round.mkWinner 1%N 90 2 90 0]]>
          (rounds (db closingWorld)))
       (db closingWorld))
    (oidGen closingWorld) (clock closingWorld) (logs closingWorld).

End Samples.

(** ** services/audit.ts *)

Module Audit.

Import Auctions.



Record UserAgg := mkUserAgg {
  agg_users : Z;
  agg_topups : Z;
  agg_available : Z;
  agg_reserved : Z;
  agg_spent : Z
}.

Record ActiveAgg := mkActiveAgg {
  agg_count : Z;
  agg_sumAmount : Z
}.













Module AuctionAudit.
Record BidCounts := mkBidCounts {
  won : Z;
  active : Z;
  lost : Z;
  withdrawn : Z
}.

Record LedgerSums := mkLedgerSums {
  spendSum : Z;
  refundSum : Z;
  reserveSum : Z;
  unreserveSum : Z
}.

(** [{ ...ledgerSums, expectedReserved }]. *)
Record LedgerReport := mkLedgerReport {
  sums : LedgerSums;
  expectedReserved : Z
}.

Record WonAgg := mkWonAgg {
  agg_won : Z;
  agg_sumPaid : Z;
  agg_sumRefunded : Z;
  agg_minSerial : option Z;
  agg_maxSerial : option Z
}.

Record Checks := mkChecks {
  revenueMatchesSpendLedgerOk : bool;
  awardedMatchesWonBidsOk : bool;
  giftSerialUniqueOk : bool;
  giftSerialRangeOk : bool;
  paidMatchesSpendLedgerOk : bool;
  refundMatchesRefundLedgerOk : bool;
  noActiveBidsWhenDoneOk : bool;
  ledgerFlowMatchesActiveBidsOk : bool
}.

Record DuplicateSerial := mkDuplicateSerial {
  giftSerial : option Z;
  count : Z
}.

Record Doc := mkDoc {
  auctionId : ObjectId;
  state : Auction.State;
  awardedCount : Z;
  totalQuantity : Z;
  revenue : Z;
  bids : BidCounts;
  activeBidsSum : Z;
  ledger : LedgerReport;
  checks : Checks;
  duplicateGiftSerials : list DuplicateSerial
}.
End AuctionAudit.




End Audit.

(** ** What every run keeps *)

Module Runs.

(** No document of the five collections has an [_id] the generator has
    still to hand out. *)
Definition Fresh (w : World) : Prop :=
  (forall id, is_Some (users (db w) !! id) -> (id < oidGen w)%N)
  /\ (forall id, is_Some (auctions (db w) !! id) -> (id < oidGen w)%N)
  /\ (forall id, is_Some (bids (db w) !! id) -> (id < oidGen w)%N)
  /\ (forall id, is_Some (rounds (db w) !! id) -> (id < oidGen w)%N)
  /\ (forall id, is_Some (ledger (db w) !! id) -> (id < oidGen w)%N).

(** A computation that, started with the generator at [b] or later, only
    inserts under identifiers below [b] or drawn on its way. *)
Definition freshly {A} (b : ObjectId) (m : M A) : Prop :=
  forall w r w', Fresh w -> (b <= oidGen w)%N -> m w = (r, w') ->
                 Fresh w' /\ (oidGen w <= oidGen w')%N.

(** A collection whose identifiers [Fresh] counts. *)
Definition Counted {D} (col : Collection D) : Prop :=
  (forall w id d, Fresh w -> (id < oidGen w)%N ->
                  Fresh (mkWorld (setCol col (<[id := d]> (getCol col (db w))) (db w))
                           (oidGen w) (clock w) (logs w)))
  /\ (forall w id, Fresh w -> is_Some (getCol col (db w) !! id) -> (id < oidGen w)%N).

(** A relation between the world before and after that holds across
    rolled-back attempts: a preorder that ignores clock and log and lets
    the generator advance. *)
Record Lasting (R : World -> World -> Prop) : Prop := mkLasting {
  lasting_refl : forall w, R w w;
  lasting_trans : forall w1 w2 w3, R w1 w2 -> R w2 w3 -> R w1 w3;
  lasting_meta : forall w g c l, (oidGen w <= g)%N -> R w (mkWorld (db w) g c l);
  lasting_locks : forall w locks,
      R w (mkWorld (mkDb (users (db w)) (auctions (db w)) (bids (db w)) (rounds (db w))
                         (ledger (db w)) locks)
             (oidGen w) (clock w) (logs w))
}.

Definition respects {A} (R : World -> World -> Prop) (m : M A) : Prop :=
  forall w r w', m w = (r, w') -> R w w' /\ (oidGen w <= oidGen w')%N.

(** A computation that keeps a property of the database, whether it
    returns or throws. *)
Definition keeping {A} (J : Db -> Prop) (m : M A) : Prop :=
  forall w r w', J (db w) -> m w = (r, w') -> J (db w').

(** The ledger and the rounds only grow: what is written stays as
    written. *)
Definition appendOnly (w w' : World) : Prop :=
  ledger (db w) ⊆ ledger (db w') /\ rounds (db w) ⊆ rounds (db w').

(** What an auction document keeps for life, and the states it cannot
    leave. *)
Definition sameAuction (a a' : Auction.Doc) : Prop :=
  Auction.createdAt a' = Auction.createdAt a
  /\ Auction.title a' = Auction.title a
  /\ Auction.totalQuantity a' = Auction.totalQuantity a
  /\ Auction.config a' = Auction.config a
  /\ Auction.version a <= Auction.version a'
  /\ (Auction.state a <> Auction.draft ->
      Auction.state a' <> Auction.draft
      /\ Auction.startedAt a' = Auction.startedAt a
      /\ Auction.endsAt a' = Auction.endsAt a)
  /\ (Auction.state a = Auction.ended \/ Auction.state a = Auction.cancelled ->
      Auction.state a' = Auction.state a
      /\ Auction.endedAt a' = Auction.endedAt a
      /\ Auction.endReason a' = Auction.endReason a
      /\ Auction.awardedCount a' = Auction.awardedCount a
      /\ Auction.revenue a' = Auction.revenue a
      /\ Auction.currentRound a' = Auction.currentRound a
      /\ Auction.roundState a' = Auction.roundState a
      /\ Auction.roundEndsAt a' = Auction.roundEndsAt a
      /\ Auction.closingToken a' = Auction.closingToken a).

(** What a bid keeps for life; a bid that has won or lost is final. *)
Definition sameBid (b b' : Bid.Doc) : Prop :=
  Bid.auctionId b' = Bid.auctionId b
  /\ Bid.userId b' = Bid.userId b
  /\ Bid.createdAt b' = Bid.createdAt b
  /\ (Bid.status b = Bid.won \/ Bid.status b = Bid.lost -> b' = b).

Definition bidsLast (w w' : World) : Prop :=
  forall id b, bids (db w) !! id = Some b ->
               exists b', bids (db w') !! id = Some b' /\ sameBid b b'.

(** A user stays, with the day of creation; the top-ups only add up. *)
Definition sameUser (u u' : User.Doc) : Prop :=
  User.createdAt u' = User.createdAt u
  /\ User.totalTopups u <= User.totalTopups u'.

Definition usersLast (w w' : World) : Prop :=
  forall id u, users (db w) !! id = Some u ->
               exists u', users (db w') !! id = Some u' /\ sameUser u u'.

Definition auctionsLast (w w' : World) : Prop :=
  forall id a, auctions (db w) !! id = Some a ->
               exists a', auctions (db w') !! id = Some a' /\ sameAuction a a'.

(** The bounds [createAuction] clamps a configuration into, for an
    auction of [totalQuantity] gifts. *)
Definition configWithin (totalQuantity : Z) (c : Auction.Config) : Prop :=
  5000 <= Auction.roundDurationMs c <= 3600000
  /\ 1 <= Auction.winnersPerRound c <= totalQuantity
  /\ 0 <= Auction.antiSnipeWindowMs c <= 60000
  /\ 0 <= Auction.antiSnipeExtendMs c <= 60000
  /\ Auction.maxWinsPerUser c = 1
  /\ 0 <= Auction.maxDurationMs c <= 604800000
  /\ 0 <= Auction.maxConsecutiveEmptyRounds c <= 10000.

(** The deadline the auction was started with. *)
Definition deadlineOf (a : Auction.Doc) : option Z :=
  match Auction.startedAt a with
  | Some s =>
      if 0 <? Auction.maxDurationMs (Auction.config a)
      then Some (s + Auction.maxDurationMs (Auction.config a))
      else None
  | None => None
  end.

(** The fields of an auction document fit its state. *)
Definition auctionOk (a : Auction.Doc) : Prop :=
  0 < Auction.totalQuantity a
  /\ configWithin (Auction.totalQuantity a) (Auction.config a)
  /\ 0 <= Auction.awardedCount a <= Auction.totalQuantity a
  /\ 0 <= Auction.consecutiveEmptyRounds a
  /\ Auction.endsAt a = deadlineOf a
  /\ match Auction.state a with
     | Auction.draft =>
         Auction.startedAt a = None /\ Auction.endedAt a = None
         /\ Auction.endReason a = None
         /\ Auction.awardedCount a = 0 /\ Auction.revenue a = 0
         /\ Auction.currentRound a = 0
         /\ Auction.roundState a = None /\ Auction.roundEndsAt a = None
         /\ Auction.closingToken a = None /\ Auction.closingStartedAt a = None
         /\ Auction.version a = 0
     | Auction.running =>
         is_Some (Auction.startedAt a) /\ Auction.endedAt a = None
         /\ Auction.endReason a = None
         /\ Auction.awardedCount a < Auction.totalQuantity a
         /\ 1 <= Auction.currentRound a
         /\ is_Some (Auction.roundEndsAt a)
         /\ ((Auction.roundState a = Some Auction.open
              /\ Auction.closingToken a = None /\ Auction.closingStartedAt a = None)
             \/ (Auction.roundState a = Some Auction.closing
                 /\ is_Some (Auction.closingToken a)
                 /\ is_Some (Auction.closingStartedAt a)))
     | Auction.ended =>
         is_Some (Auction.startedAt a) /\ is_Some (Auction.endedAt a)
         /\ 1 <= Auction.currentRound a
         /\ Auction.roundState a = None /\ Auction.roundEndsAt a = None
         /\ Auction.closingToken a = None /\ Auction.closingStartedAt a = None
         /\ ((Auction.endReason a = Some Auction.soldOut
              /\ Auction.awardedCount a = Auction.totalQuantity a)
             \/ ((Auction.endReason a = Some Auction.maxDuration
                  \/ Auction.endReason a = Some Auction.emptyRounds)
                 /\ Auction.awardedCount a < Auction.totalQuantity a))
     | Auction.cancelled =>
         is_Some (Auction.endedAt a)
         /\ Auction.endReason a = Some Auction.cancelledByAdmin
         /\ Auction.awardedCount a < Auction.totalQuantity a
         /\ 0 <= Auction.currentRound a
         /\ Auction.roundState a = None /\ Auction.roundEndsAt a = None
         /\ Auction.closingToken a = None /\ Auction.closingStartedAt a = None
     end.

(** The rounds an auction has settled: all up to the current one once it
    has ended, all before the current one otherwise. *)
Definition settledRounds (a : Auction.Doc) : Z :=
  match Auction.state a with
  | Auction.ended => Auction.currentRound a
  | _ => Z.max 0 (Auction.currentRound a - 1)
  end.

(** What a Round document says of its winners: no more of them than a
    round awards, each paid the clearing price and got the rest of the
    bid back. *)
Definition roundOk (a : Auction.Doc) (r : Round.Doc) : Prop :=
  Z.of_nat (length (Round.winners r)) <= Auction.winnersPerRound (Auction.config a)
  /\ 0 <= Round.clearingPrice r
  /\ forall x, x ∈ Round.winners r ->
       Round.paid x = Round.clearingPrice r
       /\ Round.refunded x = Round.amount x - Round.clearingPrice r
       /\ 0 < Round.paid x /\ 0 <= Round.refunded x.

(** The Round documents are those of the settled rounds: one for each,
    and no other. *)
Definition roundsOk (rs : gmap ObjectId Round.Doc) (aus : gmap ObjectId Auction.Doc)
    : Prop :=
  (forall rid r, rs !! rid = Some r ->
     exists a, aus !! Round.auctionId r = Some a
               /\ 1 <= Round.roundNumber r <= settledRounds a
               /\ roundOk a r)
  /\ (forall i j r1 r2, rs !! i = Some r1 -> rs !! j = Some r2 ->
        Round.auctionId r1 = Round.auctionId r2 ->
        Round.roundNumber r1 = Round.roundNumber r2 -> i = j)
  /\ (forall aid a k, aus !! aid = Some a -> 1 <= k <= settledRounds a ->
        exists rid r, rs !! rid = Some r /\ Round.auctionId r = aid
                      /\ Round.roundNumber r = k).

Definition Shape (d : Db) : Prop :=
  (forall id a, auctions d !! id = Some a -> auctionOk a)
  /\ roundsOk (rounds d) (auctions d).

(** [$sum] over the documents of a collection. *)
Definition sumZ (l : list Z) : Z := foldr Z.add 0 l.

Definition sumOver {D} (f : ObjectId -> D -> Z) (m : gmap ObjectId D) : Z :=
  sumZ ((fun kd => f kd.1 kd.2) <$> map_to_list m).

(** What an active bid holds of its bidder's balance, weighted by
    bidder. *)
Definition activeAmount (weight : ObjectId -> Z) (b : Bid.Doc) : Z :=
  if bool_decide (Bid.status b = Bid.active) then weight (Bid.userId b) * Bid.amount b
  else 0.

(** The reserved balances are the active bids: summed with any weight on
    the users, the two agree. *)
Definition Reserved (weight : ObjectId -> Z) (d : Db) : Prop :=
  sumOver (fun id u => weight id * User.reserved (User.balance u)) (users d)
  = sumOver (fun _ b => activeAmount weight b) (bids d).


(** A bid fits the auction it is in: there is no bid in a draft, an
    active bid is in a running auction, a lost bid in an ended one, and
    exactly the bids that won carry a settlement, which is of a settled
    round, charges the clearing price and returns the rest. *)
Definition bidOk (a : Auction.Doc) (b : Bid.Doc) : Prop :=
  Auction.state a <> Auction.draft
  /\ (Bid.status b = Bid.active -> Auction.state a = Auction.running)
  /\ (Bid.status b = Bid.lost -> Auction.state a = Auction.ended)
  /\ match Bid.status b with
     | Bid.won =>
         exists s, Bid.settlement b = Some s
                   /\ 1 <= Bid.wonRound s <= settledRounds a
                   /\ Bid.paid s = Bid.clearingPrice s
                   /\ Bid.refunded s = Bid.amount b - Bid.paid s
                   /\ 0 < Bid.paid s <= Bid.amount b
     | _ => Bid.settlement b = None
     end.

Definition bidsOk (d : Db) : Prop :=
  forall i b, bids d !! i = Some b ->
    exists a, auctions d !! Bid.auctionId b = Some a /\ bidOk a b.

(** What a loop over active bids has done to the bids so far: a bid is
    as it was in [bs0], or it was active and is now what [after] says. *)
Definition bidsStep (after : Bid.Doc -> Bid.Doc -> Prop)
    (bs0 bs : gmap ObjectId Bid.Doc) : Prop :=
  forall i b, bs !! i = Some b ->
    exists b0, bs0 !! i = Some b0
               /\ (b = b0 \/ (Bid.status b0 = Bid.active
                              /\ Bid.auctionId b = Bid.auctionId b0
                              /\ Bid.amount b = Bid.amount b0
                              /\ after b0 b)).

(** The three ends of an active bid. *)
Definition nowWithdrawn (aid : ObjectId) (b0 b : Bid.Doc) : Prop :=
  Bid.status b = Bid.withdrawn /\ Bid.auctionId b0 = aid
  /\ Bid.settlement b = Bid.settlement b0.

Definition nowLost (aid : ObjectId) (b0 b : Bid.Doc) : Prop :=
  Bid.status b = Bid.lost /\ Bid.auctionId b0 = aid
  /\ Bid.settlement b = Bid.settlement b0.

Definition nowWon (aid : ObjectId) (round cp : Z) (b0 b : Bid.Doc) : Prop :=
  Bid.status b = Bid.won /\ Bid.auctionId b0 = aid
  /\ exists s, Bid.settlement b = Some s /\ Bid.wonRound s = round
               /\ Bid.clearingPrice s = cp /\ Bid.paid s = cp
               /\ Bid.refunded s = Bid.amount b0 - cp
               /\ 0 < cp <= Bid.amount b0.


End Runs.

(** ** The ledger of an auction *)

Module Ledgers.

Import Runs.


(** The amount of an entry of type [ty]. *)
Definition ledgerAmount (ty : Ledger.Type_) (e : Ledger.Doc) : Z :=
  if bool_decide (Ledger.type e = ty) then Ledger.amount e else 0.











End Ledgers.

(** * Proofs *)

Import Invariants.

(** * Sorting *)

Section SortFacts.
Context {A : Type} (cmp : A -> A -> Z).

Lemma insertBy_perm (x : A) (l : list A) : insertBy cmp x l ≡ₚ x :: l.
Proof.
  induction l as [|y r IH]; simpl; [done|].
  destruct (cmp x y <=? 0); [done|].
  rewrite IH. apply perm_swap.
Qed.

Lemma sortBy_perm (l : list A) : sortBy cmp l ≡ₚ l.
Proof.
  induction l as [|x r IH]; simpl; [done|].
  by rewrite insertBy_perm, IH.
Qed.

Lemma sortBy_length (l : list A) : length (sortBy cmp l) = length l.
Proof. apply Permutation_length, sortBy_perm. Qed.

Lemma sortBy_elem_of (x : A) (l : list A) : x ∈ sortBy cmp l <-> x ∈ l.
Proof. by rewrite sortBy_perm. Qed.

Hypothesis cmp_total : forall x y, cmp x y <= 0 \/ cmp y x <= 0.
Hypothesis cmp_trans : forall x y z, cmp x y <= 0 -> cmp y z <= 0 -> cmp x z <= 0.

Lemma insertBy_sorted (x : A) (l : list A) :
  StronglySorted (cmpLe cmp) l -> StronglySorted (cmpLe cmp) (insertBy cmp x l).
Proof.
  induction 1 as [|y r Hr IH Hy]; simpl.
  - constructor; [constructor | constructor].
  - destruct (Z.leb_spec (cmp x y) 0) as [Hxy|Hxy].
    + constructor; [by constructor|].
      constructor; [exact Hxy|].
      eapply Forall_impl; [exact Hy|]. intros z Hz. by eapply cmp_trans.
    + constructor; [exact IH|].
      assert (Hyx : cmpLe cmp y x) by (destruct (cmp_total x y); [lia | done]).
      rewrite (Forall_forall (cmpLe cmp y)). intros z Hz.
      rewrite insertBy_perm in Hz.
      apply elem_of_cons in Hz as [->|Hz]; [done|].
      rewrite Forall_forall in Hy. by apply Hy.
Qed.

Lemma sortBy_sorted (l : list A) : StronglySorted (cmpLe cmp) (sortBy cmp l).
Proof.
  induction l as [|x r IH]; simpl; [constructor|].
  by apply insertBy_sorted.
Qed.

(** A sorted list is determined by its elements when no two distinct
    elements tie. *)
Lemma sorted_perm_eq (l1 l2 : list A) :
  (forall x y, x ∈ l1 -> y ∈ l1 -> cmp x y <= 0 -> cmp y x <= 0 -> x = y) ->
  StronglySorted (cmpLe cmp) l1 -> StronglySorted (cmpLe cmp) l2 -> l1 ≡ₚ l2 -> l1 = l2.
Proof.
  revert l2. induction l1 as [|x r IH]; intros l2 Hanti S1 S2 HP.
  - by apply Permutation_nil in HP.
  - destruct l2 as [|y r2]; [by apply Permutation_sym, Permutation_nil in HP|].
    apply StronglySorted_inv in S1 as [S1 Hx].
    apply StronglySorted_inv in S2 as [S2 Hy].
    rewrite Forall_forall in Hx, Hy.
    assert (x = y) as ->.
    { assert (Hyin : y ∈ x :: r) by (rewrite HP; left).
      assert (Hxin : x ∈ y :: r2) by (rewrite <- HP; left).
      apply elem_of_cons in Hyin as [->|Hyin]; [done|].
      apply elem_of_cons in Hxin as [->|Hxin]; [done|].
      apply Hanti; [left | by right | |].
      - by apply Hx.
      - by apply Hy. }
    f_equal. apply IH; [| done | done | by apply Permutation_cons_inv in HP].
    intros a b Ha Hb. apply Hanti; by right.
Qed.

Lemma sorted_take (n : nat) (l : list A) :
  StronglySorted (cmpLe cmp) l -> StronglySorted (cmpLe cmp) (take n l).
Proof.
  intros H. revert n. induction H as [|x r Hr IH Hx]; intros [|n]; simpl;
    try constructor; [apply IH|].
  eapply Forall_forall. intros z Hz. rewrite Forall_forall in Hx. apply Hx.
  by eapply subseteq_take.
Qed.

(** Every element of a sorted list ranks no later than its last one. *)
Lemma sorted_last (l : list A) (x z : A) :
  (forall a, cmp a a <= 0) ->
  StronglySorted (cmpLe cmp) l -> x ∈ l -> last l = Some z -> cmpLe cmp x z.
Proof.
  intros Hrefl H. induction H as [|y r Hr IH Hy]; intros Hx Hl.
  - by apply not_elem_of_nil in Hx.
  - destruct r as [|y' r'].
    + simpl in Hl. apply list_elem_of_singleton in Hx. simplify_eq. apply Hrefl.
    + rewrite last_cons_cons in Hl.
      apply elem_of_cons in Hx as [->|Hx]; [|by apply IH].
      rewrite Forall_forall in Hy. apply Hy.
      by eapply last_Some_elem_of.
Qed.
End SortFacts.
Lemma string_compare_lt_trans (a b c : string) :
  String.compare a b = Lt -> String.compare b c = Lt -> String.compare a c = Lt.
Proof.
  revert b c. induction a as [|x a IH]; intros [|y b] [|z c]; simpl; try done.
  unfold Ascii.compare.
  destruct (N.compare_spec (Ascii.N_of_ascii x) (Ascii.N_of_ascii y)) as [Hxy|Hxy|Hxy];
    destruct (N.compare_spec (Ascii.N_of_ascii y) (Ascii.N_of_ascii z)) as [Hyz|Hyz|Hyz];
    destruct (N.compare_spec (Ascii.N_of_ascii x) (Ascii.N_of_ascii z)) as [Hxz|Hxz|Hxz];
    try done; try lia.
  apply IH.
Qed.

Lemma string_ltb_irrefl (a : string) : String.ltb a a = false.
Proof.
  unfold String.ltb. destruct (String.compare a a) eqn:E; try done.
  pose proof (String.compare_antisym a a) as H. rewrite E in H. done.
Qed.

(** * Ranking *)

Section RankingFacts.
Context {T : Type} `{Ranking.RankableBid T}.
Import Ranking.

Lemma compare_le_iff (a b : T) : compareRankableBids a b <= 0 <-> ranksNoLater a b.
Proof.
  unfold compareRankableBids, ranksNoLater, String.ltb, String.leb.
  rewrite (String.compare_antisym (userId b) (userId a)).
  destruct (Z.eqb_spec (amount a) (amount b)) as [Ea|Ea]; simpl; [|lia].
  destruct (Z.eqb_spec (lastBidAt a) (lastBidAt b)) as [Et|Et]; simpl; [|lia].
  destruct (String.compare (userId a) (userId b)); simpl; split; intros Hx; try lia;
    try (right; split; [done|]; right; done);
    try (destruct Hx as [?|[_ [?|[_ ?]]]]; try lia; done).
Qed.

Lemma ranksNoLater_total (a b : T) : ranksNoLater a b \/ ranksNoLater b a.
Proof.
  unfold ranksNoLater.
  destruct (Z.lt_total (amount a) (amount b)) as [?|[?|?]]; [tauto| |tauto].
  destruct (Z.lt_total (lastBidAt a) (lastBidAt b)) as [?|[?|?]]; [tauto| |right; right; split; [lia|tauto]].
  destruct (String.leb_total (userId a) (userId b)); [left|right]; right;
    (split; [lia|]); right; (split; [lia|done]).
Qed.

Lemma string_leb_trans (a b c : string) :
  String.leb a b = true -> String.leb b c = true -> String.leb a c = true.
Proof.
  unfold String.leb.
  destruct (String.compare a b) eqn:Eab; try done;
    destruct (String.compare b c) eqn:Ebc; try done; intros _ _.
  - apply String.compare_eq_iff in Eab, Ebc. subst.
    destruct (String.compare c c) eqn:E; try done.
    pose proof (String.compare_antisym c c) as Hc. rewrite E in Hc. done.
  - apply String.compare_eq_iff in Eab. subst. by rewrite Ebc.
  - apply String.compare_eq_iff in Ebc. subst. by rewrite Eab.
  - by rewrite (string_compare_lt_trans a b c).
Qed.

Lemma ranksNoLater_trans (a b c : T) :
  ranksNoLater a b -> ranksNoLater b c -> ranksNoLater a c.
Proof.
  unfold ranksNoLater.
  intros [?|[? [?|[? Hab]]]] [?|[? [?|[? Hbc]]]]; try (left; lia);
    try (right; split; [lia|]; left; lia).
  right; split; [lia|]. right; split; [lia|]. by eapply string_leb_trans.
Qed.

Lemma ranksNoLater_refl (a : T) : ranksNoLater a a.
Proof. destruct (ranksNoLater_total a a); done. Qed.

Lemma compare_total (a b : T) :
  compareRankableBids a b <= 0 \/ compareRankableBids b a <= 0.
Proof. rewrite !compare_le_iff. apply ranksNoLater_total. Qed.

Lemma compare_trans (a b c : T) :
  compareRankableBids a b <= 0 -> compareRankableBids b c <= 0 ->
  compareRankableBids a c <= 0.
Proof. rewrite !compare_le_iff. apply ranksNoLater_trans. Qed.

(** Two bids tie only when they agree on all three fields. *)
Lemma ranksNoLater_antisym (a b : T) :
  ranksNoLater a b -> ranksNoLater b a ->
  amount a = amount b /\ lastBidAt a = lastBidAt b /\ userId a = userId b.
Proof.
  unfold ranksNoLater.
  intros [?|[? [?|[? Hab]]]] [?|[? [?|[? Hba]]]]; try lia.
  repeat split; try done. by apply String.leb_antisym.
Qed.

Lemma sorted_ranks (l : list T) :
  StronglySorted (cmpLe compareRankableBids) l <-> StronglySorted ranksNoLater l.
Proof.
  split; induction 1; constructor; try done;
    (eapply Forall_impl; [eassumption|]); intros z; unfold cmpLe; apply compare_le_iff.
Qed.

Lemma slice_from_zero {X} (n : Z) (l : list X) :
  0 < n -> slice 0 n l = take (Z.to_nat n) l.
Proof.
  intros Hn. unfold slice, relIndex. simpl.
  destruct (Z.ltb_spec n 0); [lia|].
  rewrite (Z.min_l 0) by lia. rewrite Z.sub_0_r. simpl. rewrite drop_0.
  destruct (Z.min_spec n (Z.of_nat (length l))) as [[? ->]|[? ->]]; [done|].
  rewrite Nat2Z.id. rewrite take_ge by lia. by rewrite take_ge by lia.
Qed.

Lemma at_index_last {X} (l : list X) :
  l <> [] -> at_index l (jsLength l - 1) = last l.
Proof.
  intros Hl. unfold at_index, jsLength.
  destruct l as [|x r]; [done|]. simpl length.
  destruct (Z.ltb_spec (Z.of_nat (S (length r)) - 1) 0); [lia|].
  replace (Z.to_nat (Z.of_nat (S (length r)) - 1)) with (length r) by lia.
  rewrite last_lookup. done.
Qed.

(** C3. [selectWinners bids n] returns the first [min(n, |bids|)] bids of
    [bids] arranged in the order of the specification (higher amount,
    then earlier [lastBidAt], then lower [userId]): the winners followed
    by some arrangement of the others is a rearrangement of [bids] that
    is sorted by that order.  The clearing price is the amount of the
    last winner, and 0 when there is none; for [n <= 0] there is no
    winner.  The result is a function of the input, and when no two bids
    agree on all three fields it does not depend on the order in which
    the bids are given. *)
Theorem selectWinners_first_ranked (bids : list T) (n : Z) :
  let winners := (selectWinners bids n).1 in
  let clearingPrice := (selectWinners bids n).2 in
  (n <= 0 -> winners = [] /\ clearingPrice = 0) /\
  length winners = Z.to_nat (Z.min (Z.max n 0) (Z.of_nat (length bids))) /\
  (exists others, winners ++ others ≡ₚ bids /\
                  StronglySorted ranksNoLater (winners ++ others)) /\
  clearingPrice = match last winners with Some w => amount w | None => 0 end /\
  (forall bids',
      bids' ≡ₚ bids ->
      (forall a b, a ∈ bids -> b ∈ bids ->
                   amount a = amount b -> lastBidAt a = lastBidAt b ->
                   userId a = userId b -> a = b) ->
      selectWinners bids' n = selectWinners bids n).
Proof.
  unfold selectWinners.
  destruct (Z.leb_spec n 0) as [Hn|Hn]; simpl.
  - split_and!; try done.
    + by rewrite Z.max_r, Z.min_l by lia.
    + exists (sortBy compareRankableBids bids). split; [apply sortBy_perm|].
      apply sorted_ranks, sortBy_sorted; [apply compare_total | apply compare_trans].
  - rewrite slice_from_zero by done.
    set (sorted := sortBy compareRankableBids bids).
    assert (Hsorted : StronglySorted (cmpLe compareRankableBids) sorted)
      by (apply sortBy_sorted; [apply compare_total | apply compare_trans]).
    split_and!.
    + lia.
    + rewrite length_take. subst sorted. rewrite sortBy_length. lia.
    + exists (drop (Z.to_nat n) sorted). rewrite take_drop. split; [apply sortBy_perm|].
      by apply sorted_ranks.
    + destruct (take (Z.to_nat n) sorted) as [|w ws] eqn:E; [done|].
      replace (jsLength (w :: ws) =? 0) with false
        by (symmetry; apply Z.eqb_neq; unfold jsLength; simpl; lia).
      by rewrite at_index_last.
    + intros bids' HP Hdistinct.
      rewrite slice_from_zero by done.
      replace (sortBy compareRankableBids bids') with sorted; [done|].
      apply (sorted_perm_eq compareRankableBids); try done.
      * intros a b Ha Hb Hab Hba. subst sorted.
        rewrite sortBy_elem_of in Ha, Hb.
        apply compare_le_iff in Hab, Hba.
        destruct (ranksNoLater_antisym a b Hab Hba) as (?&?&?). by apply Hdistinct.
      * apply sortBy_sorted; [apply compare_total | apply compare_trans].
      * subst sorted. by rewrite !sortBy_perm.
Qed.
End RankingFacts.

(** * Running a computation: what a successful step tells *)

Section Steps.
Context {A B : Type}.

Lemma bind_ok (m : M A) (k : A -> M B) (w w' : World) (b : B) :
  bind m k w = (Ok b, w') ->
  exists a w1, m w = (Ok a, w1) /\ k a w1 = (Ok b, w').
Proof.
  unfold bind. destruct (m w) as [[a|e] w1]; [eauto | discriminate].
Qed.

Lemma bind_run (m : M A) (k : A -> M B) (w w1 : World) (a : A) :
  m w = (Ok a, w1) -> bind m k w = k a w1.
Proof. unfold bind. by intros ->. Qed.

Lemma bind_throw (m : M A) (k : A -> M B) (w w1 : World) (e : Thrown) :
  m w = (Throw e, w1) -> bind m k w = (Throw e, w1).
Proof. unfold bind. by intros ->. Qed.
End Steps.

Lemma ret_ok {A} (a b : A) (w w' : World) : ret a w = (Ok b, w') -> b = a /\ w' = w.
Proof. unfold ret. by intros [= -> ->]. Qed.

Lemma newDate_ok (w w' : World) (t : Z) :
  newDate w = (Ok t, w') -> t = clock w /\ w' = w.
Proof. unfold newDate. by intros [= <- <-]. Qed.

Lemma newObjectId_ok (w w' : World) (id : ObjectId) :
  newObjectId w = (Ok id, w') ->
  id = oidGen w /\ db w' = db w /\ clock w' = clock w.
Proof. unfold newObjectId. intros [= <- <-]. by split_and!. Qed.

Lemma logInfo_ok (msg : string) (w w' : World) (u : unit) :
  logInfo msg w = (Ok u, w') -> db w' = db w /\ clock w' = clock w.
Proof. unfold logInfo. intros H. inversion H. by split_and!. Qed.

Section Finds.
Context {D : Type}.

Lemma elem_of_found (f : ObjectId -> D -> bool) (m : gmap ObjectId D) (kd : ObjectId * D) :
  kd ∈ List.filter (fun kd => f kd.1 kd.2) (map_to_list m) <->
  m !! kd.1 = Some kd.2 /\ f kd.1 kd.2 = true.
Proof.
  rewrite list_elem_of_In, filter_In, <- list_elem_of_In.
  destruct kd as [k d]. by rewrite elem_of_map_to_list.
Qed.

Lemma head_found (f : ObjectId -> D -> bool) (m : gmap ObjectId D) (kd : ObjectId * D) :
  head (List.filter (fun kd => f kd.1 kd.2) (map_to_list m)) = Some kd ->
  m !! kd.1 = Some kd.2 /\ f kd.1 kd.2 = true.
Proof. intros H. apply elem_of_found. by eapply head_Some_elem_of. Qed.

Lemma head_found_none (f : ObjectId -> D -> bool) (m : gmap ObjectId D) :
  head (List.filter (fun kd => f kd.1 kd.2) (map_to_list m)) = None ->
  forall k d, m !! k = Some d -> f k d = false.
Proof.
  intros H k d Hk. destruct (f k d) eqn:E; [|done].
  assert ((k, d) ∈ List.filter (fun kd => f kd.1 kd.2) (map_to_list m)) as Hin
    by by apply elem_of_found.
  destruct (List.filter _ _); [by apply not_elem_of_nil in Hin | done].
Qed.

Lemma found_NoDup (f : ObjectId -> D -> bool) (m : gmap ObjectId D) :
  NoDup (List.filter (fun kd => f kd.1 kd.2) (map_to_list m)).*1.
Proof.
  pose proof (NoDup_fst_map_to_list m) as H.
  induction (map_to_list m) as [|kd l IH]; simpl; [constructor|].
  apply NoDup_cons in H as [Hn H].
  destruct (f kd.1 kd.2); simpl; [|by apply IH].
  apply NoDup_cons. split; [|by apply IH].
  intros Hin. apply Hn. apply list_elem_of_fmap in Hin as (y & -> & Hy).
  apply list_elem_of_fmap. exists y. split; [done|].
  apply list_elem_of_In in Hy. apply filter_In in Hy as [Hy _]. by apply list_elem_of_In.
Qed.
End Finds.

Section CollectionSteps.
Context {D : Type} (col : Collection D).

Lemma findOne_ok (id : ObjectId) (f : D -> bool) (w w' : World) (r : option D) :
  findOne col id f w = (Ok r, w') ->
  w' = w /\
  match r with
  | Some d => getCol col (db w) !! id = Some d /\ f d = true
  | None => forall d, getCol col (db w) !! id = Some d -> f d = false
  end.
Proof.
  unfold findOne, bind, readDb, ret. intros [= <- <-]. split; [done|].
  destruct (getCol col (db w) !! id) as [d|]; [|done].
  destruct (f d) eqn:E; [done|]. by intros ? [= <-].
Qed.

Lemma find_ok (f : ObjectId -> D -> bool) (w w' : World) (l : list (ObjectId * D)) :
  find col f w = (Ok l, w') ->
  w' = w /\ l = List.filter (fun kd => f kd.1 kd.2) (map_to_list (getCol col (db w))).
Proof. unfold find, bind, readDb, ret. by intros [= <- <-]. Qed.

Lemma findFirst_ok (f : ObjectId -> D -> bool) (w w' : World) (r : option (ObjectId * D)) :
  findFirst col f w = (Ok r, w') ->
  w' = w /\
  match r with
  | Some kd => getCol col (db w) !! kd.1 = Some kd.2 /\ f kd.1 kd.2 = true
  | None => forall k d, getCol col (db w) !! k = Some d -> f k d = false
  end.
Proof.
  unfold findFirst, find, bind, readDb, ret. intros [= <- <-]. split; [done|].
  destruct (head _) as [kd|] eqn:E; [by apply head_found | by apply head_found_none].
Qed.

Lemma insertOne_ok (id : ObjectId) (d : D) (w w' : World) (u : unit) :
  insertOne col id d w = (Ok u, w') ->
  getCol col (db w) !! id = None
  /\ firstViolation (uniqueIndexes col) id None d (getCol col (db w)) = None
  /\ w' = setDb (setCol col (<[id := d]> (getCol col (db w))) (db w)) w.
Proof.
  unfold insertOne, bind, readDb, writeDb, throw.
  destruct (getCol col (db w) !! id); [discriminate|].
  destruct (firstViolation _ _ _ _ _); [discriminate|].
  intros H. by inversion H.
Qed.

Lemma insertOne_throw (id : ObjectId) (d : D) (w w' : World) (e : Thrown) :
  insertOne col id d w = (Throw e, w') -> w' = w.
Proof.
  unfold insertOne, bind, readDb, writeDb, throw.
  destruct (getCol col (db w) !! id); [by intros [= <- <-]|].
  destruct (firstViolation _ _ _ _ _); [by intros [= <- <-]|discriminate].
Qed.

Lemma findOneAndUpdate_throw (id : ObjectId) (f : D -> bool) (upd : D -> D)
    (w w' : World) (e : Thrown) :
  findOneAndUpdate col id f upd w = (Throw e, w') -> w' = w.
Proof.
  unfold findOneAndUpdate, bind, readDb, writeDb, throw, ret.
  destruct (getCol col (db w) !! id) as [d|]; [|discriminate].
  destruct (f d); [|discriminate].
  destruct (firstViolation _ _ _ _ _); [by intros [= <- <-]|discriminate].
Qed.

Lemma findOneAndUpdate_ok (id : ObjectId) (f : D -> bool) (upd : D -> D)
    (w w' : World) (r : option D) :
  findOneAndUpdate col id f upd w = (Ok r, w') ->
  match r with
  | Some d' =>
      exists d, getCol col (db w) !! id = Some d /\ f d = true /\ d' = upd d
                /\ firstViolation (uniqueIndexes col) id (Some d) (upd d)
                     (getCol col (db w)) = None
                /\ w' = setDb (setCol col (<[id := upd d]> (getCol col (db w))) (db w)) w
  | None => w' = w /\ forall d, getCol col (db w) !! id = Some d -> f d = false
  end.
Proof.
  unfold findOneAndUpdate, bind, readDb, writeDb, throw, ret.
  destruct (getCol col (db w) !! id) as [d|] eqn:El; [|by intros [= <- <-]].
  destruct (f d) eqn:Ef.
  - destruct (firstViolation _ _ _ _ _) eqn:Ev; [discriminate|].
    intros [= <- <-]. by exists d.
  - intros [= <- <-]. split; [done|]. by intros ? [= <-].
Qed.

Lemma updateOne_ok (id : ObjectId) (f : D -> bool) (upd : D -> D)
    (w w' : World) (n : Z) :
  updateOne col id f upd w = (Ok n, w') ->
  (n = 1 /\
   exists d, getCol col (db w) !! id = Some d /\ f d = true
             /\ firstViolation (uniqueIndexes col) id (Some d) (upd d)
                  (getCol col (db w)) = None
             /\ w' = setDb (setCol col (<[id := upd d]> (getCol col (db w))) (db w)) w)
  \/ (n = 0 /\ w' = w /\ forall d, getCol col (db w) !! id = Some d -> f d = false).
Proof.
  unfold updateOne. intros H. apply bind_ok in H as (r & w1 & E & H).
  apply ret_ok in H as [-> ->]. apply findOneAndUpdate_ok in E.
  destruct r as [d'|].
  - left. split; [done|]. destruct E as (d & ? & ? & ? & ? & ?). by exists d.
  - right. by destruct E.
Qed.
End CollectionSteps.

(** * Transactions, loops and handlers *)

Section Txn.
Context {A : Type}.

(** A transaction that returns has run its body once, from the database
    it found; one that throws has left the database alone. *)
Lemma withTxnAttempts_run (n : nat) (retry : bool) (fn : M A) (w w' : World)
    (r : Result A) :
  withTxnAttempts n retry fn w = (r, w') ->
  match r with
  | Ok a => exists w0, db w0 = db w /\ fn w0 = (Ok a, w')
  | Throw e => db w' = db w /\ exists w0 w1, db w0 = db w /\ fn w0 = (Throw e, w1)
  end.
Proof.
  revert w. induction n as [|n IH]; intros w; simpl.
  - destruct (fn w) as [[a|e] w1] eqn:E; intros [= <- <-]; [by exists w|].
    split; [done|]. by exists w, w1.
  - destruct (fn w) as [[a|e] w1] eqn:E; [intros [= <- <-]; by exists w|].
    destruct (isTransientTxnError e || retry && isDuplicateKeyError e).
    + intros H. apply IH in H. destruct r as [a|e'].
      * destruct H as (w0 & Hdb & H). by exists w0.
      * destruct H as (Hdb & w0 & w2 & Hdb0 & H). split; [done|]. by exists w0, w2.
    + intros [= <- <-]. split; [done|]. by exists w, w1.
Qed.

Lemma withTxn_run (fn : M A) (opts : TxnOptions) (w w' : World) (r : Result A) :
  withTxn fn opts w = (r, w') ->
  match r with
  | Ok a => exists w0, db w0 = db w /\ fn w0 = (Ok a, w')
  | Throw e => db w' = db w
  end.
Proof.
  unfold withTxn. destruct (default 5%nat (maxAttempts opts)) as [|n].
  - unfold throw. by intros [= <- <-].
  - intros H. apply withTxnAttempts_run in H. destruct r; [done|]. by destruct H.
Qed.

Lemma withTxn_thrown (fn : M A) (opts : TxnOptions) (w w' : World) (e : Thrown) :
  maxAttempts opts = None ->
  withTxn fn opts w = (Throw e, w') ->
  exists w0 w1, db w0 = db w /\ fn w0 = (Throw e, w1).
Proof.
  unfold withTxn. intros ->. cbn [default]. intros H.
  apply withTxnAttempts_run in H. by destruct H.
Qed.

Lemma withTxn_preserves (I : Db -> Prop) (fn : M A) (opts : TxnOptions) :
  (forall w a w', I (db w) -> fn w = (Ok a, w') -> I (db w')) ->
  forall w r w', I (db w) -> withTxn fn opts w = (r, w') -> I (db w').
Proof.
  intros Hfn w r w' HI H. apply withTxn_run in H. destruct r as [a|e].
  - destruct H as (w0 & Hdb & H). eapply Hfn; [|exact H]. by rewrite Hdb.
  - by rewrite H.
Qed.

Lemma tryCatch_run (m : M A) (h : Thrown -> M A) (w w' : World) (r : Result A) :
  tryCatch m h w = (r, w') ->
  (exists a, m w = (Ok a, w') /\ r = Ok a)
  \/ (exists e w1, m w = (Throw e, w1) /\ h e w1 = (r, w')).
Proof.
  unfold tryCatch. destruct (m w) as [[a|e] w1].
  - intros [= <- <-]. left. by exists a.
  - intros H. right. by exists e, w1.
Qed.
End Txn.

Lemma forEach_ok {X} (I : World -> Prop) (l : list X) (body : X -> M unit) :
  (forall x w w' u, x ∈ l -> I w -> body x w = (Ok u, w') -> I w') ->
  forall w w' u, I w -> forEach l body w = (Ok u, w') -> I w'.
Proof.
  induction l as [|x r IH]; intros Hbody w w' u HI H; simpl in H.
  - apply ret_ok in H as [_ ->]. done.
  - apply bind_ok in H as (u1 & w1 & E & H).
    eapply IH; [| |exact H].
    + intros y ? ? ? Hy. apply Hbody. by right.
    + eapply Hbody; [left|exact HI|exact E].
Qed.

(** A loop whose body never throws and keeps [I] keeps [I]. *)
Lemma forEach_any {X} (I : World -> Prop) (l : list X) (body : X -> M unit) :
  (forall x w w' r, x ∈ l -> I w -> body x w = (r, w') -> I w') ->
  forall w w' r, I w -> forEach l body w = (r, w') -> I w'.
Proof.
  induction l as [|x rest IH]; intros Hbody w w' r HI H; simpl in H.
  - unfold ret in H. by inversion H; subst.
  - unfold bind in H. destruct (body x w) as [[u|e] w1] eqn:E.
    + eapply IH; [| |exact H].
      * intros y ? ? ? Hy. apply Hbody. by right.
      * eapply Hbody; [left|exact HI|exact E].
    + inversion H; subst. eapply Hbody; [left|exact HI|exact E].
Qed.

(** * The invariants under one write *)

Section KeyTaken.
Context {D : Type}.

Lemma keyTaken_false (ix : UniqueIndex D) (id : ObjectId) (d : D) (c : gmap ObjectId D) :
  keyTaken ix id d c = false ->
  forall j d', c !! j = Some d' -> j <> id -> sameKey ix d d' = false.
Proof.
  unfold keyTaken. intros H j d' Hj Hne.
  destruct (sameKey ix d d') eqn:E; [|done].
  assert (existsb (fun kd => negb (kd.1 =? id)%N && sameKey ix d kd.2) (map_to_list c) = true)
    as Hex; [|by rewrite Hex in H].
  apply existsb_exists. exists (j, d'). split.
  - apply list_elem_of_In. by apply elem_of_map_to_list.
  - simpl. rewrite E. by apply N.eqb_neq in Hne as ->.
Qed.
End KeyTaken.

Lemma insert_bid_no_violation (id : ObjectId) (b : Bid.Doc) (bs : gmap ObjectId Bid.Doc) :
  firstViolation (uniqueIndexes colBids) id None b bs = None ->
  keyTaken bidsByAuctionUser id b bs = false.
Proof. simpl. by destruct (keyTaken bidsByAuctionUser id b bs). Qed.

Section One.
Import Invariants.

Lemma usersOk_insert (us : gmap ObjectId User.Doc) (id : ObjectId) (u : User.Doc) :
  usersOk us -> userOk u -> usersOk (<[id := u]> us).
Proof.
  intros H Hu j u' Hj. destruct (decide (id = j)) as [->|Hne].
  - rewrite lookup_insert_eq in Hj. by simplify_eq.
  - rewrite lookup_insert_ne in Hj by done. by eapply H.
Qed.

Lemma bidsPositive_insert (bs : gmap ObjectId Bid.Doc) (id : ObjectId) (b : Bid.Doc) :
  bidsPositive bs -> 0 < Bid.amount b -> bidsPositive (<[id := b]> bs).
Proof.
  intros H Hb j b' Hj. destruct (decide (id = j)) as [->|Hne].
  - rewrite lookup_insert_eq in Hj. by simplify_eq.
  - rewrite lookup_insert_ne in Hj by done. by eapply H.
Qed.

Lemma bidsUnique_insert (bs : gmap ObjectId Bid.Doc) (id : ObjectId) (b : Bid.Doc) :
  bidsUnique bs ->
  (forall j b', bs !! j = Some b' -> j <> id ->
                Bid.auctionId b = Bid.auctionId b' -> Bid.userId b = Bid.userId b' -> False) ->
  bidsUnique (<[id := b]> bs).
Proof.
  intros H Hfresh i j b1 b2 Hi Hj Ha Hu.
  destruct (decide (i = j)) as [|Hij]; [done|]. exfalso.
  destruct (decide (id = i)) as [Hi'|Hi'], (decide (id = j)) as [Hj'|Hj']; subst.
  - done.
  - rewrite lookup_insert_eq in Hi. rewrite lookup_insert_ne in Hj by done.
    simplify_eq. eapply (Hfresh j b2); eauto.
  - rewrite lookup_insert_eq in Hj. rewrite lookup_insert_ne in Hi by done.
    simplify_eq. eapply (Hfresh i b1); eauto.
  - rewrite lookup_insert_ne in Hi, Hj by done. apply Hij. by eapply H.
Qed.

Lemma bidsUnique_new (bs : gmap ObjectId Bid.Doc) (id : ObjectId) (b : Bid.Doc) :
  bidsUnique bs -> keyTaken bidsByAuctionUser id b bs = false ->
  bidsUnique (<[id := b]> bs).
Proof.
  intros H Hk. apply bidsUnique_insert; [done|].
  intros j b' Hj Hne Ha Hu.
  pose proof (keyTaken_false _ _ _ _ Hk j b' Hj Hne) as Hs. simpl in Hs.
  rewrite Ha, Hu, !N.eqb_refl in Hs. done.
Qed.

Lemma bidsUnique_update (bs : gmap ObjectId Bid.Doc) (id : ObjectId) (b0 b : Bid.Doc) :
  bidsUnique bs -> bs !! id = Some b0 ->
  Bid.auctionId b = Bid.auctionId b0 -> Bid.userId b = Bid.userId b0 ->
  bidsUnique (<[id := b]> bs).
Proof.
  intros H H0 Ha Hu. apply bidsUnique_insert; [done|].
  intros j b' Hj Hne Ha' Hu'. apply Hne. eapply H; eauto; congruence.
Qed.

Lemma bidsRefer_bid (bs : gmap ObjectId Bid.Doc) (aus : gmap ObjectId Auction.Doc)
    (id : ObjectId) (b : Bid.Doc) :
  bidsRefer bs aus -> is_Some (aus !! Bid.auctionId b) -> bidsRefer (<[id := b]> bs) aus.
Proof.
  intros H Hb j b' Hj. destruct (decide (id = j)) as [->|Hne].
  - rewrite lookup_insert_eq in Hj. by simplify_eq.
  - rewrite lookup_insert_ne in Hj by done. by eapply H.
Qed.

Lemma bidsRefer_auction (bs : gmap ObjectId Bid.Doc) (aus : gmap ObjectId Auction.Doc)
    (aid : ObjectId) (a : Auction.Doc) :
  bidsRefer bs aus -> bidsRefer bs (<[aid := a]> aus).
Proof.
  intros H j b Hj. destruct (decide (aid = Bid.auctionId b)) as [->|Hne].
  - rewrite lookup_insert_eq. eauto.
  - rewrite lookup_insert_ne by done. by eapply H.
Qed.

Lemma deadlineClamp_insert (aus : gmap ObjectId Auction.Doc) (aid : ObjectId)
    (a : Auction.Doc) :
  deadlineClamp aus -> clampOk a -> deadlineClamp (<[aid := a]> aus).
Proof.
  intros H Ha j a' Hj. destruct (decide (aid = j)) as [->|Hne].
  - rewrite lookup_insert_eq in Hj. by simplify_eq.
  - rewrite lookup_insert_ne in Hj by done. by eapply H.
Qed.

Lemma wonSerial_won (b : Bid.Doc) (k : Z) : wonSerial b = Some k -> Bid.status b = Bid.won.
Proof. unfold wonSerial. by destruct (Bid.status b). Qed.

(** A write to a bid that is not won before and not won after does not
    touch the serials of any auction. *)
Lemma serialsExactly_other (bs : gmap ObjectId Bid.Doc) (id : ObjectId) (b : Bid.Doc)
    (aid : ObjectId) (n : Z) :
  (forall b0, bs !! id = Some b0 -> Bid.auctionId b0 = aid -> Bid.status b0 <> Bid.won) ->
  (Bid.auctionId b = aid -> Bid.status b <> Bid.won) ->
  serialsExactly bs aid n -> serialsExactly (<[id := b]> bs) aid n.
Proof.
  intros Hold Hnew (Ha & Hb & Hc). split_and!.
  - intros i b' Hi Haid Hw. destruct (decide (id = i)) as [->|Hne].
    + rewrite lookup_insert_eq in Hi. simplify_eq. by destruct Hnew.
    + rewrite lookup_insert_ne in Hi by done. by eapply Ha.
  - intros i j b1 b2 k Hi Hj H1 H2 Hk1 Hk2.
    destruct (decide (id = i)) as [->|Hi'].
    { rewrite lookup_insert_eq in Hi. simplify_eq.
      apply wonSerial_won in Hk1. by destruct Hnew. }
    destruct (decide (id = j)) as [->|Hj'].
    { rewrite lookup_insert_eq in Hj. simplify_eq.
      apply wonSerial_won in Hk2. by destruct Hnew. }
    rewrite lookup_insert_ne in Hi, Hj by done. by eapply Hb.
  - intros k Hk. destruct (Hc k Hk) as (i & b' & Hi & Haid & Hs).
    exists i, b'. split_and!; try done.
    destruct (decide (id = i)) as [->|Hne]; [|by rewrite lookup_insert_ne].
    apply wonSerial_won in Hs. by destruct (Hold b' Hi Haid).
Qed.

Lemma giftSerials_bid (bs : gmap ObjectId Bid.Doc) (aus : gmap ObjectId Auction.Doc)
    (id : ObjectId) (b : Bid.Doc) :
  (forall b0, bs !! id = Some b0 -> Bid.status b0 <> Bid.won) ->
  Bid.status b <> Bid.won ->
  giftSerials bs aus -> giftSerials (<[id := b]> bs) aus.
Proof.
  intros Hold Hnew H aid a Ha. destruct (H aid a Ha) as [H0 Hs]. split; [done|].
  apply serialsExactly_other; eauto.
Qed.

Lemma giftSerials_auction_update (bs : gmap ObjectId Bid.Doc)
    (aus : gmap ObjectId Auction.Doc) (aid : ObjectId) (a0 a : Auction.Doc) :
  aus !! aid = Some a0 -> Auction.awardedCount a = Auction.awardedCount a0 ->
  giftSerials bs aus -> giftSerials bs (<[aid := a]> aus).
Proof.
  intros H0 Hc H j a' Hj. destruct (decide (aid = j)) as [->|Hne].
  - rewrite lookup_insert_eq in Hj. simplify_eq. rewrite Hc. by apply H.
  - rewrite lookup_insert_ne in Hj by done. by apply H.
Qed.

Lemma giftSerials_auction_new (bs : gmap ObjectId Bid.Doc)
    (aus : gmap ObjectId Auction.Doc) (aid : ObjectId) (a : Auction.Doc) :
  aus !! aid = None -> Auction.awardedCount a = 0 -> bidsRefer bs aus ->
  giftSerials bs aus -> giftSerials bs (<[aid := a]> aus).
Proof.
  intros H0 Hc Href H j a' Hj. destruct (decide (aid = j)) as [->|Hne].
  - rewrite lookup_insert_eq in Hj. simplify_eq. rewrite Hc. split; [lia|].
    assert (Hnone : forall i b, bs !! i = Some b -> Bid.auctionId b <> j).
    { intros i b Hi Heq. destruct (Href i b Hi) as [? Hx]. by rewrite Heq, H0 in Hx. }
    split_and!.
    + intros i b Hi Haid. by destruct (Hnone i b Hi).
    + intros i ? b1 ? ? Hi ? Haid. by destruct (Hnone i b1 Hi).
    + intros k ?. lia.
  - rewrite lookup_insert_ne in Hj by done. by apply H.
Qed.
End One.

Lemma newObjectId_run (w w' : World) (id : ObjectId) :
  newObjectId w = (Ok id, w') ->
  id = oidGen w /\ w' = mkWorld (db w) (N.succ (oidGen w)) (clock w) (logs w).
Proof. unfold newObjectId. by intros [= <- <-]. Qed.

Lemma logInfo_run (msg : string) (w w' : World) (u : unit) :
  logInfo msg w = (Ok u, w') ->
  w' = mkWorld (db w) (oidGen w) (clock w) (logs w ++ [LogInfo msg]).
Proof. unfold logInfo. intros H. by inversion H. Qed.



(** Boolean comparisons of the code as propositions. *)
Ltac zbool :=
  repeat match goal with
  | H : context [(_ >? _)] |- _ => rewrite Z.gtb_ltb in H
  | H : context [(_ >=? _)] |- _ => rewrite Z.geb_leb in H
  | H : (_ <? _) = true |- _ => apply Z.ltb_lt in H
  | H : (_ <? _) = false |- _ => apply Z.ltb_ge in H
  | H : (_ <=? _) = true |- _ => apply Z.leb_le in H
  | H : (_ <=? _) = false |- _ => apply Z.leb_gt in H
  | H : (_ =? _) = true |- _ => apply Z.eqb_eq in H
  | H : (_ =? _) = false |- _ => apply Z.eqb_neq in H
  | H : negb _ = true |- _ => apply negb_true_iff in H
  | H : negb _ = false |- _ => apply negb_false_iff in H
  | H : _ || _ = false |- _ => apply orb_false_iff in H as [? ?]
  | H : _ && _ = true |- _ => apply andb_true_iff in H as [? ?]
  end.

Ltac simpl_db :=
  cbn [db oidGen clock logs setDb getCol setCol colUsers colAuctions colBids
       colRounds colLedger users auctions bids rounds ledger engineLocks
       uniqueIndexes colName fst snd] in *.

Ltac tidy :=
  simpl_db;
  repeat match goal with
  | H : firstViolation [] _ _ _ _ = None |- _ => clear H
  | H : true = true |- _ => clear H
  | x : unit |- _ => destruct x
  end.

(** One step of symbolic execution of a successful run [H]: a bind is
    split into its first computation and the rest, a primitive is
    replaced by what it did, a branch of the code is split in two. *)
Ltac step H :=
  lazymatch type of H with
  | bind _ _ _ = (Ok _, _) =>
      let a := fresh "x" in
      let w1 := fresh "w" in
      let E := fresh "E" in
      apply bind_ok in H as (a & w1 & E & H); repeat step E
  | ret _ _ = (Ok _, _) => apply ret_ok in H as [? ?]; subst
  | throw _ _ = (Ok _, _) => discriminate H
  | newDate _ = _ => apply newDate_ok in H as [-> ->]
  | newObjectId _ = _ => apply newObjectId_run in H as [-> ->]
  | logInfo _ _ = _ => apply logInfo_run in H as ->
  | findOne _ _ _ _ = (Ok ?r, _) =>
      apply findOne_ok in H as [-> H]; destruct r; [destruct H as [? ?]|]
  | find _ _ _ = _ => apply find_ok in H as [-> H]
  | findFirst _ _ _ = (Ok ?r, _) =>
      apply findFirst_ok in H as [-> H]; destruct r; [destruct H as [? ?]|]
  | insertOne _ _ _ _ = _ => apply insertOne_ok in H as (? & ? & ->)
  | findOneAndUpdate _ _ _ _ _ = (Ok ?r, _) =>
      apply findOneAndUpdate_ok in H;
      destruct r; [destruct H as (? & ? & ? & -> & ? & ->) | destruct H as [-> ?]]
  | updateOne _ _ _ _ _ = _ =>
      apply updateOne_ok in H as [(-> & ? & ? & ? & ? & ->) | (-> & -> & ?)]
  | (if negb (1 =? 1) then _ else _) _ = _ => cbn [negb Z.eqb Pos.eqb] in H
  | (if negb (0 =? 1) then _ else _) _ = _ => cbn [negb Z.eqb Pos.eqb] in H
  | (if ?c then _ else _) _ = _ => let C := fresh "C" in destruct c eqn:C
  | (match ?x with _ => _ end) _ = _ => destruct x eqn:?
  end.

(** * Balance arithmetic *)

Lemma userOk_topup (u : User.Doc) (amount : Z) :
  0 < amount -> userOk u ->
  userOk (User.incTotalTopups amount (User.incBalance amount 0 0 u)).
Proof. unfold userOk. simpl. lia. Qed.

Lemma userOk_reserve (u : User.Doc) (delta : Z) :
  0 <= delta -> Auctions.hasAvailable delta u = true -> userOk u ->
  userOk (User.incBalance (- delta) delta 0 u).
Proof. unfold userOk, Auctions.hasAvailable. simpl. lia. Qed.

Lemma userOk_unreserve (u : User.Doc) (amount : Z) :
  0 <= amount -> Auctions.hasReserved amount u = true -> userOk u ->
  userOk (User.incBalance amount (- amount) 0 u).
Proof. unfold userOk, Auctions.hasReserved. simpl. lia. Qed.

Lemma userOk_settle (u : User.Doc) (amount paid : Z) :
  0 <= paid <= amount -> Auctions.hasReserved amount u = true -> userOk u ->
  userOk (User.incBalance (amount - paid) (- amount) paid u).
Proof. unfold userOk, Auctions.hasReserved. simpl. lia. Qed.

(** Split the invariant of the database after the writes of a run into
    its six parts; those over untouched collections close at once. *)
Ltac inv_split HI :=
  let Hu := fresh "Hu" in let Hp := fresh "Hp" in let Hq := fresh "Hq" in
  let Hr := fresh "Hr" in let Hs := fresh "Hs" in let Hc := fresh "Hc" in
  destruct HI as (Hu & Hp & Hq & Hr & Hs & Hc);
  unfold Inv; simpl_db; split_and!; try done.

(** * The operations keep the invariants *)

Section Ops.
Import Auctions.

Lemma createUser_inv (w w' : World) r :
  Inv (db w) -> Users.createUser w = (r, w') -> Inv (db w').
Proof.
  intros HI. unfold Users.createUser, bind, newDate, newObjectId.
  destruct (insertOne _ _ _ _) as [[u|e] w1] eqn:E.
  - apply insertOne_ok in E as (? & ? & ->). unfold ret. intros [= <- <-].
    inv_split HI. apply usersOk_insert; [done|]. by repeat split.
  - apply insertOne_throw in E as ->. by intros [= <- <-].
Qed.

Lemma topupUserTxn_inv (userId : ObjectId) (amount : Z) (w w' : World) a :
  0 < amount ->
  Inv (db w) -> Users.topupUserTxn userId amount w = (Ok a, w') -> Inv (db w').
Proof.
  intros Hpos HI H. unfold Users.topupUserTxn in H.
  repeat step H. inv_split HI. apply usersOk_insert; [done|].
  apply userOk_topup; [done|]. by eapply Hu.
Qed.

Lemma topupUser_inv (userId : ObjectId) (amount : Z) (w w' : World) r :
  Inv (db w) -> Users.topupUser userId amount w = (r, w') -> Inv (db w').
Proof.
  intros HI. unfold Users.topupUser.
  destruct (negb (isSafeInteger amount) || (amount <=? 0)) eqn:G.
  - unfold throw. by intros [= <- <-].
  - apply orb_false_iff in G as [_ G]. apply Z.leb_gt in G.
    apply withTxn_preserves; [|done]. intros ? ? ?. by apply topupUserTxn_inv.
Qed.
End Ops.

Section Ops2.
Import Auctions.

Lemma createAuction_inv (input : CreateAuctionInput) (w w' : World) r :
  Inv (db w) -> createAuction input w = (r, w') -> Inv (db w').
Proof.
  intros HI. unfold createAuction.
  destruct (trimsToEmpty _); [unfold throw; by intros [= <- <-]|].
  destruct (_ || _); [unfold throw; by intros [= <- <-]|].
  unfold bind, newDate, newObjectId.
  destruct (insertOne _ _ _ _) as [[u|e] w1] eqn:E.
  - apply insertOne_ok in E as (Hn & ? & ->). unfold ret. intros [= <- <-].
    inv_split HI.
    + by apply bidsRefer_auction.
    + by apply giftSerials_auction_new.
    + apply deadlineClamp_insert; [done|]. by intros ? ? ?.
  - apply insertOne_throw in E as ->. by intros [= <- <-].
Qed.

Lemma startAuctionTxn_inv (auctionId : ObjectId) (w w' : World) a :
  Inv (db w) -> startAuctionTxn auctionId w = (Ok a, w') -> Inv (db w').
Proof.
  intros HI H. unfold startAuctionTxn in H.
  repeat step H; inv_split HI;
    first [ by apply bidsRefer_auction | by eapply giftSerials_auction_update | idtac ].
  all: apply deadlineClamp_insert; [done|]; intros e r He Hre; simpl in *;
    simplify_eq; rewrite He; repeat case_match; simplify_eq; zbool; lia.
Qed.

Lemma startAuction_inv (auctionId : ObjectId) (w w' : World) r :
  Inv (db w) -> startAuction auctionId w = (r, w') -> Inv (db w').
Proof.
  intros HI. apply withTxn_preserves; [|done]. intros ? ? ?. apply startAuctionTxn_inv.
Qed.

Lemma clampOk_same (a0 a : Auction.Doc) :
  Auction.endsAt a = Auction.endsAt a0 -> Auction.roundEndsAt a = Auction.roundEndsAt a0 ->
  clampOk a0 -> clampOk a.
Proof. unfold clampOk. intros -> ->. done. Qed.

Lemma isBidStatus_true (s : Bid.Status) (b : Bid.Doc) :
  isBidStatus s b = true -> Bid.status b = s.
Proof. unfold isBidStatus. by intros ?%bool_decide_eq_true. Qed.

(** The four invariants on bids after a write to an existing bid that
    keeps [auctionId], [userId] and a positive [amount], and is neither
    from nor to [won]. *)
Lemma bids_update_inv (bs : gmap ObjectId Bid.Doc) (aus : gmap ObjectId Auction.Doc)
    (id : ObjectId) (b0 b : Bid.Doc) :
  bs !! id = Some b0 ->
  Bid.auctionId b = Bid.auctionId b0 -> Bid.userId b = Bid.userId b0 ->
  0 < Bid.amount b -> Bid.status b0 <> Bid.won -> Bid.status b <> Bid.won ->
  (bidsPositive bs -> bidsPositive (<[id := b]> bs))
  /\ (bidsUnique bs -> bidsUnique (<[id := b]> bs))
  /\ (bidsRefer bs aus -> bidsRefer (<[id := b]> bs) aus)
  /\ (giftSerials bs aus -> giftSerials (<[id := b]> bs) aus).
Proof.
  intros Hl Ha Hu Hp Hs0 Hs. split_and!.
  - intros ?. by apply bidsPositive_insert.
  - intros ?. by eapply bidsUnique_update.
  - intros Href. apply bidsRefer_bid; [done|]. rewrite Ha. by eapply Href.
  - intros ?. apply giftSerials_bid; [|done|done]. intros ? ?. by simplify_eq.
Qed.

Lemma withdrawBidTxn_inv (auctionId userId : ObjectId) (w w' : World) a :
  Inv (db w) -> withdrawBidTxn auctionId userId w = (Ok a, w') -> Inv (db w').
Proof.
  intros HI H. unfold withdrawBidTxn in H.
  repeat step H. tidy. simplify_eq. destruct HI as (Hu & Hp & Hq & Hr & Hs & Hc).
  match goal with Hx : isBidStatus Bid.active _ = true |- _ =>
    apply isBidStatus_true in Hx; rename Hx into Hst end.
  match goal with Hx : bids (db w) !! _ = Some _ |- _ => rename Hx into Hbid end.
  destruct (bids_update_inv (bids (db w)) (auctions (db w)) p.1 p.2
              (Bid.set_status Bid.withdrawn (Bid.set_updatedAt (clock w) p.2)))
    as (Bp & Bq & Br & Bs); try done.
  { simpl. by eapply Hp. }
  { by rewrite Hst. }
  unfold Inv; simpl_db; split_and!; eauto.
  - apply usersOk_insert; [done|]. apply userOk_unreserve; [|done|by eapply Hu].
    apply Hp in Hbid. lia.
  - apply bidsRefer_auction; eauto.
  - eapply giftSerials_auction_update; eauto.
  - apply deadlineClamp_insert; [done|]. eapply clampOk_same; [| |by eapply Hc]; done.
Qed.

Lemma withdrawBid_inv (auctionId userId : ObjectId) (w w' : World) r :
  Inv (db w) -> withdrawBid auctionId userId w = (r, w') -> Inv (db w').
Proof.
  intros HI. apply withTxn_preserves; [|done]. intros ? ? ?. apply withdrawBidTxn_inv.
Qed.

(** One turn of the loop of [cancelAuction]. *)
Lemma cancelOne_inv (auctionId : ObjectId) (now : Z) (b : ObjectId * Bid.Doc)
    (w w' : World) (u : unit) :
  0 < Bid.amount b.2 -> Inv (db w) ->
  (let* bidRes :=
     updateOne colBids b.1 (isBidStatus Bid.active)
       (fun d => Bid.set_status Bid.withdrawn (Bid.set_updatedAt now d)) in
   if negb (bidRes =? 1)
   then throw (appError INVARIANT_VIOLATION
                 "Invariant violation: active bid missing on cancel" 500)
   else
     let* userRes :=
       updateOne colUsers (Bid.userId b.2) (hasReserved (Bid.amount b.2))
         (User.incBalance (Bid.amount b.2) (- Bid.amount b.2) 0) in
     if negb (userRes =? 1)
     then throw (appError INVARIANT_VIOLATION
                   "Invariant violation: insufficient reserved on cancel" 500)
     else
       let* lid := newObjectId in
       insertOne colLedger lid
         (Ledger.mkDoc now (Bid.userId b.2) Ledger.unreserve (Bid.amount b.2)
            (Some auctionId) None)) w = (Ok u, w') ->
  Inv (db w').
Proof.
  intros Hpos HI H. repeat step H. tidy. destruct HI as (Hu & Hp & Hq & Hr & Hs & Hc).
  match goal with Hx : isBidStatus Bid.active _ = true |- _ =>
    apply isBidStatus_true in Hx; rename Hx into Hst end.
  match goal with Hx : bids (db w) !! _ = Some ?d |- _ =>
    rename Hx into Hbid;
    destruct (bids_update_inv (bids (db w)) (auctions (db w)) b.1 d
                (Bid.set_status Bid.withdrawn (Bid.set_updatedAt now d)))
      as (Bp & Bq & Br & Bs); try done;
      [simpl; by eapply Hp | by rewrite Hst |]
  end.
  unfold Inv; simpl_db; split_and!; eauto.
  apply usersOk_insert; [done|]. apply userOk_unreserve; [lia|done|by eapply Hu].
Qed.

Lemma found_bids_positive (f : ObjectId -> Bid.Doc -> bool)
    (bs : gmap ObjectId Bid.Doc) (x : ObjectId * Bid.Doc) :
  bidsPositive bs ->
  x ∈ List.filter (fun kd => f kd.1 kd.2) (map_to_list bs) -> 0 < Bid.amount x.2.
Proof. intros Hp Hx. apply elem_of_found in Hx as [Hx _]. by eapply Hp. Qed.

Lemma cancelAuctionTxn_inv (auctionId : ObjectId) (w w' : World) a :
  Inv (db w) -> cancelAuctionTxn auctionId w = (Ok a, w') -> Inv (db w').
Proof.
  intros HI H. unfold cancelAuctionTxn in H.
  repeat step H. tidy.
  match goal with E : forEach _ _ _ = _ |- _ =>
    eapply (forEach_ok (fun w => Inv (db w))); [| |exact E] end.
  - intros b w1 w2 u Hb HI1 Hrun. eapply cancelOne_inv; [|exact HI1|exact Hrun].
    subst. eapply (found_bids_positive (fun _ b => isActiveBidOf auctionId b)); [|exact Hb].
    apply HI.
  - destruct HI as (Hu & Hp & Hq & Hr & Hs & Hc).
    unfold Inv; simpl_db; split_and!; eauto.
    + by apply bidsRefer_auction.
    + by eapply giftSerials_auction_update.
    + apply deadlineClamp_insert; [done|]. by intros ? ? ?.
Qed.

Lemma cancelAuction_inv (auctionId : ObjectId) (w w' : World) r :
  Inv (db w) -> cancelAuction auctionId w = (r, w') -> Inv (db w').
Proof.
  intros HI. apply withTxn_preserves; [|done]. intros ? ? ?. apply cancelAuctionTxn_inv.
Qed.

Lemma lockDueRound_inv (auctionId token : ObjectId) (threshold now : Z)
    (w w' : World) r :
  Inv (db w) -> Engine.lockDueRound auctionId token threshold now w = (r, w') ->
  Inv (db w').
Proof.
  intros HI H. unfold Engine.lockDueRound in H. destruct r as [r|e].
  - apply findOneAndUpdate_ok in H. destruct r as [a|]; [|by destruct H as [-> _]].
    destruct H as (a0 & Hl & Hf & -> & _ & ->).
    destruct HI as (Hu & Hp & Hq & Hr & Hs & Hc).
    unfold Inv; simpl_db; split_and!; eauto.
    + by apply bidsRefer_auction.
    + by eapply giftSerials_auction_update.
    + apply deadlineClamp_insert; [done|]. eapply clampOk_same; [| |by eapply Hc]; done.
  - by apply findOneAndUpdate_throw in H as ->.
Qed.

Lemma lockDue_inv (auctionId : ObjectId) (w w' : World) r :
  Inv (db w) -> System.lockDue auctionId w = (r, w') -> Inv (db w').
Proof.
  intros HI. unfold System.lockDue, bind, newDate, newObjectId.
  apply lockDueRound_inv. done.
Qed.
End Ops2.

Section Ops3.
Import Auctions.

(** The end of the round that [placeBid] proposes stays within the
    deadline when the current end does. *)
Lemma antiSnipeEndsAt_clamped (a : Auction.Doc) (r now e : Z) :
  Auction.endsAt a = Some e -> antiSnipeEndsAt a r now <= e.
Proof.
  unfold antiSnipeEndsAt. intros ->. repeat case_match; zbool; lia.
Qed.

Lemma clampOk_placeBid (a : Auction.Doc) (v now r : Z) :
  clampOk a -> Auction.roundEndsAt a = Some r ->
  clampOk (Auction.set_version v
             (maxRoundEndsAt (antiSnipeEndsAt a r now) (Auction.set_updatedAt now a))).
Proof.
  intros Hc Hr e r'. unfold maxRoundEndsAt. simpl. rewrite Hr.
  intros He [= <-]. pose proof (Hc e r He Hr).
  pose proof (antiSnipeEndsAt_clamped a r now e He). lia.
Qed.

Lemma placeBidTxn_inv (auctionId userId : ObjectId) (newAmount : Z) (w w' : World) a :
  0 < newAmount ->
  Inv (db w) -> placeBidTxn auctionId userId newAmount w = (Ok a, w') -> Inv (db w').
Proof.
  intros Hpos HI H. unfold placeBidTxn in H.
  repeat step H; tidy; simplify_eq; destruct HI as (Hu & Hp & Hq & Hr & Hs & Hc).
  - (* a raise of an active bid *)
    match goal with Hx : isBidStatus Bid.active _ = true |- _ =>
      pose proof (isBidStatus_true _ _ Hx) as Hst end.
    match goal with Hx : bids (db w) !! _ = Some _ |- _ => rename Hx into Hbid end.
    destruct (bids_update_inv (bids (db w)) (auctions (db w)) p.1 p.2
                (Bid.set_amount newAmount
                   (Bid.set_lastBidAt (clock w) (Bid.set_updatedAt (clock w) p.2))))
      as (Bp & Bq & Br & Bs); try done; [by rewrite Hst | simpl; by rewrite Hst |].
    unfold Inv; simpl_db; split_and!; eauto.
    + apply usersOk_insert; [done|]. zbool. apply userOk_reserve; [lia|done|by eapply Hu].
    + apply bidsRefer_auction; eauto.
    + eapply giftSerials_auction_update; eauto.
    + apply deadlineClamp_insert; [done|]. apply clampOk_placeBid; [by eapply Hc|done].
  - (* a withdrawn bid placed again *)
    match goal with Hx : isBidStatus Bid.withdrawn _ = true |- _ =>
      pose proof (isBidStatus_true _ _ Hx) as Hst end.
    match goal with Hx : bids (db w) !! _ = Some _ |- _ => rename Hx into Hbid end.
    destruct (bids_update_inv (bids (db w)) (auctions (db w)) p.1 p.2
                (Bid.set_status Bid.active
                   (Bid.set_amount newAmount
                      (Bid.set_lastBidAt (clock w) (Bid.set_updatedAt (clock w) p.2)))))
      as (Bp & Bq & Br & Bs); try done; [by rewrite Hst |].
    unfold Inv; simpl_db; split_and!; eauto.
    + apply usersOk_insert; [done|]. zbool. apply userOk_reserve; [lia|done|by eapply Hu].
    + apply bidsRefer_auction; eauto.
    + eapply giftSerials_auction_update; eauto.
    + apply deadlineClamp_insert; [done|]. apply clampOk_placeBid; [by eapply Hc|done].
  - (* a first bid *)
    unfold Inv; simpl_db; split_and!; eauto.
    + apply usersOk_insert; [done|]. zbool. apply userOk_reserve; [lia|done|by eapply Hu].
    + by apply bidsPositive_insert.
    + apply bidsUnique_new; [done|]. by apply insert_bid_no_violation.
    + apply bidsRefer_auction, bidsRefer_bid; [done|]. simpl. eauto.
    + eapply giftSerials_auction_update; eauto.
      apply giftSerials_bid; [|done|done]. intros ? ?. by simplify_eq.
    + apply deadlineClamp_insert; [done|]. apply clampOk_placeBid; [by eapply Hc|done].
Qed.

Lemma placeBid_inv (auctionId userId : ObjectId) (newAmount : Z) (w w' : World) r :
  Inv (db w) -> placeBid auctionId userId newAmount w = (r, w') -> Inv (db w').
Proof.
  intros HI. unfold placeBid.
  destruct (negb (isSafeInteger newAmount) || (newAmount <=? 0)) eqn:G.
  - unfold throw. by intros [= <- <-].
  - apply orb_false_iff in G as [_ G]. apply Z.leb_gt in G.
    apply withTxn_preserves; [|done]. intros ? ? ?. by apply placeBidTxn_inv.
Qed.
End Ops3.

Section SettleFacts.
Import Auctions Engine.

(** ** The order of the store's sort on bids *)

Lemma bidSortOrder_total (x y : ObjectId * Bid.Doc) :
  bidSortOrder x y <= 0 \/ bidSortOrder y x <= 0.
Proof.
  unfold bidSortOrder.
  destruct (Z.eqb_spec (Bid.amount x.2) (Bid.amount y.2)),
           (Z.eqb_spec (Bid.amount y.2) (Bid.amount x.2)); simpl; try lia.
  destruct (Z.eqb_spec (Bid.lastBidAt x.2) (Bid.lastBidAt y.2)),
           (Z.eqb_spec (Bid.lastBidAt y.2) (Bid.lastBidAt x.2)); simpl; lia.
Qed.

Lemma bidSortOrder_trans (x y z : ObjectId * Bid.Doc) :
  bidSortOrder x y <= 0 -> bidSortOrder y z <= 0 -> bidSortOrder x z <= 0.
Proof.
  unfold bidSortOrder.
  destruct (Z.eqb_spec (Bid.amount x.2) (Bid.amount y.2)),
           (Z.eqb_spec (Bid.amount y.2) (Bid.amount z.2)),
           (Z.eqb_spec (Bid.amount x.2) (Bid.amount z.2)); simpl; try lia;
  destruct (Z.eqb_spec (Bid.lastBidAt x.2) (Bid.lastBidAt y.2)),
           (Z.eqb_spec (Bid.lastBidAt y.2) (Bid.lastBidAt z.2)),
           (Z.eqb_spec (Bid.lastBidAt x.2) (Bid.lastBidAt z.2)); simpl; lia.
Qed.

Lemma bidSortOrder_refl (x : ObjectId * Bid.Doc) : bidSortOrder x x <= 0.
Proof. destruct (bidSortOrder_total x x); done. Qed.

Lemma bidSortOrder_amount (x y : ObjectId * Bid.Doc) :
  bidSortOrder x y <= 0 -> Bid.amount y.2 <= Bid.amount x.2.
Proof.
  unfold bidSortOrder.
  destruct (Z.eqb_spec (Bid.amount x.2) (Bid.amount y.2)); simpl; lia.
Qed.

Lemma limit_positive {X} (n : Z) (l : list X) :
  0 < n -> limit n l = take (Z.to_nat n) l.
Proof.
  intros Hn. unfold limit. destruct (Z.eqb_spec n 0); [lia|].
  by rewrite Z.abs_eq by lia.
Qed.

Lemma clearingPriceOf_last (wb : list (ObjectId * Bid.Doc)) :
  clearingPriceOf wb = match last wb with Some b => Bid.amount b.2 | None => 0 end.
Proof.
  unfold clearingPriceOf. destruct wb as [|x r]; [done|].
  replace (jsLength (x :: r) =? 0) with false
    by (symmetry; apply Z.eqb_neq; unfold jsLength; simpl; lia).
  by rewrite at_index_last.
Qed.

(** What [findWinnerBids] returns: bids of the store, active and of the
    auction, under distinct ids, none below the clearing price. *)
Lemma findWinnerBids_ok (auctionId : ObjectId) (n : Z) (w w' : World)
    (wb : list (ObjectId * Bid.Doc)) :
  findWinnerBids auctionId n w = (Ok wb, w') ->
  w' = w
  /\ NoDup wb.*1
  /\ (forall x, x ∈ wb -> bids (db w) !! x.1 = Some x.2
                          /\ Bid.auctionId x.2 = auctionId
                          /\ Bid.status x.2 = Bid.active
                          /\ clearingPriceOf wb <= Bid.amount x.2)
  /\ (bidsPositive (bids (db w)) -> 0 <= clearingPriceOf wb).
Proof.
  unfold findWinnerBids. destruct (Z.gtb_spec n 0) as [Hn|Hn].
  - intros H. apply bind_ok in H as (l & w1 & E & H). apply find_ok in E as [-> ->].
    apply ret_ok in H as [-> ->]. split; [done|].
    rewrite limit_positive by lia.
    set (found := List.filter _ _).
    assert (Hfound : forall x, x ∈ found -> bids (db w) !! x.1 = Some x.2
                                            /\ isActiveBidOf auctionId x.2 = true).
    { intros x Hx. by apply (elem_of_found (fun _ b => isActiveBidOf auctionId b)) in Hx. }
    assert (Hsub : forall x, x ∈ take (Z.to_nat n) (sortBy bidSortOrder found) -> x ∈ found).
    { intros x Hx. eapply (sortBy_elem_of bidSortOrder). by eapply subseteq_take. }
    assert (Hsorted : StronglySorted (cmpLe bidSortOrder)
                        (take (Z.to_nat n) (sortBy bidSortOrder found))).
    { apply sorted_take, sortBy_sorted; [apply bidSortOrder_total|apply bidSortOrder_trans]. }
    split_and!.
    + rewrite fmap_take. eapply sublist_NoDup; [|apply sublist_take].
      rewrite (sortBy_perm bidSortOrder found).
      apply (found_NoDup (fun _ b => isActiveBidOf auctionId b)).
    + intros x Hx. destruct (Hfound x (Hsub x Hx)) as [Hl Ha].
      unfold isActiveBidOf in Ha. apply andb_true_iff in Ha as [Ha Hs].
      apply N.eqb_eq in Ha. apply isBidStatus_true in Hs. split_and!; try done.
      rewrite clearingPriceOf_last.
      destruct (last _) as [z|] eqn:El; [|by apply last_None in El; rewrite El in Hx;
                                           apply not_elem_of_nil in Hx].
      apply bidSortOrder_amount.
      eapply (sorted_last bidSortOrder); eauto using bidSortOrder_refl.
    + intros Hp. rewrite clearingPriceOf_last.
      destruct (last _) as [z|] eqn:El; [|done].
      apply last_Some_elem_of, Hsub, Hfound in El as [El _]. apply Hp in El. lia.
  - intros H. apply ret_ok in H as [-> ->]. split_and!; try done.
    + constructor.
    + intros x Hx. by apply not_elem_of_nil in Hx.
Qed.

(** ** One more won bid *)

Lemma serialsExactly_win (bs : gmap ObjectId Bid.Doc) (id : ObjectId) (b0 b : Bid.Doc)
    (aid : ObjectId) (n : Z) :
  bs !! id = Some b0 -> Bid.status b0 <> Bid.won ->
  Bid.auctionId b = aid -> Bid.status b = Bid.won -> wonSerial b = Some (n + 1) ->
  0 <= n ->
  serialsExactly bs aid n -> serialsExactly (<[id := b]> bs) aid (n + 1).
Proof.
  intros Hl Hold Haid Hst Hser Hn (Ha & Hb & Hc). split_and!.
  - intros i b' Hi Hau Hw. destruct (decide (id = i)) as [->|Hne].
    + rewrite lookup_insert_eq in Hi. simplify_eq. exists (n + 1). split; [done|lia].
    + rewrite lookup_insert_ne in Hi by done.
      destruct (Ha i b' Hi Hau Hw) as (k & ? & ?). exists k. split; [done|lia].
  - intros i j b1 b2 k Hi Hj H1 H2 Hk1 Hk2.
    destruct (decide (id = i)) as [Ei|Ei], (decide (id = j)) as [Ej|Ej]; subst; [done| | |].
    + rewrite lookup_insert_eq in Hi. rewrite lookup_insert_ne in Hj by done. simplify_eq.
      destruct (Ha j b2 Hj H2 (wonSerial_won _ _ Hk2)) as (k' & ? & ?).
      simplify_eq. lia.
    + rewrite lookup_insert_eq in Hj. rewrite lookup_insert_ne in Hi by done. simplify_eq.
      destruct (Ha i b1 Hi H1 (wonSerial_won _ _ Hk1)) as (k' & ? & ?).
      simplify_eq. lia.
    + rewrite lookup_insert_ne in Hi, Hj by done. by eapply Hb.
  - intros k Hk. destruct (decide (k = n + 1)) as [->|Hne].
    + exists id, b. by rewrite lookup_insert_eq.
    + destruct (Hc k) as (i & b' & Hi & Hau & Hs); [lia|].
      exists i, b'. split_and!; try done.
      rewrite lookup_insert_ne; [done|]. intros ->. simplify_eq.
      by apply wonSerial_won in Hs.
Qed.

Lemma Inv_settling (d : Db) (aid : ObjectId) (a : Auction.Doc) :
  Inv d -> auctions d !! aid = Some a ->
  settling d aid (Auction.awardedCount a) d.
Proof.
  intros (Hu & Hp & Hq & Hr & Hs & Hc) Ha. unfold settling. split_and!; try done.
  - intros i b Hi. by exists b.
  - intros aid' a' Ha' _. by apply Hs.
  - by apply (Hs aid a).
  - by apply (Hs aid a).
Qed.

Lemma settling_rounds (d0 d : Db) (aid : ObjectId) (n : Z)
    (rs : gmap ObjectId Round.Doc) :
  settling d0 aid n d -> settling d0 aid n (setCol colRounds rs d).
Proof. done. Qed.

(** The settlement of the winner with serial [ac + k + 1]. *)
Lemma settleWinner_settling (d0 : Db) (auctionId : ObjectId) (auction : Auction.Doc)
    (clearingPrice now n : Z) (x : SettleWinner) (w w' : World) (u : unit) :
  settling d0 auctionId n (db w) ->
  (exists b0, bids d0 !! bidId x = Some b0 /\ Bid.auctionId b0 = auctionId) ->
  giftSerial x = n + 1 ->
  0 <= paid x <= amount x -> refunded x = amount x - paid x ->
  settleWinner auctionId auction clearingPrice now x w = (Ok u, w') ->
  settling d0 auctionId (n + 1) (db w').
Proof.
  intros (Hu & Hp & Hq & Hr & Hc & Hau & Hk & Hoth & Hn & Hs) (b0 & Hb0 & Hb0a)
    Hser Hpaid Href H.
  unfold settleWinner in H.
  repeat step H; tidy; simplify_eq;
    match goal with Hx : isBidStatus Bid.active _ = true |- _ =>
      pose proof (isBidStatus_true _ _ Hx) as Hst end;
    match goal with Hx : bids (db w) !! bidId x = Some ?d |- _ =>
      rename Hx into Hbid;
      destruct (Hk _ _ Hbid) as (b0' & Hb0' & Hka & Hku & Hkm); simplify_eq;
      assert (Hwon : wonSerial
                (Bid.set_status Bid.won
                   (Bid.set_updatedAt now
                      (Bid.set_settlement
                         (Some (Bid.mkSettlement (Auction.currentRound auction)
                                  (giftSerial x) clearingPrice (paid x)
                                  (refunded x) now)) d)))
              = Some (n + 1)) by (unfold wonSerial; simpl; by rewrite Hser)
    end;
    unfold settling; simpl_db; split_and!; try done;
    try (apply usersOk_insert; [done|]; rewrite Href;
         apply userOk_settle; [done|done|by eapply Hu]);
    try (apply bidsPositive_insert; [done|]; simpl; by eapply Hp);
    try (eapply bidsUnique_update; eauto; done);
    try (apply bidsRefer_bid; [done|]; simpl; by eapply Hr);
    try (intros i b Hi; destruct (decide (bidId x = i)) as [<-|Hne];
         [rewrite lookup_insert_eq in Hi; simplify_eq; eexists; split_and!; eauto
         |rewrite lookup_insert_ne in Hi by done; by apply Hk]);
    try (intros aid' a' Ha' Hne'; destruct (Hoth aid' a' Ha' Hne') as [? ?];
         split; [done|]; apply serialsExactly_other; [|simpl; congruence|done];
         intros ? ? ?; simplify_eq);
    try lia;
    eapply serialsExactly_win; eauto; by rewrite Hst.
Qed.

Lemma winnersOf_lookup (auction : Auction.Doc) (wb : list (ObjectId * Bid.Doc))
    (i : nat) (x : SettleWinner) :
  winnersOf auction wb !! i = Some x ->
  exists b, wb !! i = Some b
            /\ bidId x = b.1 /\ userId x = Bid.userId b.2 /\ amount x = Bid.amount b.2
            /\ giftSerial x = Auction.awardedCount auction + Z.of_nat i + 1
            /\ paid x = clearingPriceOf wb
            /\ refunded x = Bid.amount b.2 - clearingPriceOf wb.
Proof.
  unfold winnersOf. rewrite list_lookup_imap.
  destruct (wb !! i) as [b|]; [|done]. simpl. intros [= <-]. by exists b.
Qed.

Lemma winnersOf_length (auction : Auction.Doc) (wb : list (ObjectId * Bid.Doc)) :
  length (winnersOf auction wb) = length wb.
Proof. unfold winnersOf. apply length_imap. Qed.

(** The loop over the winners, from the [k]-th on. *)
Lemma settleWinners_settling (d0 : Db) (auctionId : ObjectId) (auction : Auction.Doc)
    (clearingPrice now n0 : Z) (ws : list SettleWinner) :
  forall (k : nat) (w w' : World) (u : unit),
    (forall i x, ws !! i = Some x ->
       (exists b0, bids d0 !! bidId x = Some b0 /\ Bid.auctionId b0 = auctionId)
       /\ giftSerial x = n0 + Z.of_nat (k + i) + 1
       /\ 0 <= paid x <= amount x /\ refunded x = amount x - paid x) ->
    settling d0 auctionId (n0 + Z.of_nat k) (db w) ->
    forEach ws (settleWinner auctionId auction clearingPrice now) w = (Ok u, w') ->
    settling d0 auctionId (n0 + Z.of_nat (k + length ws)) (db w').
Proof.
  induction ws as [|x ws IH]; intros k w w' u Hws HJ H; simpl in H.
  - apply ret_ok in H as [_ ->]. simpl. by rewrite Nat.add_0_r.
  - apply bind_ok in H as (u1 & w1 & E & H).
    destruct (Hws 0%nat x eq_refl) as (Hb & Hser & Hpaid & Href).
    eapply settleWinner_settling in E; eauto; [|rewrite Hser; lia].
    replace (n0 + Z.of_nat (k + length (x :: ws)))
      with (n0 + Z.of_nat (S k + length ws)) by (simpl; lia).
    eapply IH; [| |exact H].
    + intros i y Hy. destruct (Hws (S i) y Hy) as (? & Hs & ? & ?).
      split_and!; try done; try lia.
    + replace (n0 + Z.of_nat (S k)) with (n0 + Z.of_nat k + 1) by lia. exact E.
Qed.

(** The refund of a bid that lost keeps the state of the settlement. *)
Lemma refundLoser_settling (d0 : Db) (auctionId : ObjectId) (now n : Z)
    (b : ObjectId * Bid.Doc) (w w' : World) (u : unit) :
  0 < Bid.amount b.2 ->
  settling d0 auctionId n (db w) ->
  refundLoser auctionId now b w = (Ok u, w') ->
  settling d0 auctionId n (db w').
Proof.
  intros Hpos (Hu & Hp & Hq & Hr & Hc & Hau & Hk & Hoth & Hn & Hs) H.
  unfold refundLoser in H.
  repeat step H; tidy; simplify_eq.
  match goal with Hx : isBidStatus Bid.active _ = true |- _ =>
    pose proof (isBidStatus_true _ _ Hx) as Hst end.
  match goal with Hx : bids (db w) !! b.1 = Some ?d |- _ =>
    rename Hx into Hbid;
    destruct (bids_update_inv (bids (db w)) (auctions (db w)) b.1 d
                (Bid.set_status Bid.lost (Bid.set_updatedAt now d)))
      as (Bp & Bq & Br & _); try done;
      [simpl; by eapply Hp | by rewrite Hst |]
  end.
  unfold settling; simpl_db; split_and!; eauto.
  - apply usersOk_insert; [done|]. apply userOk_unreserve; [lia|done|by eapply Hu].
  - intros i b' Hi. destruct (decide (b.1 = i)) as [<-|Hne].
    + rewrite lookup_insert_eq in Hi. simplify_eq.
      destruct (Hk _ _ Hbid) as (b0 & ? & ? & ? & ?). exists b0. by split_and!.
    + rewrite lookup_insert_ne in Hi by done. by apply Hk.
  - intros aid' a' Ha' Hne'. destruct (Hoth aid' a' Ha' Hne') as [? ?].
    split; [done|]. apply serialsExactly_other; [|done|done].
    intros ? ? ?. simplify_eq. by rewrite Hst.
  - apply serialsExactly_other; [|done|done].
    intros ? ? ?. simplify_eq. by rewrite Hst.
Qed.
End SettleFacts.

Section Settle.
Import Auctions Engine.

(** The final write of a settlement brings [awardedCount] up to the
    serials handed out, and the invariants are whole again. *)
Lemma settling_finish (d0 d : Db) (aid : ObjectId) (n : Z) (a : Auction.Doc)
    (rs : gmap ObjectId Round.Doc) (ls : gmap ObjectId Ledger.Doc)
    (els : gmap string EngineLock.Doc) :
  settling d0 aid n d -> Auction.awardedCount a = n -> clampOk a ->
  Inv (mkDb (users d) (<[aid := a]> (auctions d)) (bids d) rs ls els).
Proof.
  intros (Hu & Hp & Hq & Hr & Hc & Hau & Hk & Hoth & Hn & Hs) Hac Hcl.
  unfold Inv; simpl_db; split_and!; try done.
  - by apply bidsRefer_auction.
  - intros j a' Hj. destruct (decide (aid = j)) as [<-|Hne].
    + rewrite lookup_insert_eq in Hj. injection Hj as <-. by rewrite Hac.
    + rewrite lookup_insert_ne in Hj by done. by apply Hoth.
  - by apply deadlineClamp_insert.
Qed.

Lemma settling_frame (d0 d : Db) (aid : ObjectId) (n : Z)
    (rs : gmap ObjectId Round.Doc) (ls : gmap ObjectId Ledger.Doc)
    (els : gmap string EngineLock.Doc) :
  settling d0 aid n d ->
  settling d0 aid n (mkDb (users d) (auctions d) (bids d) rs ls els).
Proof. done. Qed.

(** The winners of a settlement, as the loop needs them. *)
Lemma winnersOf_facts (auction : Auction.Doc) (auctionId : ObjectId) (d0 : Db)
    (wb : list (ObjectId * Bid.Doc)) :
  (forall x, x ∈ wb -> bids d0 !! x.1 = Some x.2
                       /\ Bid.auctionId x.2 = auctionId
                       /\ Bid.status x.2 = Bid.active
                       /\ clearingPriceOf wb <= Bid.amount x.2) ->
  0 <= clearingPriceOf wb ->
  forall i x, winnersOf auction wb !! i = Some x ->
    (exists b0, bids d0 !! bidId x = Some b0 /\ Bid.auctionId b0 = auctionId)
    /\ giftSerial x = Auction.awardedCount auction + Z.of_nat (0 + i) + 1
    /\ 0 <= paid x <= amount x /\ refunded x = amount x - paid x.
Proof.
  intros Hwb Hcp i x Hx.
  apply winnersOf_lookup in Hx as (b & Hb & Hid & Hu & Ham & Hser & Hpaid & Href).
  apply list_elem_of_lookup_2 in Hb. destruct (Hwb b Hb) as (Hl & Ha & _ & Hle).
  split_and!.
  - exists b.2. by rewrite Hid.
  - by rewrite Hser.
  - lia.
  - lia.
  - lia.
Qed.

Lemma settleClosingAuctionTxn_inv (auctionId closingToken : ObjectId) (w w' : World) u :
  Inv (db w) -> settleClosingAuctionTxn auctionId closingToken w = (Ok u, w') ->
  Inv (db w').
Proof.
  intros HI H. unfold settleClosingAuctionTxn in H.
  repeat step H; tidy; simplify_eq; [| |done].
  - (* the auction ends *)
    match goal with E : findWinnerBids _ _ _ = _ |- _ =>
      apply findWinnerBids_ok in E as (-> & Hnd & Hwb & Hcp) end.
    match goal with E : forEach (winnersOf _ _) _ _ = _ |- _ =>
      eapply (settleWinners_settling (db w) auctionId _ _ _ (Auction.awardedCount d) _ 0%nat)
        in E end.
    2: { apply winnersOf_facts; [done|]. apply Hcp, HI. }
    2: { apply settling_frame. rewrite Z.add_0_r. by apply Inv_settling. }
    match goal with E : settling _ _ _ (db ?w1) |- _ =>
      assert (Hp1 : bidsPositive (bids (db w1))) by apply E end.
    match goal with E : forEach (List.filter _ _) _ _ = _ |- _ =>
      eapply (forEach_ok (fun w' => settling (db w) auctionId _ (db w'))) in E;
        [|intros b wa wb u' Hb HJ Hrun; eapply refundLoser_settling; [|exact HJ|exact Hrun];
          by eapply (found_bids_positive (fun _ b => isActiveBidOf auctionId b))
         |eassumption] end.
    eapply settling_finish; [eassumption| |by intros ? ? ?].
    simpl. unfold jsLength. lia.
  - (* the next round opens *)
    match goal with E : findWinnerBids _ _ _ = _ |- _ =>
      apply findWinnerBids_ok in E as (-> & Hnd & Hwb & Hcp) end.
    match goal with E : forEach (winnersOf _ _) _ _ = _ |- _ =>
      eapply (settleWinners_settling (db w) auctionId _ _ _ (Auction.awardedCount d) _ 0%nat)
        in E end.
    2: { apply winnersOf_facts; [done|]. apply Hcp, HI. }
    2: { apply settling_frame. rewrite Z.add_0_r. by apply Inv_settling. }
    eapply settling_finish; [eassumption| |].
    + simpl. unfold jsLength. lia.
    + intros e r. simpl. intros He [= <-].
      match goal with E : settling _ _ _ (db ?w1), Hx : auctions (db ?w1) !! _ = Some ?a |- _ =>
        destruct E as (_ & _ & _ & _ & _ & Hau & _); rewrite Hau in Hx; simplify_eq end.
      rewrite He. clear C.
      match goal with |- (if ?c then _ else _) <= _ => destruct c eqn:? end; zbool; lia.
Qed.

Lemma settleClosingAuction_inv (auctionId closingToken : ObjectId) (w w' : World) r :
  Inv (db w) -> settleClosingAuction auctionId closingToken w = (r, w') -> Inv (db w').
Proof.
  intros HI H. unfold settleClosingAuction in H.
  apply tryCatch_run in H as [(a & H & _)|(e & w1 & H & Hh)].
  - eapply withTxn_preserves in H; [done| |done].
    intros ? ? ?. apply settleClosingAuctionTxn_inv.
  - eapply withTxn_preserves in H; [| |done].
    + destruct (isDuplicateRoundSettlement e).
      * unfold logInfo in Hh. by inversion Hh.
      * unfold logError in Hh. by inversion Hh.
    + intros ? ? ?. apply settleClosingAuctionTxn_inv.
Qed.
End Settle.

Section Keeps.
Import Auctions Engine System.

Lemma keepsInv_ret {A} (a : A) : keepsInv (ret a).
Proof. intros w r w' HI. unfold ret. by intros [= <- <-]. Qed.

Lemma keepsInv_throw {A} (e : Thrown) : keepsInv (@throw A e).
Proof. intros w r w' HI. unfold throw. by intros [= <- <-]. Qed.

Lemma keepsInv_bind {A B} (m : M A) (k : A -> M B) :
  keepsInv m -> (forall a, keepsInv (k a)) -> keepsInv (bind m k).
Proof.
  intros Hm Hk w r w' HI. unfold bind.
  destruct (m w) as [[a|e] w1] eqn:E.
  - apply Hk. by eapply Hm.
  - intros [= <- <-]. by eapply Hm.
Qed.

Lemma keepsInv_tryCatch {A} (m : M A) (h : Thrown -> M A) :
  keepsInv m -> (forall e, keepsInv (h e)) -> keepsInv (tryCatch m h).
Proof.
  intros Hm Hh w r w' HI. unfold tryCatch.
  destruct (m w) as [[a|e] w1] eqn:E.
  - intros [= <- <-]. by eapply Hm.
  - apply Hh. by eapply Hm.
Qed.

Lemma keepsInv_forEach {X} (l : list X) (body : X -> M unit) :
  (forall x, keepsInv (body x)) -> keepsInv (forEach l body).
Proof.
  intros Hb. induction l as [|x l IH]; simpl.
  - apply keepsInv_ret.
  - apply keepsInv_bind; [apply Hb | intros _; apply IH].
Qed.

Lemma keepsInv_log (m : M unit) :
  (forall w r w', m w = (r, w') -> db w' = db w) -> keepsInv m.
Proof. intros Hm w r w' HI H. by rewrite (Hm _ _ _ H). Qed.

Lemma keepsInv_newDate : keepsInv newDate.
Proof. intros w r w' HI. unfold newDate. by intros [= <- <-]. Qed.

Lemma keepsInv_newObjectId : keepsInv newObjectId.
Proof. intros w r w' HI. unfold newObjectId. by intros [= <- <-]. Qed.

Lemma keepsInv_logInfo (msg : string) : keepsInv (logInfo msg).
Proof. intros w r w' HI. unfold logInfo. by intros [= <- <-]. Qed.

Lemma keepsInv_logError (msg : string) : keepsInv (logError msg).
Proof. intros w r w' HI. unfold logError. by intros [= <- <-]. Qed.

Lemma keepsInv_find {D} (col : Collection D) (f : ObjectId -> D -> bool) :
  keepsInv (find col f).
Proof. intros w r w' HI. unfold find, bind, readDb, ret. by intros [= <- <-]. Qed.

Lemma keepsInv_tryAcquireEngineLock (ownerId : ObjectId) (ttlMs now : Z) :
  keepsInv (tryAcquireEngineLock ownerId ttlMs now).
Proof.
  intros w r w' HI. unfold tryAcquireEngineLock, tryCatch, bind, readDb, writeDb, ret, throw.
  simpl. destruct (engineLocks (db w) !! "auctionEngine") as [d|].
  - destruct (_ || _); simpl; by intros [= <- <-].
  - by intros [= <- <-].
Qed.

Lemma keepsInv_settle (auctionId closingToken : ObjectId) :
  keepsInv (settleClosingAuction auctionId closingToken).
Proof. intros w r w'. apply settleClosingAuction_inv. Qed.

Lemma keepsInv_tickBody (e : EngineState) : keepsInv (tickBody e).
Proof.
  unfold tickBody.
  apply keepsInv_bind; [apply keepsInv_newDate|]. intros now.
  apply keepsInv_bind; [apply keepsInv_tryAcquireEngineLock|]. intros isLeader.
  destruct isLeader; simpl.
  - apply keepsInv_bind.
    { destruct (negb (leader e)); [apply keepsInv_logInfo | apply keepsInv_ret]. }
    intros _. apply keepsInv_bind; [apply keepsInv_find|]. intros found.
    apply keepsInv_bind.
    { apply keepsInv_forEach. intros a.
      destruct (Auction.closingToken a.2); [apply keepsInv_settle | apply keepsInv_ret]. }
    intros _. apply keepsInv_bind; [apply keepsInv_find|]. intros foundDue.
    apply keepsInv_bind; [|intros _; apply keepsInv_ret].
    apply keepsInv_forEach. intros a.
    apply keepsInv_bind; [apply keepsInv_newObjectId|]. intros token.
    apply keepsInv_bind; [intros w r w'; apply lockDueRound_inv|]. intros lock.
    destruct lock; [apply keepsInv_settle | apply keepsInv_ret].
  - apply keepsInv_bind; [|intros _; apply keepsInv_ret].
    destruct (leader e); [apply keepsInv_logInfo | apply keepsInv_ret].
Qed.

Lemma keepsInv_tick (e : EngineState) : keepsInv (tick e).
Proof.
  unfold tick. destruct (stopped e || inFlight e); [apply keepsInv_ret|].
  apply keepsInv_bind; [|intros l; apply keepsInv_ret].
  apply keepsInv_tryCatch; [apply keepsInv_tickBody|].
  intros err. apply keepsInv_bind; [apply keepsInv_logError | intros _; apply keepsInv_ret].
Qed.

Lemma Inv_empty : Inv emptyDb.
Proof.
  unfold Inv, emptyDb; simpl. split_and!; intros ?; intros; by simplify_map_eq.
Qed.

Lemma applyOp_inv (op : Op) (w : World) : Inv (db w) -> Inv (db (applyOp op w)).
Proof.
  intros HI. destruct op; unfold applyOp, exec.
  - done.
  - destruct (Users.createUser w) eqn:E. by eapply createUser_inv.
  - destruct (Users.topupUser _ _ w) eqn:E. by eapply topupUser_inv.
  - destruct (createAuction _ w) eqn:E. by eapply createAuction_inv.
  - destruct (startAuction _ w) eqn:E. by eapply startAuction_inv.
  - destruct (cancelAuction _ w) eqn:E. by eapply cancelAuction_inv.
  - destruct (placeBid _ _ _ w) eqn:E. by eapply placeBid_inv.
  - destruct (withdrawBid _ _ w) eqn:E. by eapply withdrawBid_inv.
  - destruct (lockDue _ w) eqn:E. by eapply lockDue_inv.
  - destruct (settleClosingAuction _ _ w) eqn:E. by eapply settleClosingAuction_inv.
  - destruct (tick _ w) eqn:E. by eapply keepsInv_tick.
Qed.

Lemma run_inv (ops : list Op) (w : World) : Inv (db w) -> Inv (db (run ops w)).
Proof.
  revert w. induction ops as [|op ops IH]; intros w HI; [done|].
  simpl. apply IH. by apply applyOp_inv.
Qed.

Lemma reachable_inv (ops : list Op) : Inv (db (run ops initialWorld)).
Proof. apply run_inv, Inv_empty. Qed.
End Keeps.

Section SettleEffects.
Import Auctions Engine.

(** The bid document a winner's bid becomes. *)
Lemma settleWinner_effect (auctionId : ObjectId) (auction : Auction.Doc)
    (clearingPrice now : Z) (x : SettleWinner) (w w' : World) (u : unit) :
  settleWinner auctionId auction clearingPrice now x w = (Ok u, w') ->
  exists d u0,
    bids (db w) !! bidId x = Some d /\ Bid.status d = Bid.active
    /\ users (db w) !! userId x = Some u0 /\ amount x <= User.reserved (User.balance u0)
    /\ bids (db w')
       = <[bidId x :=
             Bid.set_status Bid.won
               (Bid.set_updatedAt now
                  (Bid.set_settlement
                     (Some (Bid.mkSettlement (Auction.currentRound auction) (giftSerial x)
                              clearingPrice (paid x) (refunded x) now)) d))]>
           (bids (db w))
    /\ users (db w')
       = <[userId x := User.incBalance (refunded x) (- amount x) (paid x) u0]> (users (db w))
    /\ auctions (db w') = auctions (db w)
    /\ rounds (db w') = rounds (db w).
Proof.
  intros H. unfold settleWinner in H.
  repeat step H; tidy; simplify_eq;
    match goal with
    | Hb : bids (db w) !! bidId x = Some ?d, Hu : users (db w) !! userId x = Some ?u0,
      Hs : isBidStatus Bid.active ?d = true, Hr : hasReserved _ ?u0 = true |- _ =>
        exists d, u0; apply isBidStatus_true in Hs; unfold hasReserved in Hr; zbool;
        by split_and!
    end.
Qed.

Lemma refundLoser_effect (auctionId : ObjectId) (now : Z) (b : ObjectId * Bid.Doc)
    (w w' : World) (u : unit) :
  refundLoser auctionId now b w = (Ok u, w') ->
  exists d u0,
    bids (db w) !! b.1 = Some d /\ Bid.status d = Bid.active
    /\ users (db w) !! Bid.userId b.2 = Some u0
    /\ bids (db w') = <[b.1 := Bid.set_status Bid.lost (Bid.set_updatedAt now d)]> (bids (db w))
    /\ users (db w')
       = <[Bid.userId b.2 := User.incBalance (Bid.amount b.2) (- Bid.amount b.2) 0 u0]>
           (users (db w))
    /\ auctions (db w') = auctions (db w)
    /\ rounds (db w') = rounds (db w).
Proof.
  intros H. unfold refundLoser in H.
  repeat step H; tidy; simplify_eq;
    match goal with
    | Hb : bids (db w) !! b.1 = Some ?d, Hu : users (db w) !! _ = Some ?u0,
      Hs : isBidStatus Bid.active ?d = true |- _ =>
        exists d, u0; apply isBidStatus_true in Hs; by split_and!
    end.
Qed.

Lemma wonKept_refl (d : Db) : wonKept d d.
Proof. by intros i b. Qed.

Lemma wonKept_trans (d1 d2 d3 : Db) : wonKept d1 d2 -> wonKept d2 d3 -> wonKept d1 d3.
Proof. intros H12 H23 i b Hi Hw. apply H23; [|done]. by apply H12. Qed.

Lemma wonKept_update (d d' : Db) (id : ObjectId) (b0 b : Bid.Doc) :
  bids d !! id = Some b0 -> Bid.status b0 <> Bid.won ->
  bids d' = <[id := b]> (bids d) -> wonKept d d'.
Proof.
  intros Hl Hs Hd i b' Hi Hw. rewrite Hd.
  destruct (decide (id = i)) as [->|Hne]; [by simplify_eq|].
  by rewrite lookup_insert_ne.
Qed.

(** The loop over the winners: what has become of their bids, and that
    nothing else of the settlement's concern has moved. *)
Lemma settleWinners_bids (auctionId : ObjectId) (auction : Auction.Doc)
    (clearingPrice now : Z) (ws : list SettleWinner) :
  forall (w w' : World) (u : unit),
    forEach ws (settleWinner auctionId auction clearingPrice now) w = (Ok u, w') ->
    (forall x, x ∈ ws ->
       exists d d', bids (db w) !! bidId x = Some d
                    /\ bids (db w') !! bidId x = Some d'
                    /\ Bid.auctionId d' = Bid.auctionId d /\ Bid.userId d' = Bid.userId d
                    /\ Bid.status d' = Bid.won
                    /\ wonSerial d' = Some (giftSerial x))
    /\ wonKept (db w) (db w')
    /\ (forall i b', bids (db w') !! i = Some b' ->
          exists b, bids (db w) !! i = Some b /\ Bid.auctionId b = Bid.auctionId b'
                    /\ Bid.userId b = Bid.userId b'
                    /\ (Bid.status b' = Bid.active -> b' = b))
    /\ auctions (db w') = auctions (db w)
    /\ rounds (db w') = rounds (db w).
Proof.
  induction ws as [|x ws IH]; intros w w' u H; simpl in H.
  - apply ret_ok in H as [_ ->]. split_and!; try done.
    + intros x Hx. by apply elem_of_nil in Hx.
    + apply wonKept_refl.
    + intros i b' Hi. by exists b'.
  - apply bind_ok in H as (u1 & w1 & E & H).
    apply settleWinner_effect in E
      as (d & u0 & Hd & Hst & Hu0 & Hres & Hbids & Husers & Hau & Hro).
    destruct (IH _ _ _ H) as (Hws & Hkept & Hkeys & Hau' & Hro').
    assert (Hk1 : wonKept (db w) (db w1))
      by (eapply wonKept_update; [exact Hd | by rewrite Hst | exact Hbids]).
    split_and!.
    + intros y Hy. apply elem_of_cons in Hy as [->|Hy].
      * exists d. eexists. split_and!; [done| | | | |].
        -- apply Hkept; [rewrite Hbids; apply lookup_insert_eq | done].
        -- done.
        -- done.
        -- done.
        -- done.
      * destruct (Hws y Hy) as (d1 & d' & Hd1 & Hd' & Ha & Hu & Hs & Hser).
        rewrite Hbids in Hd1.
        destruct (decide (bidId x = bidId y)) as [Heq|Hne].
        -- rewrite Heq, lookup_insert_eq in Hd1. injection Hd1 as <-.
           simpl in Ha, Hu. rewrite Heq in Hd. exists d, d'. by split_and!.
        -- rewrite lookup_insert_ne in Hd1 by done. exists d1, d'. by split_and!.
    + by eapply wonKept_trans.
    + intros i b' Hi. destruct (Hkeys i b' Hi) as (b1 & Hb1 & Ha & Hu & Hact).
      rewrite Hbids in Hb1. destruct (decide (bidId x = i)) as [<-|Hne].
      * rewrite lookup_insert_eq in Hb1. simplify_eq. exists d. split_and!; try done.
        intros Hact'. specialize (Hact Hact'). subst b'. done.
      * rewrite lookup_insert_ne in Hb1 by done. exists b1. by split_and!.
    + by rewrite Hau'.
    + by rewrite Hro'.
Qed.

(** The loop over the winners, on the balances: each winner's user is
    charged once when no two winners share a user. *)
Lemma settleWinners_users (auctionId : ObjectId) (auction : Auction.Doc)
    (clearingPrice now : Z) (ws : list SettleWinner) :
  forall (w w' : World) (u : unit),
    NoDup (userId <$> ws) ->
    forEach ws (settleWinner auctionId auction clearingPrice now) w = (Ok u, w') ->
    (forall x, x ∈ ws ->
       exists u0, users (db w) !! userId x = Some u0
                  /\ amount x <= User.reserved (User.balance u0)
                  /\ users (db w') !! userId x
                     = Some (User.incBalance (refunded x) (- amount x) (paid x) u0))
    /\ (forall uid, uid ∉ userId <$> ws -> users (db w') !! uid = users (db w) !! uid).
Proof.
  induction ws as [|x ws IH]; intros w w' u Hnd H; simpl in H.
  - apply ret_ok in H as [_ ->]. split; [|done].
    intros x Hx. by apply elem_of_nil in Hx.
  - apply bind_ok in H as (u1 & w1 & E & H).
    apply settleWinner_effect in E
      as (d & u0 & Hd & Hst & Hu0 & Hres & Hbids & Husers & Hau & Hro).
    rewrite fmap_cons in Hnd. apply NoDup_cons in Hnd as [Hx Hnd].
    destruct (IH _ _ _ Hnd H) as (Hws & Hframe). split.
    + intros y Hy. apply elem_of_cons in Hy as [->|Hy].
      * exists u0. split_and!; [done|done|].
        rewrite (Hframe _ Hx), Husers. apply lookup_insert_eq.
      * destruct (Hws y Hy) as (uy & Huy & Hry & Huy').
        rewrite Husers, lookup_insert_ne in Huy; [by exists uy|].
        intros Heq. apply Hx. rewrite Heq. apply list_elem_of_fmap. by exists y.
    + intros uid Huid. rewrite fmap_cons in Huid.
      apply not_elem_of_cons in Huid as [Hne Huid].
      rewrite (Hframe _ Huid), Husers. by rewrite lookup_insert_ne.
Qed.

(** The loop over the bids that lost. *)
Lemma refundLosers_effects (auctionId : ObjectId) (now : Z)
    (l : list (ObjectId * Bid.Doc)) :
  forall (w w' : World) (u : unit),
    forEach l (refundLoser auctionId now) w = (Ok u, w') ->
    wonKept (db w) (db w')
    /\ (forall uid, (forall b, b ∈ l -> Bid.userId b.2 <> uid) ->
                    users (db w') !! uid = users (db w) !! uid)
    /\ auctions (db w') = auctions (db w)
    /\ rounds (db w') = rounds (db w).
Proof.
  induction l as [|b l IH]; intros w w' u H; simpl in H.
  - apply ret_ok in H as [_ ->]. split_and!; try done. apply wonKept_refl.
  - apply bind_ok in H as (u1 & w1 & E & H).
    apply refundLoser_effect in E as (d & u0 & Hd & Hst & Hu0 & Hbids & Husers & Hau & Hro).
    destruct (IH _ _ _ H) as (Hkept & Hframe & Hau' & Hro'). split_and!.
    + eapply wonKept_trans; [|exact Hkept].
      eapply wonKept_update; [exact Hd | by rewrite Hst | exact Hbids].
    + intros uid Huid. rewrite Hframe, Husers.
      * rewrite lookup_insert_ne; [done|]. apply Huid. left.
      * intros b' Hb'. apply Huid. by right.
    + by rewrite Hau'.
    + by rewrite Hro'.
Qed.
End SettleEffects.

Section SettleWhole.
Import Auctions Engine.

Lemma winnersOf_users_NoDup (auction : Auction.Doc) (auctionId : ObjectId)
    (bs : gmap ObjectId Bid.Doc) (wb : list (ObjectId * Bid.Doc)) :
  bidsUnique bs -> NoDup wb.*1 ->
  (forall x, x ∈ wb -> bs !! x.1 = Some x.2 /\ Bid.auctionId x.2 = auctionId) ->
  NoDup (userId <$> winnersOf auction wb).
Proof.
  intros Hq Hnd Hwb. apply NoDup_alt. intros i j uid Hi Hj.
  rewrite list_lookup_fmap in Hi, Hj.
  destruct (winnersOf auction wb !! i) as [xi|] eqn:Ei; [|done].
  destruct (winnersOf auction wb !! j) as [xj|] eqn:Ej; [|done].
  simpl in Hi, Hj. simplify_eq.
  apply winnersOf_lookup in Ei as (bi & Hbi & _ & Hui & _).
  apply winnersOf_lookup in Ej as (bj & Hbj & _ & Huj & _).
  destruct (Hwb bi) as [Hli Hai]; [by eapply list_elem_of_lookup_2|].
  destruct (Hwb bj) as [Hlj Haj]; [by eapply list_elem_of_lookup_2|].
  assert (bi.1 = bj.1) as Heq by (eapply Hq; eauto; congruence).
  eapply (NoDup_lookup wb.*1); [done| |]; rewrite list_lookup_fmap.
  - by rewrite Hbi.
  - rewrite Hbj. simpl. by rewrite Heq.
Qed.

Lemma settleClosingAuctionTxn_effects (auctionId closingToken : ObjectId)
    (w w' : World) (u : unit) (a : Auction.Doc) :
  Inv (db w) ->
  auctions (db w) !! auctionId = Some a -> isClosingWith closingToken a = true ->
  settleClosingAuctionTxn auctionId closingToken w = (Ok u, w') ->
  exists wb a',
    findWinnerBids auctionId
      (Z.min (Auction.winnersPerRound (Auction.config a))
             (Z.max 0 (Auction.totalQuantity a - Auction.awardedCount a))) w = (Ok wb, w)
    /\ rounds (db w) !! oidGen w = None
    /\ rounds (db w')
       = <[oidGen w :=
             Round.mkDoc auctionId (Auction.currentRound a) (clock w) (clearingPriceOf wb)
               (map (fun x => Round.mkWinner (userId x) (amount x) (giftSerial x)
                                (paid x) (refunded x))
                    (winnersOf a wb))]> (rounds (db w))
    /\ auctions (db w') = <[auctionId := a']> (auctions (db w))
    /\ Auction.awardedCount a' = Auction.awardedCount a + Z.of_nat (length (winnersOf a wb))
    /\ Auction.closingToken a' = None
    /\ (forall x, x ∈ winnersOf a wb ->
          (exists d', bids (db w') !! bidId x = Some d' /\ Bid.status d' = Bid.won
                      /\ wonSerial d' = Some (giftSerial x))
          /\ (exists u0, users (db w) !! userId x = Some u0
                         /\ amount x <= User.reserved (User.balance u0)
                         /\ users (db w') !! userId x
                            = Some (User.incBalance (refunded x) (- amount x) (paid x) u0))).
Proof.
  intros HI Ha Hcl H. unfold settleClosingAuctionTxn in H.
  repeat step H; tidy; simplify_eq.
  - (* the auction ends *)
    match goal with E : findWinnerBids _ _ _ = _ |- _ =>
      pose proof E as Efind;
      apply findWinnerBids_ok in E as (-> & Hnd & Hwb & Hcp) end.
    match goal with E : forEach (winnersOf _ _) _ _ = _ |- _ =>
      pose proof (settleWinners_bids _ _ _ _ _ _ _ _ E) as (Wb & Wk & Wkeys & Wau & Wro);
      pose proof (settleWinners_users _ _ _ _ _ _ _ _
                    (winnersOf_users_NoDup a auctionId (bids (db w)) x
                       (proj1 (proj2 (proj2 HI))) Hnd
                       (fun y Hy => conj (proj1 (Hwb y Hy)) (proj1 (proj2 (Hwb y Hy)))))
                    E) as (Wu & Wf);
      eapply (settleWinners_settling (db w) auctionId _ _ _ (Auction.awardedCount a) _ 0%nat)
        in E end.
    2: { apply winnersOf_facts; [done|]. apply Hcp, HI. }
    2: { apply settling_frame. rewrite Z.add_0_r. by apply Inv_settling. }
    simpl_db.
    match goal with E : forEach (List.filter _ _) _ _ = _ |- _ =>
      pose proof (refundLosers_effects _ _ _ _ _ _ E) as (Rk & Rf & Rau & Rro) end.
    eexists x, _. split_and!; [done|done| | | | |].
    + rewrite Rro, Wro. done.
    + rewrite Rau, Wau. done.
    + simpl. unfold jsLength. lia.
    + done.
    + intros y Hy. split.
      * destruct (Wb y Hy) as (d0 & d' & Hd0 & Hd' & _ & _ & Hs & Hser).
        exists d'. split_and!; [|done|done]. by apply Rk.
      * destruct (Wu y Hy) as (u0 & Hu0 & Hres & Hu').
        exists u0. split_and!; [done|done|].
        rewrite Rf; [done|].
        intros b Hb Heq.
        apply (elem_of_found (fun _ b => isActiveBidOf auctionId b)) in Hb as [Hb Hact].
        unfold isActiveBidOf in Hact. apply andb_true_iff in Hact as [Hba Hbs].
        apply N.eqb_eq in Hba. apply isBidStatus_true in Hbs.
        destruct (Wb y Hy) as (d0 & d' & Hd0 & Hd' & Hda & Hdu & Hs & _).
        apply list_elem_of_lookup in Hy as [i Hi].
        apply winnersOf_lookup in Hi as (b0 & Hb0 & Hid & Hyu & _).
        apply list_elem_of_lookup_2 in Hb0. destruct (Hwb b0 Hb0) as (Hl0 & Ha0 & _).
        rewrite Hid in Hd0. simplify_eq.
        match goal with E : settling _ _ _ (db ?w1) |- _ =>
          destruct E as (_ & _ & Hq1 & _) end.
        assert (b.1 = bidId y) as Hsame by (eapply Hq1; eauto; congruence).
        rewrite Hsame in Hb. simplify_eq. congruence.
  - (* the next round opens *)
    match goal with E : findWinnerBids _ _ _ = _ |- _ =>
      pose proof E as Efind;
      apply findWinnerBids_ok in E as (-> & Hnd & Hwb & Hcp) end.
    match goal with E : forEach (winnersOf _ _) _ _ = _ |- _ =>
      pose proof (settleWinners_bids _ _ _ _ _ _ _ _ E) as (Wb & Wk & Wkeys & Wau & Wro);
      pose proof (settleWinners_users _ _ _ _ _ _ _ _
                    (winnersOf_users_NoDup a auctionId (bids (db w)) x
                       (proj1 (proj2 (proj2 HI))) Hnd
                       (fun y Hy => conj (proj1 (Hwb y Hy)) (proj1 (proj2 (Hwb y Hy)))))
                    E) as (Wu & Wf)
    end.
    simpl_db.
    eexists x, _. split_and!; [done|done| | | | |].
    + rewrite Wro. done.
    + rewrite Wau. done.
    + simpl. unfold jsLength. lia.
    + done.
    + intros y Hy. split.
      * destruct (Wb y Hy) as (d0 & d' & Hd0 & Hd' & _ & _ & Hs & Hser). by exists d'.
      * destruct (Wu y Hy) as (u0 & Hu0 & Hres & Hu'). by exists u0.
  - (* the auction was found above *)
    match goal with Hn : forall d, auctions (db w) !! auctionId = Some d -> _ |- _ =>
      specialize (Hn a Ha); congruence end.
Qed.
End SettleWhole.

(** * What a bid reads and writes *)

Section PlaceBidFacts.
Import Auctions Engine System.

(** What a run of the body of [placeBid] that returns has read and
    written; [old] is the [oldAmount] of the source. *)
Lemma placeBidTxn_effects (auctionId userId : ObjectId) (newAmount : Z) (w w' : World)
    (res : Auction.Doc * (ObjectId * Bid.Doc)) :
  placeBidTxn auctionId userId newAmount w = (Ok res, w') ->
  exists (a : Auction.Doc) (r old : Z) (u0 : User.Doc),
    auctions (db w) !! auctionId = Some a
    /\ Auction.roundEndsAt a = Some r
    /\ clock w < r
    /\ res.1 = Auction.set_version (Auction.version a + 1)
                 (maxRoundEndsAt (antiSnipeEndsAt a r (clock w))
                    (Auction.set_updatedAt (clock w) a))
    /\ auctions (db w') = <[auctionId := res.1]> (auctions (db w))
    /\ bids (db w') = <[res.2.1 := res.2.2]> (bids (db w))
    /\ Bid.auctionId res.2.2 = auctionId
    /\ Bid.userId res.2.2 = userId
    /\ Bid.amount res.2.2 = newAmount
    /\ Bid.status res.2.2 = Bid.active
    /\ old < newAmount
    /\ match bids (db w) !! res.2.1 with
       | Some b0 =>
           Bid.auctionId b0 = auctionId /\ Bid.userId b0 = userId
           /\ (Bid.status b0 = Bid.active /\ old = Bid.amount b0
               \/ Bid.status b0 = Bid.withdrawn /\ old = 0)
       | None =>
           old = 0
           /\ forall i b, bids (db w) !! i = Some b ->
                Bid.auctionId b = auctionId -> Bid.userId b = userId -> False
       end
    /\ users (db w) !! userId = Some u0
    /\ newAmount - old <= User.available (User.balance u0)
    /\ users (db w')
       = <[userId := User.incBalance (- (newAmount - old)) (newAmount - old) 0 u0]>
           (users (db w)).
Proof.
  intros H. unfold placeBidTxn in H.
  repeat step H; tidy; simplify_eq.
  - match goal with Hx : (_ =? _)%N && (_ =? _)%N = true, Hy : bids _ !! _ = Some _ |- _ =>
      apply andb_true_iff in Hx as [Ha Hu]; rename Hy into Hbid end.
    apply N.eqb_eq in Ha, Hu.
    match goal with Hx : isBidStatus Bid.active _ = true |- _ =>
      pose proof (isBidStatus_true _ _ Hx) as Hst end.
    match goal with Hx : hasAvailable _ _ = true |- _ => unfold hasAvailable in Hx end.
    zbool. exists d, z, (Bid.amount p.2), x. simpl. rewrite Hbid.
    split_and!; try done; try lia. left. by split.
  - match goal with Hx : (_ =? _)%N && (_ =? _)%N = true, Hy : bids _ !! _ = Some _ |- _ =>
      apply andb_true_iff in Hx as [Ha Hu]; rename Hy into Hbid end.
    apply N.eqb_eq in Ha, Hu.
    match goal with Hx : isBidStatus Bid.withdrawn _ = true |- _ =>
      pose proof (isBidStatus_true _ _ Hx) as Hst end.
    match goal with Hx : hasAvailable _ _ = true |- _ => unfold hasAvailable in Hx end.
    zbool. exists d, z, 0, x. simpl. rewrite Hbid.
    split_and!; try done; try lia. right. by split.
  - match goal with Hx : hasAvailable _ _ = true |- _ => unfold hasAvailable in Hx end.
    match goal with Hx : bids _ !! _ = None |- _ => rename Hx into Hbid end.
    zbool. exists d, z, 0, x. simpl. rewrite Hbid.
    split_and!; try done; try lia.
    intros i b Hb Ha Hu.
    match goal with Hx : forall k d, _ -> _ = false |- _ => specialize (Hx i b Hb) end.
    simpl in *. subst.
    match goal with Hx : (_ =? _)%N && (_ =? _)%N = false |- _ => rewrite !N.eqb_refl in Hx end. done.
Qed.
End PlaceBidFacts.

(** * How a bid fails *)

Section PlaceBidFailures.
Import Auctions Engine System.

(** An [AppError] of the body is not retried: it leaves [withTxn] at the
    first attempt. *)
Lemma withTxn_appError {A} (fn : M A) (retry : option bool) (w : World)
    (code : AppErrorCode) (message : string) (status : Z) :
  fn w = (Throw (appError code message status), w) ->
  withTxn fn (mkTxnOptions None retry) w = (Throw (appError code message status), w).
Proof.
  intros H. unfold withTxn. cbn [default maxAttempts withTxnAttempts]. rewrite H.
  cbn. rewrite andb_false_r. unfold abortTo. by destruct w.
Qed.

Lemma findFirst_total {D} (col : Collection D) (f : ObjectId -> D -> bool) (w : World) :
  exists r, findFirst col f w = (Ok r, w).
Proof. unfold findFirst, find, bind, readDb, ret. eauto. Qed.

(** The body of [placeBid] up to the amount checks, on an auction that is
    open for bids. *)
Lemma placeBidTxn_open (auctionId userId : ObjectId) (newAmount : Z) (w : World)
    (a : Auction.Doc) (r : Z) (existing : option (ObjectId * Bid.Doc)) :
  auctions (db w) !! auctionId = Some a ->
  Auction.roundEndsAt a = Some r ->
  Auction.state a = Auction.running ->
  Auction.roundState a = Some Auction.open ->
  clock w < r ->
  findFirst colBids
    (fun _ b => (Bid.auctionId b =? auctionId)%N && (Bid.userId b =? userId)%N) w
  = (Ok existing, w) ->
  match existing with
  | Some e => Bid.status e.2 = Bid.active \/ Bid.status e.2 = Bid.withdrawn
  | None => True
  end ->
  let old := match existing with
             | Some e => if isBidStatus Bid.active e.2 then Bid.amount e.2 else 0
             | None => 0
             end in
  (newAmount <= old ->
   placeBidTxn auctionId userId newAmount w
   = (Throw (appError INVALID_INPUT
               "New amount must be greater than previous amount" 400), w))
  /\ (old < newAmount ->
      (forall u0, users (db w) !! userId = Some u0 ->
                  User.available (User.balance u0) < newAmount - old) ->
      placeBidTxn auctionId userId newAmount w
      = (Throw (appError INSUFFICIENT_FUNDS
                  "Insufficient funds or user not found" 409), w)).
Proof.
  intros Ha Hr Hst Hrs Hnow Hfind Hex old.
  assert (Hhead : forall B (k : option (ObjectId * Bid.Doc) -> M B),
             bind (findFirst colBids
                     (fun _ b => (Bid.auctionId b =? auctionId)%N
                                 && (Bid.userId b =? userId)%N)) k w = k existing w)
    by (intros; by apply bind_run).
  split.
  - intros Hle. unfold placeBidTxn.
    rewrite (bind_run _ _ w w (clock w)) by done.
    rewrite (bind_run _ _ w w (Some a)).
    2: { unfold findOne, bind, readDb, ret. simpl. by rewrite Ha. }
    rewrite Hr. unfold isState, isRoundState.
    rewrite !bool_decide_eq_true_2 by done. cbn [negb orb].
    rewrite Z.geb_leb. destruct (r <=? clock w) eqn:G; [zbool; lia|].
    rewrite Hhead. subst old. destruct existing as [e|]; cbn zeta; unfold isBidStatus in *.
    + destruct Hex as [Hs | Hs]; rewrite Hs in *;
        repeat (case_bool_decide; try done); cbn [negb andb];
        (destruct (newAmount <=? _) eqn:G2; [done|zbool; lia]).
    + destruct (newAmount <=? _) eqn:G2; [done|zbool; lia].
  - intros Hlt Hu. unfold placeBidTxn.
    rewrite (bind_run _ _ w w (clock w)) by done.
    rewrite (bind_run _ _ w w (Some a)).
    2: { unfold findOne, bind, readDb, ret. simpl. by rewrite Ha. }
    rewrite Hr. unfold isState, isRoundState.
    rewrite !bool_decide_eq_true_2 by done. cbn [negb orb].
    rewrite Z.geb_leb. destruct (r <=? clock w) eqn:G; [zbool; lia|].
    assert (Huser : forall d,
               findOneAndUpdate colUsers userId (hasAvailable (newAmount - old))
                 (User.incBalance (- d) d 0) w = (Ok None, w)).
    { intros d. unfold findOneAndUpdate, bind, readDb, ret. simpl.
      destruct (users (db w) !! userId) as [u0|] eqn:E; [|done].
      unfold hasAvailable. specialize (Hu u0 eq_refl).
      destruct (_ <=? User.available _) eqn:G3; [zbool; lia|done]. }
    rewrite Hhead. subst old. destruct existing as [e|]; cbn zeta; unfold isBidStatus in *.
    + destruct Hex as [Hs | Hs]; rewrite Hs in *;
        repeat (case_bool_decide; try done); cbn [negb andb];
        (destruct (newAmount <=? _) eqn:G2; [zbool; lia|]);
        by rewrite (bind_run _ _ w w None) by apply Huser.
    + destruct (newAmount <=? _) eqn:G2; [zbool; lia|].
      by rewrite (bind_run _ _ w w None) by apply Huser.
Qed.
Lemma placeBid_throw_db (auctionId userId : ObjectId) (newAmount : Z) (w w' : World)
    (e : Thrown) :
  placeBid auctionId userId newAmount w = (Throw e, w') -> db w' = db w.
Proof.
  unfold placeBid.
  destruct (negb (isSafeInteger newAmount) || (newAmount <=? 0)).
  - unfold throw. by intros [= <- <-].
  - intros H. by apply withTxn_run in H.
Qed.
End PlaceBidFailures.

(** * Properties of the services *)

(** ** Balances, settlement and gift serials *)

Section SettlementProperties.
Import Auctions Engine System.





(** C5. Gift serials.  In every reachable state the won bids of every
    auction hold the serials [1..awardedCount], each exactly once.  The
    settlement gives the [i]-th winner (from 0) the serial
    [awardedCount + i + 1]; when it commits, every winner's bid is won
    with that serial, [awardedCount] has grown by the number of winners,
    and the serials are again exactly [1..awardedCount]. *)
Theorem gift_serials_exact :
  (forall (ops : list Op) (aid : ObjectId) (a : Auction.Doc),
      auctions (db (run ops initialWorld)) !! aid = Some a ->
      serialsExactly (bids (db (run ops initialWorld))) aid (Auction.awardedCount a))
  /\ (forall (a : Auction.Doc) (wb : list (ObjectId * Bid.Doc)) (i : nat) (x : SettleWinner),
        winnersOf a wb !! i = Some x ->
        giftSerial x = Auction.awardedCount a + Z.of_nat i + 1)
  /\ (forall (ops : list Op) (auctionId closingToken : ObjectId) (a : Auction.Doc)
             (u : unit) (w' : World),
        auctions (db (run ops initialWorld)) !! auctionId = Some a ->
        isClosingWith closingToken a = true ->
        withTxn (settleClosingAuctionTxn auctionId closingToken) noOptions
          (run ops initialWorld) = (Ok u, w') ->
        exists wb a',
          length wb = length (winnersOf a wb)
          /\ (forall x, x ∈ winnersOf a wb ->
                exists d', bids (db w') !! bidId x = Some d' /\ Bid.status d' = Bid.won
                           /\ wonSerial d' = Some (giftSerial x))
          /\ auctions (db w') !! auctionId = Some a'
          /\ Auction.awardedCount a'
             = Auction.awardedCount a + Z.of_nat (length (winnersOf a wb))
          /\ serialsExactly (bids (db w')) auctionId (Auction.awardedCount a')).
Proof.
  split_and!.
  - intros ops aid a Ha. destruct (reachable_inv ops) as (_ & _ & _ & _ & Hs & _).
    by apply (Hs aid a).
  - intros a wb i x Hx. by apply winnersOf_lookup in Hx as (b & _ & _ & _ & _ & Hser & _).
  - intros ops auctionId closingToken a u w' Ha Hcl H.
    pose proof H as Hrun. apply withTxn_run in H as (w0 & Hdb & H).
    assert (HI : Inv (db w0)) by (rewrite Hdb; apply reachable_inv).
    rewrite <- Hdb in Ha.
    destruct (settleClosingAuctionTxn_effects _ _ _ _ _ _ HI Ha Hcl H)
      as (wb & a' & Efind & Hnone & Hrounds & Hau & Hac & Htok & Hws).
    assert (HI' : Inv (db w')) by (eapply settleClosingAuctionTxn_inv; eauto).
    assert (Ha' : auctions (db w') !! auctionId = Some a')
      by (rewrite Hau; apply lookup_insert_eq).
    exists wb, a'. split_and!; try done.
    + by rewrite winnersOf_length.
    + intros x Hx. by destruct (Hws x Hx) as (? & _).
    + destruct HI' as (_ & _ & _ & _ & Hs & _). by apply (Hs auctionId a').
Qed.
End SettlementProperties.

(** ** Withdrawal and snapshot *)

Section WithdrawAndSnapshot.
Import Auctions Engine System.


(** C10. The snapshot without free slots.  [getAuctionSnapshot] reports
    the stored auction and [remainingQuantity = max 0 (totalQuantity -
    awardedCount)]; whenever the auction is not running, or
    [remainingQuantity] is 0, or more generally
    [min remainingQuantity winnersPerRound] is not positive, its
    [estimatedClearingPrice] is [null], whatever bids the store holds. *)
Theorem snapshot_no_estimate_without_slots (auctionId : ObjectId)
    (userId : option ObjectId) (w w' : World) (s : Snapshot) :
  getAuctionSnapshot auctionId userId w = (Ok s, w') ->
  Auction.state (auction s) <> Auction.running
  \/ remainingQuantity s = 0
  \/ Z.min (remainingQuantity s) (Auction.winnersPerRound (Auction.config (auction s))) <= 0 ->
  auctions (db w) !! auctionId = Some (auction s)
  /\ remainingQuantity s
     = Z.max 0 (Auction.totalQuantity (auction s) - Auction.awardedCount (auction s))
  /\ estimatedClearingPrice s = None.
Proof.
  intros H Hk. unfold getAuctionSnapshot in H.
  repeat step H; tidy; simplify_eq; simpl in *; (split_and!; [done|done|]).
  all: match goal with |- (if (?k >? 0) && _ then _ else _) = None =>
         assert (Hz : (k >? 0) = false); [|by rewrite Hz] end.
  all: rewrite Z.gtb_ltb; apply Z.ltb_ge; unfold isState.
  all: case_bool_decide; [|lia]; destruct Hk as [Hk|[Hk|Hk]]; [done|lia|lia].
Qed.
End WithdrawAndSnapshot.

(** ** Bids *)

Section PlaceBidProperties.
Import Auctions Engine System Samples.

(** C7. The failure atomicity of [placeBid].  Whenever [placeBid] throws,
    whatever the error, the database it leaves is the database it found:
    users, bids, ledger and auctions are untouched.  In particular, on an
    auction that is open for bids, with the user's existing bid (if any)
    active or withdrawn and [newAmount > oldAmount], a user who is
    missing or whose [available] is below [delta = newAmount - oldAmount]
    gets [INSUFFICIENT_FUNDS] and the world is as before. *)
Theorem placeBid_failure_atomic :
  (forall (auctionId userId : ObjectId) (newAmount : Z) (w w' : World) (e : Thrown),
      placeBid auctionId userId newAmount w = (Throw e, w') -> db w' = db w)
  /\ (forall (auctionId userId : ObjectId) (newAmount : Z) (w : World)
             (a : Auction.Doc) (r : Z) (existing : option (ObjectId * Bid.Doc)),
        isSafeInteger newAmount = true -> 0 < newAmount ->
        auctions (db w) !! auctionId = Some a ->
        Auction.roundEndsAt a = Some r ->
        Auction.state a = Auction.running ->
        Auction.roundState a = Some Auction.open ->
        clock w < r ->
        findFirst colBids
          (fun _ b => (Bid.auctionId b =? auctionId)%N && (Bid.userId b =? userId)%N) w
        = (Ok existing, w) ->
        match existing with
        | Some b => Bid.status b.2 = Bid.active \/ Bid.status b.2 = Bid.withdrawn
        | None => True
        end ->
        let oldAmount := match existing with
                         | Some b => if isBidStatus Bid.active b.2 then Bid.amount b.2 else 0
                         | None => 0
                         end in
        oldAmount < newAmount ->
        (forall u0, users (db w) !! userId = Some u0 ->
                    User.available (User.balance u0) < newAmount - oldAmount) ->
        placeBid auctionId userId newAmount w
        = (Throw (appError INSUFFICIENT_FUNDS "Insufficient funds or user not found" 409),
           w)).
Proof.
  split.
  - apply placeBid_throw_db.
  - intros auctionId userId newAmount w a r existing Hsafe Hpos Ha Hr Hst Hrs Hnow
      Hfind Hex oldAmount Hold Hu.
    unfold placeBid. rewrite Hsafe. cbn [negb orb].
    destruct (newAmount <=? 0) eqn:G; [zbool; lia|].
    apply withTxn_appError.
    by apply (placeBidTxn_open auctionId userId newAmount w a r existing).
Qed.

(** C8. The anti-snipe clamp.  In every reachable state, an auction with
    a deadline [endsAt] has [roundEndsAt <= endsAt]; and a successful
    [placeBid] on an auction whose [antiSnipeWindowMs] is 0 returns and
    stores the auction with [roundEndsAt] as it was. *)
Theorem round_end_within_deadline :
  (forall (ops : list Op) (auctionId : ObjectId) (a : Auction.Doc) (e r : Z),
      auctions (db (run ops initialWorld)) !! auctionId = Some a ->
      Auction.endsAt a = Some e -> Auction.roundEndsAt a = Some r -> r <= e)
  /\ (forall (auctionId userId : ObjectId) (newAmount : Z) (w w' : World)
             (a : Auction.Doc) (res : Auction.Doc * (ObjectId * Bid.Doc)),
        auctions (db w) !! auctionId = Some a ->
        Auction.antiSnipeWindowMs (Auction.config a) = 0 ->
        placeBid auctionId userId newAmount w = (Ok res, w') ->
        auctions (db w') !! auctionId = Some res.1
        /\ Auction.roundEndsAt res.1 = Auction.roundEndsAt a
        /\ Auction.endsAt res.1 = Auction.endsAt a).
Proof.
  split.
  - intros ops auctionId a e r Ha He Hr.
    destruct (reachable_inv ops) as (_ & _ & _ & _ & _ & Hc).
    by apply (Hc auctionId a Ha e r).
  - intros auctionId userId newAmount w w' a res Ha Hwin. unfold placeBid.
    destruct (negb (isSafeInteger newAmount) || (newAmount <=? 0)); [done|].
    intros H. apply withTxn_run in H as (w0 & Hdb & H).
    apply placeBidTxn_effects in H
      as (a0 & r & old & u0 & Ha0 & Hr & Hnow & Hres & Hau & _).
    rewrite Hdb, Ha in Ha0. injection Ha0 as <-.
    split_and!.
    + rewrite Hau, Hdb. apply lookup_insert_eq.
    + rewrite Hres. unfold maxRoundEndsAt. simpl. rewrite Hr. f_equal.
      unfold antiSnipeEndsAt. rewrite Hwin.
      repeat case_match; zbool; lia.
    + by rewrite Hres.
Qed.

(** C6 as the specification words it does not hold.  In the sample run,
    user 0 places 100 on auction 6, withdraws, and places 50 on the same
    bid: all three calls succeed, and the second amount is below the
    first.  So the property of the specification fails. *)
Lemma placeBid_lower_after_withdraw :
  (exists r1 w1 r2 w2 r3 w3,
      placeBid 6%N 0%N 100 (run (firstn 8 opsOpen) initialWorld) = (Ok r1, w1)
      /\ withdrawBid 6%N 0%N w1 = (Ok r2, w2)
      /\ placeBid 6%N 0%N 50 w2 = (Ok r3, w3)
      /\ r3.2.1 = r1.2.1
      /\ Bid.amount r1.2.2 = 100 /\ Bid.amount r3.2.2 = 50)
  /\ ~ Spec.placeBidMonotone.
Proof.
  split.
  - eexists _, _, _, _, _, _.
    split; [vm_compute; reflexivity|]. split; [vm_compute; reflexivity|].
    split; [vm_compute; reflexivity|]. by split_and!.
  - intros Hmono.
    assert (H : (100 < 50)%Z); [|lia].
    eapply (Hmono (firstn 8 opsOpen) [OpWithdrawBid 6%N 0%N] 6%N 0%N 100 50).
    + vm_compute. reflexivity.
    + vm_compute. reflexivity.
Qed.

(** C6, amended.  While the bid of a user on an auction is active with
    some amount, a [placeBid] of that user on that auction succeeds only
    with a strictly greater [newAmount], and then the same bid is active
    with [newAmount]; on an auction open for bids a call with
    [newAmount] not greater than the active amount throws
    [INVALID_INPUT].  (A withdrawn bid sets no floor: it is placed again
    with any positive amount.) *)
Theorem placeBid_raises_active_bid (ops : list Op) (auctionId userId : ObjectId)
    (newAmount : Z) (i : ObjectId) (b : Bid.Doc) (w : World)
    (r : Result (Auction.Doc * (ObjectId * Bid.Doc))) (w' : World) :
  db w = db (run ops initialWorld) ->
  bids (db w) !! i = Some b ->
  Bid.auctionId b = auctionId -> Bid.userId b = userId -> Bid.status b = Bid.active ->
  placeBid auctionId userId newAmount w = (r, w') ->
  (forall res, r = Ok res ->
     Bid.amount b < newAmount /\ res.2.1 = i /\ bids (db w') !! i = Some res.2.2
     /\ Bid.amount res.2.2 = newAmount /\ Bid.status res.2.2 = Bid.active)
  /\ (newAmount <= Bid.amount b ->
      exists e, r = Throw e /\ db w' = db w
        /\ ((exists a t, auctions (db w) !! auctionId = Some a
                         /\ Auction.roundEndsAt a = Some t
                         /\ Auction.state a = Auction.running
                         /\ Auction.roundState a = Some Auction.open
                         /\ clock w < t) ->
            exists message, e = appError INVALID_INPUT message 400)).
Proof.
  intros Hreach Hb Ha Hu Hst Hrun.
  assert (HI : Inv (db w)) by (rewrite Hreach; apply reachable_inv).
  assert (Hok : forall res, r = Ok res ->
     Bid.amount b < newAmount /\ res.2.1 = i /\ bids (db w') !! i = Some res.2.2
     /\ Bid.amount res.2.2 = newAmount /\ Bid.status res.2.2 = Bid.active).
  { intros res ->. unfold placeBid in Hrun.
    destruct (negb (isSafeInteger newAmount) || (newAmount <=? 0)); [done|].
    apply withTxn_run in Hrun as (w0 & Hdb & H).
    apply placeBidTxn_effects in H
      as (a0 & t & old & u0 & _ & _ & _ & _ & _ & Hbids & Hba & Hbu & Ham & Hact
          & Hold & Hprev & _).
    rewrite Hdb in Hprev, Hbids.
    destruct HI as (_ & _ & Hq & _).
    destruct (bids (db w) !! res.2.1) as [b0|] eqn:E.
    - destruct Hprev as (Ha0 & Hu0 & Hcase).
      assert (res.2.1 = i) as Hi by (eapply Hq; eauto; congruence).
      rewrite Hi, Hb in E. injection E as <-.
      destruct Hcase as [[_ ->]|[Hw _]]; [|congruence].
      split_and!; try done. rewrite Hbids, Hi. apply lookup_insert_eq.
    - destruct Hprev as (_ & Hno). by destruct (Hno i b). }
  split; [done|]. intros Hle.
  destruct r as [res|e]; [destruct (Hok res eq_refl); lia|].
  exists e. split; [done|]. split.
  { by eapply placeBid_throw_db. }
  intros (a & t & Hau & Hr & Hrunning & Hopen & Hnow).
  unfold placeBid in Hrun.
  destruct (negb (isSafeInteger newAmount) || (newAmount <=? 0)).
  { unfold throw in Hrun. injection Hrun as <- <-. by eexists. }
  destruct (findFirst_total colBids
              (fun _ b => (Bid.auctionId b =? auctionId)%N && (Bid.userId b =? userId)%N) w)
    as (existing & Hfind).
  pose proof Hfind as Hfacts. apply findFirst_ok in Hfacts as [_ Hfacts].
  destruct existing as [p|].
  - destruct Hfacts as [Hp Hkeys]. simpl in Hp, Hkeys.
    apply andb_true_iff in Hkeys as [Hk1 Hk2]. apply N.eqb_eq in Hk1, Hk2.
    destruct HI as (_ & _ & Hq & _).
    assert (p.1 = i) as Hi by (eapply Hq; eauto; congruence).
    rewrite Hi, Hb in Hp. injection Hp as Hp.
    destruct (placeBidTxn_open auctionId userId newAmount w a t (Some p)
                Hau Hr Hrunning Hopen Hnow Hfind) as [Hthrow _].
    { left. by rewrite <- Hp. }
    cbv zeta in Hthrow. unfold isBidStatus in Hthrow. rewrite <- Hp in Hthrow.
    rewrite bool_decide_eq_true_2 in Hthrow by done.
    specialize (Hthrow Hle).
    apply (withTxn_appError _ (Some true)) in Hthrow.
    rewrite Hthrow in Hrun. injection Hrun as <- <-. by eexists.
  - specialize (Hfacts i b Hb). simpl in Hfacts. subst.
    by rewrite !N.eqb_refl in Hfacts.
Qed.
End PlaceBidProperties.

(** ** Settling twice *)

Section Idempotence.
Import Auctions Engine System.

Lemma keyTaken_true {D} (ix : UniqueIndex D) (id j : ObjectId) (d d' : D)
    (c : gmap ObjectId D) :
  c !! j = Some d' -> j <> id -> sameKey ix d d' = true -> keyTaken ix id d c = true.
Proof.
  intros Hj Hne Hkey. unfold keyTaken. apply existsb_exists. exists (j, d'). split.
  - apply list_elem_of_In. by apply elem_of_map_to_list.
  - simpl. rewrite Hkey. by apply N.eqb_neq in Hne as ->.
Qed.

Lemma findWinnerBids_total (auctionId : ObjectId) (winnersCount : Z) (w : World) :
  exists wb, findWinnerBids auctionId winnersCount w = (Ok wb, w).
Proof.
  unfold findWinnerBids, find, bind, readDb, ret. destruct (winnersCount >? 0); eauto.
Qed.

(** Without the options, an error that is not transient leaves [withTxn]
    at once, the database rolled back. *)
Lemma withTxn_no_retry {A} (fn : M A) (w w1 : World) (e : Thrown) :
  fn w = (Throw e, w1) -> isTransientTxnError e = false ->
  withTxn fn noOptions w = (Throw e, abortTo w w1).
Proof.
  intros H Ht. unfold withTxn. cbn [default maxAttempts noOptions withTxnAttempts].
  rewrite H, Ht. done.
Qed.

Lemma withTxn_returns {A} (fn : M A) (opts : TxnOptions) (w w1 : World) (a : A) :
  maxAttempts opts = None ->
  fn w = (Ok a, w1) -> withTxn fn opts w = (Ok a, w1).
Proof.
  intros Hm H. unfold withTxn. rewrite Hm. cbn [default withTxnAttempts]. by rewrite H.
Qed.

(** The insert of the Round document decides: with a Round of the
    auction's current round in the store, the body stops there. *)
Lemma settleClosingAuctionTxn_duplicate (auctionId closingToken : ObjectId) (w : World)
    (a : Auction.Doc) (rid : ObjectId) (rd : Round.Doc) :
  auctions (db w) !! auctionId = Some a ->
  isClosingWith closingToken a = true ->
  rounds (db w) !! rid = Some rd ->
  Round.auctionId rd = auctionId ->
  Round.roundNumber rd = Auction.currentRound a ->
  exists kp,
    settleClosingAuctionTxn auctionId closingToken w
    = (Throw (duplicateKey "rounds" kp),
       mkWorld (db w) (N.succ (oidGen w)) (clock w) (logs w))
    /\ (rounds (db w) !! oidGen w = None -> kp = ["auctionId"; "roundNumber"]).
Proof.
  intros Ha Hcl Hrd Hra Hrn.
  destruct (findWinnerBids_total auctionId
              (Z.min (Auction.winnersPerRound (Auction.config a))
                 (Z.max 0 (Auction.totalQuantity a - Auction.awardedCount a))) w)
    as (wb & Hfind).
  unfold settleClosingAuctionTxn.
  rewrite (bind_run _ _ w w (clock w)) by done.
  rewrite (bind_run _ _ w w (Some a)).
  2: { unfold findOne, bind, readDb, ret. simpl. by rewrite Ha, Hcl. }
  cbv zeta. rewrite (bind_run _ _ w w wb) by done.
  rewrite (bind_run _ _ w (mkWorld (db w) (N.succ (oidGen w)) (clock w) (logs w))
             (oidGen w)) by done.
  destruct (rounds (db w) !! oidGen w) as [other|] eqn:E.
  - exists ["_id"]. split; [|done]. apply bind_throw.
    unfold insertOne, bind, readDb, throw. simpl. by rewrite E.
  - exists ["auctionId"; "roundNumber"]. split; [|done]. apply bind_throw.
    unfold insertOne, bind, readDb, throw. simpl. rewrite E.
    rewrite (keyTaken_true roundsByAuctionNumber (oidGen w) rid _ rd); [done|done| |].
    + intros ->. congruence.
    + simpl. rewrite Hra, Hrn, N.eqb_refl, Z.eqb_refl. done.
Qed.

(** A run of the body that returns leaves the auction, if there is one,
    not closing under the token. *)
Lemma settleClosingAuctionTxn_clears_token (auctionId closingToken : ObjectId)
    (w w' : World) (u : unit) :
  settleClosingAuctionTxn auctionId closingToken w = (Ok u, w') ->
  forall a', auctions (db w') !! auctionId = Some a' ->
             isClosingWith closingToken a' = false.
Proof.
  intros H. unfold settleClosingAuctionTxn in H.
  repeat step H; tidy; simplify_eq.
  - intros a'. rewrite lookup_insert_eq. intros [= <-].
    unfold isClosingWith, isState. simpl. done.
  - intros a'. rewrite lookup_insert_eq. intros [= <-].
    unfold isClosingWith. simpl. by rewrite ?andb_false_r.
  - intros a' Ha'. by apply E.
Qed.

(** C4. The idempotence of the settlement.  With a Round document for
    the auction's current round in the store, [settleClosingAuction]
    returns normally and leaves the whole database as it was: no bid, no
    balance, no ledger entry, no Round changes; when the auction is still
    closing under the token, the insert fails on the index
    [(auctionId, roundNumber)] and the error is logged as "round already
    settled".  After a settlement transaction has committed, running
    [settleClosingAuction] again with the same token changes nothing at
    all.  The duplicate-key error on that index is recognised by
    [isDuplicateRoundSettlement]. *)
Theorem settlement_rerun_changes_nothing :
  (forall (auctionId closingToken : ObjectId) (w : World) (a : Auction.Doc)
          (rid : ObjectId) (rd : Round.Doc),
      auctions (db w) !! auctionId = Some a ->
      rounds (db w) !! rid = Some rd ->
      Round.auctionId rd = auctionId ->
      Round.roundNumber rd = Auction.currentRound a ->
      exists w',
        settleClosingAuction auctionId closingToken w = (Ok tt, w')
        /\ db w' = db w
        /\ (isClosingWith closingToken a = true ->
            rounds (db w) !! oidGen w = None ->
            logs w' = logs w ++ [LogInfo "round already settled"]))
  /\ (forall (auctionId closingToken : ObjectId) (w w1 : World) (u : unit),
        withTxn (settleClosingAuctionTxn auctionId closingToken) noOptions w = (Ok u, w1) ->
        forall w2, db w2 = db w1 ->
                   settleClosingAuction auctionId closingToken w2 = (Ok tt, w2))
  /\ isDuplicateRoundSettlement (duplicateKey "rounds" ["auctionId"; "roundNumber"]) = true.
Proof.
  split_and!; [| |done].
  - intros auctionId closingToken w a rid rd Ha Hrd Hra Hrn.
    unfold settleClosingAuction, tryCatch.
    destruct (isClosingWith closingToken a) eqn:Hcl.
    + destruct (settleClosingAuctionTxn_duplicate _ _ _ _ _ _ Ha Hcl Hrd Hra Hrn)
        as (kp & Hthrow & Hkp).
      rewrite (withTxn_no_retry _ _ _ _ Hthrow) by done.
      destruct (isDuplicateRoundSettlement (duplicateKey "rounds" kp)) eqn:Hdup.
      * eexists. split_and!; [done|done|done].
      * eexists. split_and!; [done|done|]. intros _ Hfresh.
        rewrite (Hkp Hfresh) in Hdup. done.
    + assert (Hbody : settleClosingAuctionTxn auctionId closingToken w = (Ok tt, w)).
      { unfold settleClosingAuctionTxn.
        rewrite (bind_run _ _ w w (clock w)) by done.
        rewrite (bind_run _ _ w w None); [done|].
        unfold findOne, bind, readDb, ret. simpl. by rewrite Ha, Hcl. }
      rewrite (withTxn_returns _ noOptions _ _ _ eq_refl Hbody).
      exists w. split_and!; done.
  - intros auctionId closingToken w w1 u H w2 Hdb.
    apply withTxn_run in H as (w0 & _ & H).
    pose proof (settleClosingAuctionTxn_clears_token _ _ _ _ _ H) as Hclear.
    assert (Hbody : settleClosingAuctionTxn auctionId closingToken w2 = (Ok tt, w2)).
    { unfold settleClosingAuctionTxn.
      rewrite (bind_run _ _ w2 w2 (clock w2)) by done.
      rewrite (bind_run _ _ w2 w2 None); [done|].
      unfold findOne, bind, readDb, ret. simpl. rewrite Hdb.
      destruct (auctions (db w1) !! auctionId) as [a'|] eqn:E; [|done].
      by rewrite (Hclear a' eq_refl). }
    unfold settleClosingAuction, tryCatch.
    by rewrite (withTxn_returns _ noOptions _ _ _ eq_refl Hbody).
Qed.
End Idempotence.

(** * The properties on the sample runs *)

Section OnSamples.
Import Auctions Engine System Samples.



(** Three bids, the two best win at the price of the second; nobody wins
    zero gifts. *)
Lemma selectWinners_first_ranked_witness :
  (0 <= 0 /\ (Ranking.selectWinners
                [Ranking.mkBid "b" 90 5; Ranking.mkBid "a" 100 7; Ranking.mkBid "c" 90 3] 0).1
             = [])
  /\ Ranking.selectWinners
       [Ranking.mkBid "b" 90 5; Ranking.mkBid "a" 100 7; Ranking.mkBid "c" 90 3] 2
     = ([Ranking.mkBid "a" 100 7; Ranking.mkBid "c" 90 3], 90).
Proof.
  split; [split; [lia|]|reflexivity].
  apply (proj1 (selectWinners_first_ranked
                  [Ranking.mkBid "b" 90 5; Ranking.mkBid "a" 100 7; Ranking.mkBid "c" 90 3]
                  0)).
  lia.
Defined.

(** In [racedWorld] the Round of round 1 is there while the auction is
    still closing under token 13: the settlement is swallowed and logged.
    In [closingWorld] the settlement commits, and a second run does
    nothing. *)
Lemma settlement_rerun_changes_nothing_witness :
  (exists a rd w',
      auctions (db racedWorld) !! 6%N = Some a
      /\ rounds (db racedWorld) !! 99%N = Some rd
      /\ Round.auctionId rd = 6%N
      /\ Round.roundNumber rd = Auction.currentRound a
      /\ isClosingWith 13%N a = true
      /\ settleClosingAuction 6%N 13%N racedWorld = (Ok tt, w')
      /\ db w' = db racedWorld
      /\ logs w' = logs racedWorld ++ [LogInfo "round already settled"])
  /\ (exists w1,
        withTxn (settleClosingAuctionTxn 6%N 13%N) noOptions closingWorld = (Ok tt, w1)
        /\ settleClosingAuction 6%N 13%N w1 = (Ok tt, w1)).
Proof.
  split.
  - eexists _, _.
    match goal with |- exists w', _ = Some ?a /\ _ = Some ?rd /\ _ =>
      destruct (proj1 settlement_rerun_changes_nothing 6%N 13%N racedWorld a 99%N rd)
        as (w' & Hrun & Hdb & Hlog)
    end; [vm_compute; reflexivity|vm_compute; reflexivity|reflexivity|reflexivity|].
    exists w'. split; [vm_compute; reflexivity|]. split; [vm_compute; reflexivity|].
    split; [reflexivity|]. split; [reflexivity|]. split; [vm_compute; reflexivity|].
    split; [exact Hrun|]. split; [exact Hdb|].
    apply Hlog; vm_compute; reflexivity.
  - eexists. split; [vm_compute; reflexivity|].
    eapply (proj1 (proj2 settlement_rerun_changes_nothing) 6%N 13%N closingWorld);
      [vm_compute; reflexivity|reflexivity].
Defined.

(** Auction 6 after its settlement holds the serials 1 and 2; the
    settlement of [closingWorld] gave them to the bids 7 and 9. *)
Lemma gift_serials_exact_witness :
  (exists a,
      auctions (db (run opsSettled initialWorld)) !! 6%N = Some a
      /\ Auction.awardedCount a = 2
      /\ serialsExactly (bids (db (run opsSettled initialWorld))) 6%N
           (Auction.awardedCount a))
  /\ (exists a w' wb a',
        auctions (db (run opsClosing initialWorld)) !! 6%N = Some a
        /\ isClosingWith 13%N a = true
        /\ withTxn (settleClosingAuctionTxn 6%N 13%N) noOptions
             (run opsClosing initialWorld) = (Ok tt, w')
        /\ auctions (db w') !! 6%N = Some a'
        /\ Auction.awardedCount a'
           = Auction.awardedCount a + Z.of_nat (length (winnersOf a wb))
        /\ serialsExactly (bids (db w')) 6%N (Auction.awardedCount a')).
Proof.
  split.
  - eexists. split; [vm_compute; reflexivity|]. split; [reflexivity|].
    match goal with |- serialsExactly _ _ (Auction.awardedCount ?a) =>
      apply (proj1 gift_serials_exact opsSettled 6%N a) end.
    vm_compute. reflexivity.
  - eexists _, _.
    edestruct (proj2 (proj2 gift_serials_exact) opsClosing 6%N 13%N)
      as (wb & a' & _ & _ & Ha' & Hcount & Hser);
      [vm_compute; reflexivity|vm_compute; reflexivity|vm_compute; reflexivity|].
    exists wb, a'. split; [vm_compute; reflexivity|].
    split; [vm_compute; reflexivity|]. split; [vm_compute; reflexivity|].
    split; [exact Ha'|]. split; [exact Hcount|exact Hser].
Defined.

(** User 0 holds the active bid 7 of 100 on auction 6 and raises it to
    150. *)
Lemma placeBid_raises_active_bid_witness :
  exists b res w',
    bids (db openWorld) !! 7%N = Some b
    /\ Bid.status b = Bid.active
    /\ placeBid 6%N 0%N 150 openWorld = (Ok res, w')
    /\ Bid.amount b < 150 /\ res.2.1 = 7%N /\ bids (db w') !! 7%N = Some res.2.2
    /\ Bid.amount res.2.2 = 150 /\ Bid.status res.2.2 = Bid.active.
Proof.
  eexists _, _, _. split; [vm_compute; reflexivity|]. split; [reflexivity|].
  split; [vm_compute; reflexivity|].
  match goal with |- Bid.amount ?b < _ /\ (?res).2.1 = _ /\ bids (db ?w') !! _ = _ /\ _ =>
    refine (proj1 (placeBid_raises_active_bid opsOpen 6%N 0%N 150 7%N b openWorld
                     (Ok res) w' _ _ _ _ _ _) res eq_refl)
  end.
  - reflexivity.
  - vm_compute. reflexivity.
  - reflexivity.
  - reflexivity.
  - reflexivity.
  - vm_compute. reflexivity.
Defined.

(** User 0 has 900 available and 100 reserved under the active bid 7: a
    bid of 2000 needs 1900 more and fails, and nothing has changed. *)
Lemma placeBid_failure_atomic_witness :
  (exists e w', placeBid 6%N 0%N 2000 openWorld = (Throw e, w') /\ db w' = db openWorld)
  /\ placeBid 6%N 0%N 2000 openWorld
     = (Throw (appError INSUFFICIENT_FUNDS "Insufficient funds or user not found" 409),
        openWorld).
Proof.
  split.
  - eexists _, _. split; [vm_compute; reflexivity|].
    eapply (proj1 placeBid_failure_atomic 6%N 0%N 2000 openWorld).
    vm_compute. reflexivity.
  - eapply (proj2 placeBid_failure_atomic 6%N 0%N 2000 openWorld).
    + reflexivity.
    + lia.
    + vm_compute. reflexivity.
    + reflexivity.
    + reflexivity.
    + reflexivity.
    + vm_compute. reflexivity.
    + vm_compute. reflexivity.
    + left. reflexivity.
    + vm_compute. reflexivity.
    + intros u0 Hu0. vm_compute in Hu0. injection Hu0 as <-. vm_compute. reflexivity.
Defined.

(** The quiet auction 2 has its deadline at 60000 and the round ends at
    5000; a bid one second before the end of the round does not move
    it. *)
Lemma round_end_within_deadline_witness :
  (exists a,
      auctions (db (run opsQuiet initialWorld)) !! 2%N = Some a
      /\ Auction.endsAt a = Some 60000 /\ Auction.roundEndsAt a = Some 5000
      /\ 5000 <= 60000)
  /\ (exists a res w',
        auctions (db quietWorld) !! 2%N = Some a
        /\ Auction.antiSnipeWindowMs (Auction.config a) = 0
        /\ placeBid 2%N 0%N 100 quietWorld = (Ok res, w')
        /\ auctions (db w') !! 2%N = Some res.1
        /\ Auction.roundEndsAt res.1 = Auction.roundEndsAt a
        /\ Auction.endsAt res.1 = Auction.endsAt a).
Proof.
  split.
  - eexists. split; [vm_compute; reflexivity|]. split; [reflexivity|].
    split; [reflexivity|].
    match goal with |- _ <= _ =>
      eapply (proj1 round_end_within_deadline opsQuiet 2%N);
        [vm_compute; reflexivity|reflexivity|reflexivity] end.
  - eexists _, _, _. split; [vm_compute; reflexivity|]. split; [reflexivity|].
    split; [vm_compute; reflexivity|].
    match goal with |- auctions (db ?w') !! _ = Some (?res).1 /\ _ = Auction.roundEndsAt ?a /\ _ =>
      apply (proj2 round_end_within_deadline 2%N 0%N 100 quietWorld w' a res);
        [vm_compute; reflexivity|reflexivity|vm_compute; reflexivity] end.
Defined.


(** The ended auction 6 of [settledWorld] has no free slot. *)
Lemma snapshot_no_estimate_without_slots_witness :
  exists s w',
    getAuctionSnapshot 6%N None settledWorld = (Ok s, w')
    /\ Auction.state (auction s) <> Auction.running
    /\ estimatedClearingPrice s = None.
Proof.
  eexists _, _. split; [vm_compute; reflexivity|]. split; [done|].
  match goal with |- estimatedClearingPrice ?s = None =>
    apply (snapshot_no_estimate_without_slots 6%N None settledWorld _ s
             ltac:(vm_compute; reflexivity)) end.
  left. done.
Defined.
End OnSamples.

(** * Further properties of the code *)

Import Runs.

Import Invariants.

(** * More on ranking *)

Section SortedAgain.
Context {A : Type} (cmp : A -> A -> Z).

(** Sorting a sorted array leaves it as it is. *)
Lemma sortBy_sorted_id (l : list A) :
  StronglySorted (cmpLe cmp) l -> sortBy cmp l = l.
Proof.
  induction 1 as [|x r Hr IH Hx]; simpl; [done|].
  rewrite IH. destruct r as [|y r']; simpl; [done|].
  apply Forall_cons in Hx as [Hxy _]. unfold cmpLe in Hxy.
  destruct (cmp x y <=? 0) eqn:E; [done|]. apply Z.leb_gt in E. lia.
Qed.

Lemma sorted_app_ranks (l1 l2 : list A) (x y : A) :
  StronglySorted (cmpLe cmp) (l1 ++ l2) -> x ∈ l1 -> y ∈ l2 -> cmpLe cmp x y.
Proof.
  induction l1 as [|z l1 IH]; simpl; intros Hs Hx Hy.
  - by apply not_elem_of_nil in Hx.
  - apply StronglySorted_inv in Hs as [Hs Hz].
    apply elem_of_cons in Hx as [->|Hx]; [|by apply IH].
    rewrite Forall_forall in Hz. apply Hz. apply elem_of_app. by right.
Qed.
End SortedAgain.

Section RankingMore.
Context {T : Type} `{Ranking.RankableBid T}.
Import Ranking.

Lemma ranksNoLater_amount (a b : T) : ranksNoLater a b -> amount b <= amount a.
Proof. unfold ranksNoLater. intros [?|[? _]]; lia. Qed.

Lemma compare_refl (a : T) : compareRankableBids a a <= 0.
Proof. by destruct (compare_total a a). Qed.

Lemma selectWinners_take (bids : list T) (n : Z) :
  0 < n ->
  selectWinners bids n
  = (take (Z.to_nat n) (sortBy compareRankableBids bids),
     match last (take (Z.to_nat n) (sortBy compareRankableBids bids)) with
     | Some w => amount w
     | None => 0
     end).
Proof.
  intros Hn. unfold selectWinners.
  destruct (Z.leb_spec n 0); [lia|]. cbv zeta. rewrite slice_from_zero by done.
  f_equal. set (ws := take _ _). destruct ws as [|w r] eqn:E; [done|].
  rewrite at_index_last by done.
  unfold jsLength. simpl length.
  destruct (Z.eqb_spec (Z.of_nat (S (length r))) 0); [lia|done].
Qed.

(** X1. [compareRankableBids] is a consistent comparator, as
    [Array.prototype.sort] needs one: it returns 0 exactly for two bids
    that agree in amount, time and user; swapping the arguments swaps the
    sign; and "not after" is transitive. *)
Theorem compareRankableBids_consistent (a b c : T) :
  (compareRankableBids a b = 0
   <-> amount a = amount b /\ lastBidAt a = lastBidAt b /\ userId a = userId b)
  /\ (compareRankableBids a b < 0 <-> 0 < compareRankableBids b a)
  /\ (compareRankableBids a b <= 0 -> compareRankableBids b c <= 0 ->
      compareRankableBids a c <= 0).
Proof.
  split_and!.
  - unfold compareRankableBids, String.ltb.
    rewrite (String.compare_antisym (userId b) (userId a)).
    destruct (Z.eqb_spec (amount a) (amount b)) as [Ea|Ea]; simpl; [|split; [lia|tauto]].
    destruct (Z.eqb_spec (lastBidAt a) (lastBidAt b)) as [Et|Et]; simpl;
      [|split; [lia|tauto]].
    destruct (String.compare (userId a) (userId b)) eqn:E; simpl.
    + apply String.compare_eq_iff in E. by split.
    + split; [lia|]. intros (_ & _ & Hu). rewrite Hu in E.
      pose proof (String.compare_antisym (userId b) (userId b)) as Hc.
      rewrite E in Hc. done.
    + split; [lia|]. intros (_ & _ & Hu). rewrite Hu in E.
      pose proof (String.compare_antisym (userId b) (userId b)) as Hc.
      rewrite E in Hc. done.
  - unfold compareRankableBids, String.ltb.
    rewrite (String.compare_antisym (userId b) (userId a)).
    rewrite (Z.eqb_sym (amount b)), (Z.eqb_sym (lastBidAt b)).
    destruct (Z.eqb_spec (amount a) (amount b)) as [Ea|Ea]; simpl; [|lia].
    destruct (Z.eqb_spec (lastBidAt a) (lastBidAt b)) as [Et|Et]; simpl; [|lia].
    destruct (String.compare (userId a) (userId b)); simpl; lia.
  - apply compare_trans.
Qed.


(** X3. Selecting again changes nothing: the winners of the winners, for
    the same count, are the winners, at the same clearing price. *)
Theorem selectWinners_idempotent (bids : list T) (n : Z) :
  selectWinners (selectWinners bids n).1 n = selectWinners bids n.
Proof.
  destruct (Z.leb_spec n 0) as [Hn|Hn].
  - unfold selectWinners. destruct (Z.leb_spec n 0); [done|lia].
  - rewrite !selectWinners_take by done. cbn [fst].
    set (sorted := sortBy compareRankableBids bids).
    assert (Hsorted : StronglySorted (cmpLe compareRankableBids) sorted)
      by (apply sortBy_sorted; [apply compare_total|apply compare_trans]).
    rewrite (sortBy_sorted_id compareRankableBids (take (Z.to_nat n) sorted))
      by by apply sorted_take.
    rewrite take_take, Nat.min_id. done.
Qed.

(** X4. More places only add winners at the end: for [n <= m] the winners
    for [n] are a prefix of the winners for [m], and with a place to win
    and more bids than [n] the clearing price for [m] is not above the one
    for [n]. *)
Theorem selectWinners_monotone (bids : list T) (n m : Z) :
  n <= m ->
  (selectWinners bids n).1 `prefix_of` (selectWinners bids m).1
  /\ (0 < n -> n <= Z.of_nat (length bids) ->
      (selectWinners bids m).2 <= (selectWinners bids n).2).
Proof.
  intros Hnm. destruct (Z.leb_spec n 0) as [Hn|Hn].
  - split; [|lia]. unfold selectWinners at 1. destruct (Z.leb_spec n 0); [|lia].
    apply prefix_nil.
  - rewrite !selectWinners_take by lia. cbn [fst snd].
    set (sorted := sortBy compareRankableBids bids).
    assert (Hsorted : StronglySorted (cmpLe compareRankableBids) sorted)
      by (apply sortBy_sorted; [apply compare_total|apply compare_trans]).
    assert (Hpre : take (Z.to_nat n) sorted `prefix_of` take (Z.to_nat m) sorted).
    { replace (take (Z.to_nat n) sorted)
        with (take (Z.to_nat n) (take (Z.to_nat m) sorted)); [apply prefix_take|].
      rewrite take_take. f_equal. lia. }
    split; [done|]. intros _ Hlen.
    assert (Hl : length sorted = length bids) by apply sortBy_length.
    destruct (last (take (Z.to_nat n) sorted)) as [zn|] eqn:En.
    2: { apply last_None in En. apply (f_equal length) in En.
         rewrite length_take in En. simpl in En. lia. }
    destruct (last (take (Z.to_nat m) sorted)) as [zm|] eqn:Em.
    2: { apply last_None in Em. apply (f_equal length) in Em.
         rewrite length_take in Em. simpl in Em. lia. }
    apply ranksNoLater_amount, compare_le_iff.
    eapply (sorted_last compareRankableBids); [apply compare_refl| |  |exact Em].
    + by apply sorted_take.
    + eapply elem_of_prefix; [|exact Hpre]. rewrite last_lookup in En.
      by eapply list_elem_of_lookup_2.
Qed.

End RankingMore.

Lemma selectWinners_monotone_witness :
  1 <= 2
  /\ (Ranking.selectWinners [Ranking.mkBid "b" 90 5; Ranking.mkBid "a" 100 7; Ranking.mkBid "c" 90 3] 1).1
     `prefix_of` (Ranking.selectWinners [Ranking.mkBid "b" 90 5; Ranking.mkBid "a" 100 7; Ranking.mkBid "c" 90 3] 2).1.
Proof.
  split; [lia|].
  apply (selectWinners_monotone [Ranking.mkBid "b" 90 5; Ranking.mkBid "a" 100 7; Ranking.mkBid "c" 90 3] 1 2).
  lia.
Defined.

(** * Relations that every run respects *)

Section Respects.
Context (R : World -> World -> Prop) (HR : Lasting R).

Lemma world_eta (w : World) : mkWorld (db w) (oidGen w) (clock w) (logs w) = w.
Proof. by destruct w. Qed.

Lemma respects_ret {A} (a : A) : respects R (ret a).
Proof. intros w r w' [= <- <-]. split; [apply HR|lia]. Qed.

Lemma respects_throw {A} (e : Thrown) : respects R (@throw A e).
Proof. intros w r w' [= <- <-]. split; [apply HR|lia]. Qed.

Lemma respects_newDate : respects R newDate.
Proof. intros w r w' [= <- <-]. split; [apply HR|lia]. Qed.

Lemma respects_newObjectId : respects R newObjectId.
Proof.
  intros w r w' [= <- <-]. simpl. split; [apply HR|]; lia.
Qed.

Lemma respects_logInfo (msg : string) : respects R (logInfo msg).
Proof. intros w r w' [= <- <-]. simpl. split; [by apply HR|lia]. Qed.

Lemma respects_logError (msg : string) : respects R (logError msg).
Proof. intros w r w' [= <- <-]. simpl. split; [by apply HR|lia]. Qed.

Lemma respects_readDb {A} (f : Db -> A) : respects R (readDb f).
Proof. intros w r w' [= <- <-]. split; [apply HR|lia]. Qed.

Lemma respects_bind {A B} (m : M A) (k : A -> M B) :
  respects R m -> (forall a, respects R (k a)) -> respects R (bind m k).
Proof.
  intros Hm Hk w r w'. unfold bind. destruct (m w) as [[a|e] w1] eqn:E.
  - intros H. destruct (Hm _ _ _ E), (Hk _ _ _ _ H).
    split; [by eapply HR|lia].
  - intros [= <- <-]. by apply (Hm _ _ _ E).
Qed.

Lemma respects_forEach {X} (l : list X) (body : X -> M unit) :
  (forall x, respects R (body x)) -> respects R (forEach l body).
Proof.
  intros Hb. induction l as [|x l IH]; simpl; [apply respects_ret|].
  apply respects_bind; [apply Hb|done].
Qed.

Lemma respects_tryCatch {A} (m : M A) (h : Thrown -> M A) :
  respects R m -> (forall e, respects R (h e)) -> respects R (tryCatch m h).
Proof.
  intros Hm Hh w r w'. unfold tryCatch. destruct (m w) as [[a|e] w1] eqn:E.
  - intros [= <- <-]. by apply (Hm _ _ _ E).
  - intros H. destruct (Hm _ _ _ E), (Hh _ _ _ _ H).
    split; [by eapply HR|lia].
Qed.

Lemma respects_abort (w w1 : World) :
  (oidGen w <= oidGen w1)%N -> R w (abortTo w w1).
Proof. intros. unfold abortTo. by apply HR. Qed.

Lemma respects_withTxnAttempts {A} (n : nat) (retry : bool) (fn : M A) :
  respects R fn -> respects R (withTxnAttempts n retry fn).
Proof.
  intros Hfn. induction n as [|n IH]; intros w r w'; simpl.
  - destruct (fn w) as [[a|e] w1] eqn:E; intros [= <- <-].
    + by apply (Hfn _ _ _ E).
    + destruct (Hfn _ _ _ E). split; [by apply respects_abort|done].
  - destruct (fn w) as [[a|e] w1] eqn:E.
    + intros [= <- <-]. by apply (Hfn _ _ _ E).
    + destruct (Hfn _ _ _ E) as [_ Hm].
      destruct (isTransientTxnError e || retry && Store.isDuplicateKeyError e).
      * intros H. destruct (IH _ _ _ H) as [Hr Hm']. simpl in Hm'.
        split; [|lia]. eapply HR; [|exact Hr]. by apply respects_abort.
      * intros [= <- <-]. split; [by apply respects_abort|done].
Qed.

Lemma respects_withTxn {A} (fn : M A) (opts : TxnOptions) :
  respects R fn -> respects R (withTxn fn opts).
Proof.
  intros Hfn. unfold withTxn. destruct (default 5%nat (maxAttempts opts)).
  - apply respects_throw.
  - by apply respects_withTxnAttempts.
Qed.

Section RespectsCollections.
Context {D : Type} (col : Collection D).

Lemma respects_findOne (id : ObjectId) (f : D -> bool) : respects R (findOne col id f).
Proof. intros w r w' [= <- <-]. split; [apply HR|lia]. Qed.

Lemma respects_find (f : ObjectId -> D -> bool) : respects R (find col f).
Proof. intros w r w' [= <- <-]. split; [apply HR|lia]. Qed.

Lemma respects_findFirst (f : ObjectId -> D -> bool) : respects R (findFirst col f).
Proof. intros w r w' [= <- <-]. split; [apply HR|lia]. Qed.

Lemma respects_insertOne (id : ObjectId) (d : D) :
  (forall w, getCol col (db w) !! id = None ->
             R w (setDb (setCol col (<[id := d]> (getCol col (db w))) (db w)) w)) ->
  respects R (insertOne col id d).
Proof.
  intros Hw w r w'. unfold insertOne, bind, readDb, throw, writeDb.
  destruct (getCol col (db w) !! id) eqn:E; [intros [= <- <-]; split; [apply HR|lia]|].
  destruct (firstViolation _ _ _ _ _); intros [= <- <-]; (split; [|simpl; lia]).
  - apply HR.
  - by apply Hw.
Qed.

Lemma respects_findOneAndUpdate (id : ObjectId) (f : D -> bool) (upd : D -> D) :
  (forall w d, getCol col (db w) !! id = Some d -> f d = true ->
               R w (setDb (setCol col (<[id := upd d]> (getCol col (db w))) (db w)) w)) ->
  respects R (findOneAndUpdate col id f upd).
Proof.
  intros Hw w r w'. unfold findOneAndUpdate, bind, readDb, throw, writeDb, ret.
  destruct (getCol col (db w) !! id) as [d|] eqn:E;
    [|intros [= <- <-]; split; [apply HR|lia]].
  destruct (f d) eqn:Ef; [|intros [= <- <-]; split; [apply HR|lia]].
  destruct (firstViolation _ _ _ _ _); intros [= <- <-]; (split; [|simpl; lia]).
  - apply HR.
  - by apply Hw.
Qed.

Lemma respects_updateOne (id : ObjectId) (f : D -> bool) (upd : D -> D) :
  (forall w d, getCol col (db w) !! id = Some d -> f d = true ->
               R w (setDb (setCol col (<[id := upd d]> (getCol col (db w))) (db w)) w)) ->
  respects R (updateOne col id f upd).
Proof.
  intros Hw. unfold updateOne. apply respects_bind.
  - by apply respects_findOneAndUpdate.
  - intros ?. apply respects_ret.
Qed.
End RespectsCollections.
End Respects.

(** The steps of a proof that a service respects a relation: the
    structure of the computation is followed, the writes are left to
    [side]. *)
Ltac respects_with HR side known :=
  repeat first
    [ progress cbv zeta
    | known
    | apply (respects_ret _ HR)
    | apply (respects_throw _ HR)
    | apply (respects_newDate _ HR)
    | apply (respects_newObjectId _ HR)
    | apply (respects_logInfo _ HR)
    | apply (respects_logError _ HR)
    | apply (respects_readDb _ HR)
    | apply (respects_findOne _ HR)
    | apply (respects_find _ HR)
    | apply (respects_findFirst _ HR)
    | apply (respects_withTxn _ HR)
    | apply (respects_forEach _ HR); intros ?
    | apply (respects_tryCatch _ HR); [|intros ?]
    | apply (respects_insertOne _ HR); side
    | apply (respects_findOneAndUpdate _ HR); side
    | apply (respects_updateOne _ HR); side
    | match goal with |- respects _ (if ?c then _ else _) => destruct c eqn:? end
    | match goal with |- respects _ (match ?x with _ => _ end) => destruct x end
    | apply (respects_bind _ HR); [|intros ?] ].

Ltac respects_go HR side := respects_with HR side fail.

Section Services.
Import Users Auctions Engine System.
Context (R : World -> World -> Prop) (HR : Lasting R).

(** What the writes of the services must do for [R]. *)
Context (Wuser_new : forall w id d, users (db w) !! id = None ->
            R w (setDb (setCol colUsers (<[id := d]> (users (db w))) (db w)) w)).
Context (Wuser : forall w id u u', users (db w) !! id = Some u ->
            sameUser u u' ->
            R w (setDb (setCol colUsers (<[id := u']> (users (db w))) (db w)) w)).
Context (Wbid_new : forall w id d, bids (db w) !! id = None ->
            R w (setDb (setCol colBids (<[id := d]> (bids (db w))) (db w)) w)).
Context (Wbid : forall w id b b', bids (db w) !! id = Some b ->
            sameBid b b' ->
            R w (setDb (setCol colBids (<[id := b']> (bids (db w))) (db w)) w)).
Context (Wledger : forall w id d, ledger (db w) !! id = None ->
            R w (setDb (setCol colLedger (<[id := d]> (ledger (db w))) (db w)) w)).
Context (Wrounds : forall w id d, rounds (db w) !! id = None ->
            R w (setDb (setCol colRounds (<[id := d]> (rounds (db w))) (db w)) w)).
Context (Wnew : forall w id d, auctions (db w) !! id = None ->
            Auction.state d = Auction.draft ->
            R w (setDb (setCol colAuctions (<[id := d]> (auctions (db w))) (db w)) w)).
Context (Wauction : forall w id a a', auctions (db w) !! id = Some a ->
            sameAuction a a' ->
            R w (setDb (setCol colAuctions (<[id := a']> (auctions (db w))) (db w)) w)).

Ltac bools :=
  repeat match goal with
         | H : _ && _ = true |- _ => apply andb_true_iff in H as [? ?]
         | H : _ || _ = true |- _ => apply orb_true_iff in H as [?|?]
         | H : bool_decide _ = true |- _ => apply bool_decide_eq_true in H
         | H : negb _ = true |- _ => apply negb_true_iff in H
         end.

Ltac side :=
  first [ intros; by apply Wuser_new | intros; by apply Wbid_new
        | intros; by apply Wledger | intros; by apply Wrounds
        | intros; by apply Wnew
        | let Hl := fresh "Hl" in let Hf := fresh "Hf" in
          intros ? ? Hl Hf; eapply Wuser; [exact Hl|];
          unfold sameUser; simpl; zbool; split; [done|lia]
        | let Hl := fresh "Hl" in let Hf := fresh "Hf" in
          intros ? ? Hl Hf; eapply Wbid; [exact Hl|];
          unfold sameBid, isBidStatus in *; bools; simpl; split_and!; try done;
          intros [?|?]; congruence
        | let Hl := fresh "Hl" in let Hf := fresh "Hf" in
          intros ? ? Hl Hf; eapply Wauction; [exact Hl|];
          unfold sameAuction, isDue, isRunningWith, isClosingWith, isState, isRoundState,
            maxRoundEndsAt in *;
          bools; simpl; split_and!; try done; try lia;
          intros; split_and!; try done; try congruence; try (intuition congruence) ].

Lemma createUser_respects : respects R createUser.
Proof. unfold createUser. respects_go HR side. Qed.

Lemma topupUser_respects (userId : ObjectId) (amount : Z) :
  respects R (topupUser userId amount).
Proof. unfold topupUser, topupUserTxn. respects_go HR side. Qed.

Lemma createAuction_respects (input : CreateAuctionInput) :
  respects R (createAuction input).
Proof. unfold createAuction. respects_go HR side. Qed.
Lemma startAuction_respects (auctionId : ObjectId) : respects R (startAuction auctionId).
Proof. unfold startAuction, startAuctionTxn. respects_go HR side. Qed.

Lemma cancelAuction_respects (auctionId : ObjectId) : respects R (cancelAuction auctionId).
Proof. unfold cancelAuction, cancelAuctionTxn. respects_go HR side. Qed.

Lemma placeBid_respects (auctionId userId : ObjectId) (newAmount : Z) :
  respects R (placeBid auctionId userId newAmount).
Proof. unfold placeBid, placeBidTxn. respects_go HR side. Qed.

Lemma withdrawBid_respects (auctionId userId : ObjectId) :
  respects R (withdrawBid auctionId userId).
Proof. unfold withdrawBid, withdrawBidTxn. respects_go HR side. Qed.
Lemma getAuctionSnapshot_respects (auctionId : ObjectId) (userId : option ObjectId) :
  respects R (getAuctionSnapshot auctionId userId).
Proof. unfold getAuctionSnapshot. respects_go HR side. Qed.

Lemma settleClosingAuction_respects (auctionId closingToken : ObjectId) :
  respects R (settleClosingAuction auctionId closingToken).
Proof.
  unfold settleClosingAuction, settleClosingAuctionTxn, findWinnerBids, settleWinner,
    refundLoser.
  respects_go HR side.
Qed.

Lemma tryAcquireEngineLock_respects (ownerId : ObjectId) (ttlMs now : Z) :
  respects R (tryAcquireEngineLock ownerId ttlMs now).
Proof.
  assert (Hlock : forall f : gmap string EngineLock.Doc -> gmap string EngineLock.Doc,
             respects R (writeDb (fun d => mkDb (users d) (auctions d) (bids d) (rounds d)
                                            (ledger d) (f (engineLocks d))))).
  { intros f w r w' [= <- <-]. simpl. split; [apply HR|lia]. }
  unfold tryAcquireEngineLock. respects_go HR side; apply Hlock.
Qed.

Lemma lockDueRound_respects (auctionId token : ObjectId) (threshold now : Z) :
  respects R (lockDueRound auctionId token threshold now).
Proof. unfold lockDueRound. respects_go HR side. Qed.

Lemma tick_respects (e : EngineState) : respects R (tick e).
Proof.
  unfold tick, tickBody.
  respects_with HR side
    ltac:(first [ apply tryAcquireEngineLock_respects | apply settleClosingAuction_respects
                | apply lockDueRound_respects ]).
Qed.

Lemma applyOp_respects (op : Op) (w : World) : R w (applyOp op w).
Proof.
  destruct op; unfold applyOp, exec.
  - simpl. by apply HR.
  - destruct (createUser w) as [r w'] eqn:E. by apply createUser_respects in E as [? _].
  - destruct (topupUser _ _ w) as [r w'] eqn:E. by apply topupUser_respects in E as [? _].
  - destruct (createAuction _ w) as [r w'] eqn:E.
    by apply createAuction_respects in E as [? _].
  - destruct (startAuction _ w) as [r w'] eqn:E.
    by apply startAuction_respects in E as [? _].
  - destruct (cancelAuction _ w) as [r w'] eqn:E.
    by apply cancelAuction_respects in E as [? _].
  - destruct (placeBid _ _ _ w) as [r w'] eqn:E. by apply placeBid_respects in E as [? _].
  - destruct (withdrawBid _ _ w) as [r w'] eqn:E.
    by apply withdrawBid_respects in E as [? _].
  - destruct (lockDue _ w) as [r w'] eqn:E. revert E. unfold lockDue.
    intros E. eapply (respects_bind _ HR) in E as [? _]; [done| |intros ?].
    + apply (respects_newDate _ HR).
    + apply (respects_bind _ HR); [apply (respects_newObjectId _ HR)|intros ?].
      apply lockDueRound_respects.
  - destruct (settleClosingAuction _ _ w) as [r w'] eqn:E.
    by apply settleClosingAuction_respects in E as [? _].
  - destruct (tick _ w) as [r w'] eqn:E. by apply tick_respects in E as [? _].
Qed.

Lemma run_respects (ops : list Op) (w : World) : R w (run ops w).
Proof.
  revert w. induction ops as [|op ops IH]; intros w; simpl; [apply HR|].
  eapply HR; [apply applyOp_respects|apply IH].
Qed.
End Services.

(** * What lasts *)

Section LastingRelations.
Import Users Auctions Engine System.

Lemma sameAuction_refl (a : Auction.Doc) : sameAuction a a.
Proof. unfold sameAuction. split_and!; try done. Qed.

Lemma sameAuction_trans (a b c : Auction.Doc) :
  sameAuction a b -> sameAuction b c -> sameAuction a c.
Proof.
  unfold sameAuction.
  intros (A1 & A2 & A3 & A4 & A5 & A6 & A7) (B1 & B2 & B3 & B4 & B5 & B6 & B7).
  split_and!; try congruence; try lia.
  - intros Hd. destruct (A6 Hd) as (Hs & ? & ?). destruct (B6 Hs) as (? & ? & ?).
    split_and!; congruence.
  - intros Ht. destruct (A7 Ht) as (Hs & ?). rewrite <- Hs in Ht.
    destruct (B7 Ht) as (? & ?). split_and!; intuition congruence.
Qed.

Lemma sameBid_refl (b : Bid.Doc) : sameBid b b.
Proof. unfold sameBid. by split_and!. Qed.

Lemma sameBid_trans (a b c : Bid.Doc) : sameBid a b -> sameBid b c -> sameBid a c.
Proof.
  unfold sameBid. intros (A1 & A2 & A3 & A4) (B1 & B2 & B3 & B4).
  split_and!; try congruence.
  intros Ht. rewrite (A4 Ht) in *. by apply B4.
Qed.

Lemma sameUser_refl (u : User.Doc) : sameUser u u.
Proof. unfold sameUser. split; [done|lia]. Qed.

Lemma sameUser_trans (a b c : User.Doc) : sameUser a b -> sameUser b c -> sameUser a c.
Proof. unfold sameUser. intros [? ?] [? ?]. split; [congruence|lia]. Qed.

Lemma Lasting_generator : Lasting (fun w w' => (oidGen w <= oidGen w')%N).
Proof. split; simpl; intros; lia. Qed.

Lemma Lasting_appendOnly : Lasting appendOnly.
Proof.
  split; unfold appendOnly; simpl; intros; try done.
  destruct H, H0. split; by etrans.
Qed.

Lemma Lasting_auctionsLast : Lasting auctionsLast.
Proof.
  split; unfold auctionsLast; simpl.
  - intros w id a Ha. exists a. split; [done|apply sameAuction_refl].
  - intros w1 w2 w3 H12 H23 id a Ha.
    destruct (H12 id a Ha) as (a' & Ha' & S1). destruct (H23 id a' Ha') as (a'' & Ha'' & S2).
    exists a''. split; [done|]. by eapply sameAuction_trans.
  - intros w g c l _ id a Ha. exists a. split; [done|apply sameAuction_refl].
  - intros w locks id a Ha. exists a. split; [done|apply sameAuction_refl].
Qed.

Lemma Lasting_bidsLast : Lasting bidsLast.
Proof.
  split; unfold bidsLast; simpl.
  - intros w id a Ha. exists a. split; [done|apply sameBid_refl].
  - intros w1 w2 w3 H12 H23 id a Ha.
    destruct (H12 id a Ha) as (a' & Ha' & S1). destruct (H23 id a' Ha') as (a'' & Ha'' & S2).
    exists a''. split; [done|]. by eapply sameBid_trans.
  - intros w g c l _ id a Ha. exists a. split; [done|apply sameBid_refl].
  - intros w locks id a Ha. exists a. split; [done|apply sameBid_refl].
Qed.

Lemma Lasting_usersLast : Lasting usersLast.
Proof.
  split; unfold usersLast; simpl.
  - intros w id a Ha. exists a. split; [done|apply sameUser_refl].
  - intros w1 w2 w3 H12 H23 id a Ha.
    destruct (H12 id a Ha) as (a' & Ha' & S1). destruct (H23 id a' Ha') as (a'' & Ha'' & S2).
    exists a''. split; [done|]. by eapply sameUser_trans.
  - intros w g c l _ id a Ha. exists a. split; [done|apply sameUser_refl].
  - intros w locks id a Ha. exists a. split; [done|apply sameUser_refl].
Qed.

(** The generator never goes back. *)
Lemma run_generator (ops : list Op) (w : World) : (oidGen w <= oidGen (run ops w))%N.
Proof. apply (run_respects _ Lasting_generator); simpl; intros; lia. Qed.

(** X5. The ledger and the rounds are append-only.  Whatever calls the
    service runs, from whatever state, and whether they succeed or fail,
    every ledger entry and every Round document that was in the store is
    still there afterwards, unchanged. *)
Theorem ledger_and_rounds_append_only (ops : list Op) (w : World) :
  ledger (db w) ⊆ ledger (db (run ops w))
  /\ rounds (db w) ⊆ rounds (db (run ops w)).
Proof.
  apply (run_respects appendOnly Lasting_appendOnly); unfold appendOnly; simpl;
    intros; try done; (split; [try done|try done]); by apply insert_subseteq.
Qed.

(** X6. Auction documents last.  Whatever calls the service runs, an
    auction stays in the store with its [createdAt], [title],
    [totalQuantity] and [config]; its [version] never goes down; once it
    has left [draft] it never is a draft again and keeps [startedAt] and
    [endsAt]; and once it is [ended] or [cancelled] its state, end time,
    end reason, awarded count, revenue and round fields never change. *)
Theorem auction_documents_last (ops : list Op) (w : World) (id : ObjectId)
    (a : Auction.Doc) :
  auctions (db w) !! id = Some a ->
  exists a', auctions (db (run ops w)) !! id = Some a' /\ sameAuction a a'.
Proof.
  revert id a. change (auctionsLast w (run ops w)).
  apply (run_respects auctionsLast Lasting_auctionsLast); unfold auctionsLast; simpl;
    intros; try (eexists; split; [eassumption|apply sameAuction_refl]).
  - destruct (decide (id0 = id)) as [->|Hne].
    + congruence.
    + rewrite lookup_insert_ne by done. eexists; split; [eassumption|apply sameAuction_refl].
  - destruct (decide (id0 = id)) as [->|Hne].
    + rewrite lookup_insert_eq. eexists; split; [done|]. congruence.
    + rewrite lookup_insert_ne by done. eexists; split; [eassumption|apply sameAuction_refl].
Qed.

(** X7. Bids last.  Whatever calls the service runs, a bid stays in the
    store under its [_id] with its auction, its user and its [createdAt];
    a bid that has won or lost is never written again. *)
Theorem bid_documents_last (ops : list Op) (w : World) (id : ObjectId) (b : Bid.Doc) :
  bids (db w) !! id = Some b ->
  exists b', bids (db (run ops w)) !! id = Some b' /\ sameBid b b'.
Proof.
  revert id b. change (bidsLast w (run ops w)).
  apply (run_respects bidsLast Lasting_bidsLast); unfold bidsLast; simpl;
    intros; try (eexists; split; [eassumption|apply sameBid_refl]).
  - destruct (decide (id0 = id)) as [->|Hne].
    + congruence.
    + rewrite lookup_insert_ne by done. eexists; split; [eassumption|apply sameBid_refl].
  - destruct (decide (id0 = id)) as [->|Hne].
    + rewrite lookup_insert_eq. eexists; split; [done|]. congruence.
    + rewrite lookup_insert_ne by done. eexists; split; [eassumption|apply sameBid_refl].
Qed.

(** X8. Users last.  Whatever calls the service runs, a user stays in the
    store with the [createdAt] it was created with, and [totalTopups]
    never goes down. *)
Theorem user_documents_last (ops : list Op) (w : World) (id : ObjectId) (u : User.Doc) :
  users (db w) !! id = Some u ->
  exists u', users (db (run ops w)) !! id = Some u' /\ sameUser u u'.
Proof.
  revert id u. change (usersLast w (run ops w)).
  apply (run_respects usersLast Lasting_usersLast); unfold usersLast; simpl;
    intros; try (eexists; split; [eassumption|apply sameUser_refl]).
  - destruct (decide (id0 = id)) as [->|Hne].
    + congruence.
    + rewrite lookup_insert_ne by done. eexists; split; [eassumption|apply sameUser_refl].
  - destruct (decide (id0 = id)) as [->|Hne].
    + rewrite lookup_insert_eq. eexists; split; [done|]. congruence.
    + rewrite lookup_insert_ne by done. eexists; split; [eassumption|apply sameUser_refl].
Qed.
End LastingRelations.

Section LastingOnSamples.
Import Users Auctions Engine System Samples.

(** The round of auction 6 of [openWorld] is locked and settled: the
    auction, the bid 7 of user 0 and user 0 are still there. *)
Lemma auction_documents_last_witness :
  exists a a',
    auctions (db openWorld) !! 6%N = Some a
    /\ auctions (db (run [OpSetClock 20000; OpLockDueRound 6%N; OpSettle 6%N 13%N]
                       openWorld)) !! 6%N = Some a'
    /\ sameAuction a a'.
Proof.
  assert (Ha : is_Some (auctions (db openWorld) !! 6%N)) by (vm_compute; eauto).
  destruct Ha as [a Ha]. exists a.
  destruct (auction_documents_last
              [OpSetClock 20000; OpLockDueRound 6%N; OpSettle 6%N 13%N] openWorld 6%N a Ha)
    as (a' & Ha' & Hsame).
  exists a'. split; [exact Ha|]. split; [exact Ha'|exact Hsame].
Defined.

Lemma bid_documents_last_witness :
  exists b b',
    bids (db openWorld) !! 7%N = Some b
    /\ bids (db (run [OpSetClock 20000; OpLockDueRound 6%N; OpSettle 6%N 13%N]
                   openWorld)) !! 7%N = Some b'
    /\ sameBid b b'.
Proof.
  assert (Hb : is_Some (bids (db openWorld) !! 7%N)) by (vm_compute; eauto).
  destruct Hb as [b Hb]. exists b.
  destruct (bid_documents_last
              [OpSetClock 20000; OpLockDueRound 6%N; OpSettle 6%N 13%N] openWorld 7%N b Hb)
    as (b' & Hb' & Hsame).
  exists b'. split; [exact Hb|]. split; [exact Hb'|exact Hsame].
Defined.

Lemma user_documents_last_witness :
  exists u u',
    users (db openWorld) !! 0%N = Some u
    /\ users (db (run [OpTopupUser 0%N 5; OpPlaceBid 6%N 0%N 120] openWorld)) !! 0%N
       = Some u'
    /\ sameUser u u'.
Proof.
  assert (Hu : is_Some (users (db openWorld) !! 0%N)) by (vm_compute; eauto).
  destruct Hu as [u Hu]. exists u.
  destruct (user_documents_last
              [OpTopupUser 0%N 5; OpPlaceBid 6%N 0%N 120] openWorld 0%N u Hu)
    as (u' & Hu' & Hsame).
  exists u'. split; [exact Hu|]. split; [exact Hu'|exact Hsame].
Defined.
End LastingOnSamples.

(** * Fresh identifiers *)

Section Freshly.

Lemma Fresh_meta (w : World) (g : ObjectId) (c : Z) (l : list LogLine) :
  Fresh w -> (oidGen w <= g)%N -> Fresh (mkWorld (db w) g c l).
Proof.
  unfold Fresh. simpl. intros (F1 & F2 & F3 & F4 & F5) Hg.
  split_and!; intros id Hid;
    [apply F1 in Hid|apply F2 in Hid|apply F3 in Hid|apply F4 in Hid|apply F5 in Hid]; lia.
Qed.

Lemma freshly_ret {A} (b : ObjectId) (a : A) : freshly b (ret a).
Proof. intros w r w' HF Hb [= <- <-]. split; [done|lia]. Qed.

Lemma freshly_throw {A} (b : ObjectId) (e : Thrown) : freshly b (@throw A e).
Proof. intros w r w' HF Hb [= <- <-]. split; [done|lia]. Qed.

Lemma freshly_newDate (b : ObjectId) : freshly b newDate.
Proof. intros w r w' HF Hb [= <- <-]. split; [done|lia]. Qed.

Lemma freshly_logInfo (b : ObjectId) (msg : string) : freshly b (logInfo msg).
Proof. intros w r w' HF Hb [= <- <-]. simpl. split; [by apply Fresh_meta|lia]. Qed.

Lemma freshly_logError (b : ObjectId) (msg : string) : freshly b (logError msg).
Proof. intros w r w' HF Hb [= <- <-]. simpl. split; [by apply Fresh_meta|lia]. Qed.

Lemma freshly_readDb {A} (b : ObjectId) (f : Db -> A) : freshly b (readDb f).
Proof. intros w r w' HF Hb [= <- <-]. split; [done|lia]. Qed.

Lemma freshly_later {A} (b b' : ObjectId) (m : M A) :
  freshly b m -> (b <= b')%N -> freshly b' m.
Proof. intros Hm Hb w r w' HF Hb' H. apply (Hm w r w'); [done|lia|done]. Qed.

Lemma freshly_bind {A B} (b : ObjectId) (m : M A) (k : A -> M B) :
  freshly b m -> (forall a, freshly b (k a)) -> freshly b (bind m k).
Proof.
  intros Hm Hk w r w' HF Hb. unfold bind. destruct (m w) as [[a|e] w1] eqn:E.
  - intros H. destruct (Hm _ _ _ HF Hb E) as [HF1 Hg].
    destruct (Hk a w1 r w' HF1 ltac:(lia) H). split; [done|lia].
  - intros [= <- <-]. by apply (Hm _ _ _ HF Hb E).
Qed.

(** An identifier drawn from the generator may be inserted from then on. *)
Lemma freshly_newObjectId {B} (b : ObjectId) (k : ObjectId -> M B) :
  (forall id, (b <= id)%N -> freshly (N.succ id) (k id)) ->
  freshly b (bind newObjectId k).
Proof.
  intros Hk w r w' HF Hb. unfold bind, newObjectId. intros H.
  destruct (Hk (oidGen w) Hb _ _ _ (Fresh_meta w (N.succ (oidGen w)) (clock w) (logs w) HF
                                     ltac:(lia)) ltac:(simpl; lia) H) as [? Hg].
  simpl in Hg. split; [done|lia].
Qed.

Lemma freshly_forEach {X} (b : ObjectId) (l : list X) (body : X -> M unit) :
  (forall x, freshly b (body x)) -> freshly b (forEach l body).
Proof.
  intros Hb. induction l as [|x l IH]; simpl; [apply freshly_ret|].
  apply freshly_bind; [apply Hb|done].
Qed.

Lemma freshly_tryCatch {A} (b : ObjectId) (m : M A) (h : Thrown -> M A) :
  freshly b m -> (forall e, freshly b (h e)) -> freshly b (tryCatch m h).
Proof.
  intros Hm Hh w r w' HF Hb. unfold tryCatch. destruct (m w) as [[a|e] w1] eqn:E.
  - intros [= <- <-]. by apply (Hm _ _ _ HF Hb E).
  - intros H. destruct (Hm _ _ _ HF Hb E) as [HF1 Hg].
    destruct (Hh e w1 r w' HF1 ltac:(lia) H). split; [done|lia].
Qed.

Lemma freshly_withTxnAttempts {A} (b : ObjectId) (n : nat) (retry : bool) (fn : M A) :
  freshly b fn -> freshly b (withTxnAttempts n retry fn).
Proof.
  intros Hfn. induction n as [|n IH]; intros w r w' HF Hb; simpl.
  - destruct (fn w) as [[a|e] w1] eqn:E; intros [= <- <-].
    + by apply (Hfn _ _ _ HF Hb E).
    + destruct (Hfn _ _ _ HF Hb E). split; [by apply Fresh_meta|done].
  - destruct (fn w) as [[a|e] w1] eqn:E.
    + intros [= <- <-]. by apply (Hfn _ _ _ HF Hb E).
    + destruct (Hfn _ _ _ HF Hb E) as [_ Hm].
      destruct (isTransientTxnError e || retry && Store.isDuplicateKeyError e).
      * intros H.
        destruct (IH (abortTo w w1) r w' (Fresh_meta w _ _ _ HF Hm) ltac:(simpl; lia) H)
          as [? Hm'].
        simpl in Hm'. split; [done|lia].
      * intros [= <- <-]. split; [by apply Fresh_meta|done].
Qed.

Lemma freshly_withTxn {A} (b : ObjectId) (fn : M A) (opts : TxnOptions) :
  freshly b fn -> freshly b (withTxn fn opts).
Proof.
  intros Hfn. unfold withTxn. destruct (default 5%nat (maxAttempts opts)).
  - apply freshly_throw.
  - by apply freshly_withTxnAttempts.
Qed.

Ltac counted :=
  split;
  [ intros w id d (F1 & F2 & F3 & F4 & F5) Hid; unfold Fresh; simpl;
    split_and!; try done; intros j Hj;
    (destruct (decide (j = id)) as [->|Hne]; [done|]);
    rewrite lookup_insert_ne in Hj by done; auto
  | intros w id (F1 & F2 & F3 & F4 & F5) Hid; simpl in Hid; auto ].

Lemma Counted_users : Counted colUsers.
Proof. counted. Qed.

Lemma Counted_auctions : Counted colAuctions.
Proof. counted. Qed.

Lemma Counted_bids : Counted colBids.
Proof. counted. Qed.

Lemma Counted_rounds : Counted colRounds.
Proof. counted. Qed.

Lemma Counted_ledger : Counted colLedger.
Proof. counted. Qed.

Section FreshCollections.
Context {D : Type} (col : Collection D) (Hcol : Counted col).

Lemma freshly_findOne (b id : ObjectId) (f : D -> bool) : freshly b (findOne col id f).
Proof. intros w r w' HF Hb [= <- <-]. split; [done|lia]. Qed.

Lemma freshly_find (b : ObjectId) (f : ObjectId -> D -> bool) : freshly b (find col f).
Proof. intros w r w' HF Hb [= <- <-]. split; [done|lia]. Qed.

Lemma freshly_findFirst (b : ObjectId) (f : ObjectId -> D -> bool) :
  freshly b (findFirst col f).
Proof. intros w r w' HF Hb [= <- <-]. split; [done|lia]. Qed.

Lemma freshly_insertOne (b id : ObjectId) (d : D) :
  (id < b)%N -> freshly b (insertOne col id d).
Proof.
  intros Hid w r w' HF Hb. unfold insertOne, bind, readDb, throw, writeDb.
  destruct (getCol col (db w) !! id) eqn:E; [intros [= <- <-]; split; [done|lia]|].
  destruct (firstViolation _ _ _ _ _); intros [= <- <-]; (split; [|simpl; lia]).
  - done.
  - apply (proj1 Hcol); [done|lia].
Qed.

Lemma freshly_findOneAndUpdate (b id : ObjectId) (f : D -> bool) (upd : D -> D) :
  freshly b (findOneAndUpdate col id f upd).
Proof.
  intros w r w' HF Hb. unfold findOneAndUpdate, bind, readDb, throw, writeDb, ret.
  destruct (getCol col (db w) !! id) as [d|] eqn:E;
    [|intros [= <- <-]; split; [done|lia]].
  destruct (f d) eqn:Ef; [|intros [= <- <-]; split; [done|lia]].
  destruct (firstViolation _ _ _ _ _); intros [= <- <-]; (split; [|simpl; lia]).
  - done.
  - apply (proj1 Hcol); [done|]. apply (proj2 Hcol); [done|]. by rewrite E.
Qed.

Lemma freshly_updateOne (b id : ObjectId) (f : D -> bool) (upd : D -> D) :
  freshly b (updateOne col id f upd).
Proof.
  unfold updateOne. apply freshly_bind.
  - apply freshly_findOneAndUpdate.
  - intros ?. apply freshly_ret.
Qed.
End FreshCollections.
End Freshly.

Ltac counted_col :=
  first [ apply Counted_users | apply Counted_auctions | apply Counted_bids
        | apply Counted_rounds | apply Counted_ledger ].

Ltac freshly_with known :=
  repeat first
    [ progress cbv zeta
    | known
    | apply freshly_ret
    | apply freshly_throw
    | apply freshly_newDate
    | apply freshly_logInfo
    | apply freshly_logError
    | apply freshly_readDb
    | apply freshly_findOne
    | apply freshly_find
    | apply freshly_findFirst
    | apply freshly_withTxn
    | apply freshly_forEach; intros ?
    | apply freshly_tryCatch; [|intros ?]
    | apply freshly_insertOne; [counted_col|lia]
    | apply freshly_findOneAndUpdate; counted_col
    | apply freshly_updateOne; counted_col
    | match goal with |- freshly _ (if ?c then _ else _) => destruct c end
    | match goal with |- freshly _ (match ?x with _ => _ end) => destruct x end
    | apply freshly_newObjectId; intros ? ?
    | apply freshly_bind; [|intros ?] ].

Ltac freshly_go := freshly_with fail.

Section FreshServices.
Import Users Auctions Engine System.

Lemma createUser_freshly b : freshly b createUser.
Proof. unfold createUser. freshly_go. Qed.

Lemma topupUser_freshly b userId amount : freshly b (topupUser userId amount).
Proof. unfold topupUser, topupUserTxn. freshly_go. Qed.

Lemma createAuction_freshly b input : freshly b (createAuction input).
Proof. unfold createAuction. freshly_go. Qed.

Lemma startAuction_freshly b auctionId : freshly b (startAuction auctionId).
Proof. unfold startAuction, startAuctionTxn. freshly_go. Qed.

Lemma cancelAuction_freshly b auctionId : freshly b (cancelAuction auctionId).
Proof. unfold cancelAuction, cancelAuctionTxn. freshly_go. Qed.

Lemma placeBid_freshly b auctionId userId newAmount :
  freshly b (placeBid auctionId userId newAmount).
Proof. unfold placeBid, placeBidTxn. freshly_go. Qed.

Lemma withdrawBid_freshly b auctionId userId : freshly b (withdrawBid auctionId userId).
Proof. unfold withdrawBid, withdrawBidTxn. freshly_go. Qed.

Lemma settleClosingAuction_freshly b auctionId closingToken :
  freshly b (settleClosingAuction auctionId closingToken).
Proof.
  unfold settleClosingAuction, settleClosingAuctionTxn, findWinnerBids, settleWinner,
    refundLoser.
  freshly_go.
Qed.

Lemma tryAcquireEngineLock_freshly b ownerId ttlMs now :
  freshly b (tryAcquireEngineLock ownerId ttlMs now).
Proof.
  assert (Hlock : forall f : gmap string EngineLock.Doc -> gmap string EngineLock.Doc,
             freshly b (writeDb (fun d => mkDb (users d) (auctions d) (bids d) (rounds d)
                                            (ledger d) (f (engineLocks d))))).
  { intros f w r w' HF Hb [= <- <-]. simpl. split; [exact HF|lia]. }
  unfold tryAcquireEngineLock. freshly_with ltac:(apply Hlock).
Qed.

Lemma lockDueRound_freshly b auctionId token threshold now :
  freshly b (lockDueRound auctionId token threshold now).
Proof. unfold lockDueRound. freshly_go. Qed.

Lemma tick_freshly b e : freshly b (tick e).
Proof.
  unfold tick, tickBody.
  freshly_with
    ltac:(first [ apply tryAcquireEngineLock_freshly | apply settleClosingAuction_freshly
                | apply lockDueRound_freshly ]).
Qed.

Lemma applyOp_fresh (op : Op) (w : World) : Fresh w -> Fresh (applyOp op w).
Proof.
  intros HF. destruct op; unfold applyOp, exec.
  - simpl. by apply Fresh_meta.
  - destruct (createUser w) as [r w'] eqn:E.
    by apply (createUser_freshly 0%N) in E as [? _]; [|done|lia].
  - destruct (topupUser _ _ w) as [r w'] eqn:E.
    by apply (topupUser_freshly 0%N) in E as [? _]; [|done|lia].
  - destruct (createAuction _ w) as [r w'] eqn:E.
    by apply (createAuction_freshly 0%N) in E as [? _]; [|done|lia].
  - destruct (startAuction _ w) as [r w'] eqn:E.
    by apply (startAuction_freshly 0%N) in E as [? _]; [|done|lia].
  - destruct (cancelAuction _ w) as [r w'] eqn:E.
    by apply (cancelAuction_freshly 0%N) in E as [? _]; [|done|lia].
  - destruct (placeBid _ _ _ w) as [r w'] eqn:E.
    by apply (placeBid_freshly 0%N) in E as [? _]; [|done|lia].
  - destruct (withdrawBid _ _ w) as [r w'] eqn:E.
    by apply (withdrawBid_freshly 0%N) in E as [? _]; [|done|lia].
  - destruct (lockDue _ w) as [r w'] eqn:E. revert E. unfold lockDue. intros E.
    eapply (freshly_bind 0%N) in E as [? _]; [done| |intros ?|done|lia].
    + apply freshly_newDate.
    + apply freshly_newObjectId. intros ? ?. apply lockDueRound_freshly.
  - destruct (settleClosingAuction _ _ w) as [r w'] eqn:E.
    by apply (settleClosingAuction_freshly 0%N) in E as [? _]; [|done|lia].
  - destruct (tick _ w) as [r w'] eqn:E.
    by apply (tick_freshly 0%N) in E as [? _]; [|done|lia].
Qed.

Lemma run_fresh (ops : list Op) (w : World) : Fresh w -> Fresh (run ops w).
Proof.
  revert w. induction ops as [|op ops IH]; intros w HF; simpl; [done|].
  by apply IH, applyOp_fresh.
Qed.

Lemma Fresh_initial : Fresh initialWorld.
Proof. unfold Fresh. simpl. split_and!; intros id [? Hid]; by rewrite lookup_empty in Hid. Qed.

Lemma reachable_fresh (ops : list Op) : Fresh (run ops initialWorld).
Proof. apply run_fresh, Fresh_initial. Qed.
End FreshServices.

(** * Users and auctions: what the calls return *)

Section Calls.
Import Users Auctions Engine System.

Lemma Fresh_next (w : World) :
  Fresh w ->
  users (db w) !! oidGen w = None /\ auctions (db w) !! oidGen w = None
  /\ bids (db w) !! oidGen w = None /\ rounds (db w) !! oidGen w = None
  /\ ledger (db w) !! oidGen w = None.
Proof.
  intros (F1 & F2 & F3 & F4 & F5).
  split_and!; apply eq_None_not_Some; intros Hs;
    [apply F1 in Hs|apply F2 in Hs|apply F3 in Hs|apply F4 in Hs|apply F5 in Hs]; lia.
Qed.

Lemma createUser_run (w : World) :
  users (db w) !! oidGen w = None ->
  createUser w
  = (Ok (oidGen w, User.mkDoc (clock w) (User.mkBalance 0 0 0) 0),
     mkWorld (setCol colUsers
                (<[oidGen w := User.mkDoc (clock w) (User.mkBalance 0 0 0) 0]>
                   (users (db w))) (db w))
       (N.succ (oidGen w)) (clock w) (logs w)).
Proof.
  intros Hu.
  unfold createUser, bind, newDate, newObjectId, insertOne, readDb, writeDb, ret.
  cbn. rewrite Hu. reflexivity.
Qed.

(** X9. [createUser] always succeeds in a state the service can reach:
    the new user gets the next identifier, the balance 0/0/0 and no
    top-ups, [getUser] finds exactly that document afterwards, and
    nothing else in the store changes. *)
Theorem createUser_succeeds (ops : list Op) :
  let w := run ops initialWorld in
  exists w',
    createUser w
    = (Ok (oidGen w, User.mkDoc (clock w) (User.mkBalance 0 0 0) 0), w')
    /\ users (db w) !! oidGen w = None
    /\ getUser (oidGen w) w'
       = (Ok (Some (User.mkDoc (clock w) (User.mkBalance 0 0 0) 0)), w')
    /\ users (db w')
       = <[oidGen w := User.mkDoc (clock w) (User.mkBalance 0 0 0) 0]> (users (db w))
    /\ auctions (db w') = auctions (db w) /\ bids (db w') = bids (db w)
    /\ rounds (db w') = rounds (db w) /\ ledger (db w') = ledger (db w).
Proof.
  intros w. destruct (Fresh_next w (reachable_fresh ops)) as (Hu & _).
  eexists. split; [by apply createUser_run|].
  split; [done|]. split.
  - unfold getUser, findOne, bind, readDb, ret. cbn. by rewrite lookup_insert_eq.
  - by split_and!.
Qed.



End Calls.

(** * Invariants of the database, from what the transactions do when they
    commit *)

Section Keeping.
Import Users Auctions Engine System.
Context (J : Db -> Prop).

Lemma keeping_ret {A} (a : A) : keeping J (ret a).
Proof. intros w r w' HJ [= <- <-]. done. Qed.

Lemma keeping_throw {A} (e : Thrown) : keeping J (@throw A e).
Proof. intros w r w' HJ [= <- <-]. done. Qed.

Lemma keeping_same {A} (m : M A) :
  (forall w r w', m w = (r, w') -> db w' = db w) -> keeping J m.
Proof. intros Hm w r w' HJ H. by rewrite (Hm _ _ _ H). Qed.

Lemma keeping_bind {A B} (m : M A) (k : A -> M B) :
  keeping J m -> (forall a, keeping J (k a)) -> keeping J (bind m k).
Proof.
  intros Hm Hk w r w' HJ. unfold bind. destruct (m w) as [[a|e] w1] eqn:E.
  - apply Hk. by eapply Hm.
  - intros [= <- <-]. by eapply Hm.
Qed.

Lemma keeping_tryCatch {A} (m : M A) (h : Thrown -> M A) :
  keeping J m -> (forall e, keeping J (h e)) -> keeping J (tryCatch m h).
Proof.
  intros Hm Hh w r w' HJ. unfold tryCatch. destruct (m w) as [[a|e] w1] eqn:E.
  - intros [= <- <-]. by eapply Hm.
  - apply Hh. by eapply Hm.
Qed.

Lemma keeping_forEach {X} (l : list X) (body : X -> M unit) :
  (forall x, keeping J (body x)) -> keeping J (forEach l body).
Proof.
  intros Hb. induction l as [|x l IH]; simpl; [apply keeping_ret|].
  apply keeping_bind; [apply Hb|done].
Qed.

Lemma keeping_withTxn {A} (fn : M A) (opts : TxnOptions) :
  (forall w a w', J (db w) -> fn w = (Ok a, w') -> J (db w')) ->
  keeping J (withTxn fn opts).
Proof. intros Hfn w r w'. by apply withTxn_preserves. Qed.

(** What the writes that commit must keep. *)
Context (Hlocks : forall d locks,
            J d -> J (mkDb (users d) (auctions d) (bids d) (rounds d) (ledger d) locks)).
Context (HcreateUser : forall w a w', J (db w) -> createUser w = (Ok a, w') -> J (db w')).
Context (Htopup : forall userId amount w a w',
            0 < amount -> J (db w) -> topupUserTxn userId amount w = (Ok a, w') -> J (db w')).
Context (HcreateAuction : forall input w a w',
            J (db w) -> createAuction input w = (Ok a, w') -> J (db w')).
Context (Hstart : forall auctionId w a w',
            J (db w) -> startAuctionTxn auctionId w = (Ok a, w') -> J (db w')).
Context (Hcancel : forall auctionId w a w',
            J (db w) -> cancelAuctionTxn auctionId w = (Ok a, w') -> J (db w')).
Context (Hplace : forall auctionId userId newAmount w a w',
            0 < newAmount -> J (db w) ->
            placeBidTxn auctionId userId newAmount w = (Ok a, w') -> J (db w')).
Context (Hwithdraw : forall auctionId userId w a w',
            J (db w) -> withdrawBidTxn auctionId userId w = (Ok a, w') -> J (db w')).
Context (Hlock : forall auctionId token threshold now w a w',
            J (db w) -> lockDueRound auctionId token threshold now w = (Ok (Some a), w') ->
            J (db w')).
Context (Hsettle : forall auctionId closingToken w u w',
            J (db w) -> settleClosingAuctionTxn auctionId closingToken w = (Ok u, w') ->
            J (db w')).

Lemma keeping_createUser : keeping J createUser.
Proof.
  intros w r w' HJ H. destruct r as [a|e]; [by eapply HcreateUser|].
  unfold createUser, bind, newDate, newObjectId in H.
  destruct (insertOne _ _ _ _) as [[u|e0] w1] eqn:E; [done|].
  apply insertOne_throw in E as ->. by injection H as _ <-.
Qed.

Lemma keeping_topupUser userId amount : keeping J (topupUser userId amount).
Proof.
  unfold topupUser. destruct (negb (isSafeInteger amount) || (amount <=? 0)) eqn:G.
  - apply keeping_throw.
  - apply orb_false_iff in G as [_ G]. apply Z.leb_gt in G.
    apply keeping_withTxn. intros ? ? ?. by apply Htopup.
Qed.

Lemma keeping_createAuction input : keeping J (createAuction input).
Proof.
  intros w r w' HJ H. destruct r as [a|e]; [by eapply HcreateAuction|].
  unfold createAuction in H.
  destruct (trimsToEmpty _); [by injection H as _ <-|].
  destruct (_ || _); [by injection H as _ <-|].
  unfold bind, newDate, newObjectId in H.
  destruct (insertOne _ _ _ _) as [[u|e0] w1] eqn:E; [done|].
  apply insertOne_throw in E as ->. by injection H as _ <-.
Qed.

Lemma keeping_placeBid auctionId userId newAmount :
  keeping J (placeBid auctionId userId newAmount).
Proof.
  unfold placeBid. destruct (negb (isSafeInteger newAmount) || (newAmount <=? 0)) eqn:G.
  - apply keeping_throw.
  - apply orb_false_iff in G as [_ G]. apply Z.leb_gt in G.
    apply keeping_withTxn. intros ? ? ?. by apply Hplace.
Qed.

Lemma keeping_lockDueRound auctionId token threshold now :
  keeping J (lockDueRound auctionId token threshold now).
Proof.
  intros w r w' HJ H. destruct r as [[a|]|e].
  - by eapply Hlock.
  - unfold lockDueRound in H. apply findOneAndUpdate_ok in H as [-> _]. done.
  - unfold lockDueRound in H. by apply findOneAndUpdate_throw in H as ->.
Qed.

Lemma keeping_settle auctionId closingToken :
  keeping J (settleClosingAuction auctionId closingToken).
Proof.
  unfold settleClosingAuction. apply keeping_tryCatch.
  - apply keeping_withTxn. intros ? ? ?. apply Hsettle.
  - intros e. destruct (isDuplicateRoundSettlement e); apply keeping_same;
      intros w r w' [= <- <-]; done.
Qed.

Lemma keeping_tryAcquireEngineLock ownerId ttlMs now :
  keeping J (tryAcquireEngineLock ownerId ttlMs now).
Proof.
  intros w r w' HJ.
  unfold tryAcquireEngineLock, tryCatch, bind, readDb, writeDb, ret, throw.
  simpl. destruct (engineLocks (db w) !! "auctionEngine") as [d|].
  - destruct (_ || _); simpl; intros [= <- <-]; simpl; [by apply Hlocks|done].
  - intros [= <- <-]. simpl. by apply Hlocks.
Qed.

Lemma keeping_tick e : keeping J (tick e).
Proof.
  assert (Hmeta : forall A (m : M A),
             (forall w r w', m w = (r, w') -> db w' = db w) -> keeping J m)
    by (intros; by apply keeping_same).
  unfold tick. destruct (stopped e || inFlight e); [apply keeping_ret|].
  apply keeping_bind; [|intros l; apply keeping_ret].
  apply keeping_tryCatch.
  2: { intros err. apply keeping_bind; [|intros _; apply keeping_ret].
       apply Hmeta. by intros w r w' [= <- <-]. }
  unfold tickBody.
  apply keeping_bind; [apply Hmeta; by intros w r w' [= <- <-]|]. intros now.
  apply keeping_bind; [apply keeping_tryAcquireEngineLock|]. intros isLeader.
  destruct isLeader; simpl.
  - apply keeping_bind.
    { destruct (negb (leader e)); [|apply keeping_ret].
      apply Hmeta. by intros w r w' [= <- <-]. }
    intros _. apply keeping_bind; [apply Hmeta; by intros w r w' [= <- <-]|].
    intros found. apply keeping_bind.
    { apply keeping_forEach. intros a.
      destruct (Auction.closingToken a.2); [apply keeping_settle|apply keeping_ret]. }
    intros _. apply keeping_bind; [apply Hmeta; by intros w r w' [= <- <-]|].
    intros foundDue. apply keeping_bind; [|intros _; apply keeping_ret].
    apply keeping_forEach. intros a.
    apply keeping_bind; [apply Hmeta; by intros w r w' [= <- <-]|]. intros token.
    apply keeping_bind; [apply keeping_lockDueRound|]. intros lock.
    destruct lock; [apply keeping_settle|apply keeping_ret].
  - apply keeping_bind; [|intros _; apply keeping_ret].
    destruct (leader e); [|apply keeping_ret].
    apply Hmeta. by intros w r w' [= <- <-].
Qed.

Lemma applyOp_keeps (op : Op) (w : World) : J (db w) -> J (db (applyOp op w)).
Proof.
  intros HJ. destruct op; unfold applyOp, exec.
  - done.
  - destruct (createUser w) eqn:E. by eapply keeping_createUser.
  - destruct (topupUser _ _ w) eqn:E. by eapply keeping_topupUser.
  - destruct (createAuction _ w) eqn:E. by eapply keeping_createAuction.
  - destruct (startAuction _ w) eqn:E. eapply keeping_withTxn; [|done|exact E].
    intros ? ? ?. apply Hstart.
  - destruct (cancelAuction _ w) eqn:E. eapply keeping_withTxn; [|done|exact E].
    intros ? ? ?. apply Hcancel.
  - destruct (placeBid _ _ _ w) eqn:E. by eapply keeping_placeBid.
  - destruct (withdrawBid _ _ w) eqn:E. eapply keeping_withTxn; [|done|exact E].
    intros ? ? ?. apply Hwithdraw.
  - destruct (lockDue _ w) eqn:E. unfold lockDue, bind, newDate, newObjectId in E.
    by eapply keeping_lockDueRound in E.
  - destruct (settleClosingAuction _ _ w) eqn:E. by eapply keeping_settle.
  - destruct (tick _ w) eqn:E. by eapply keeping_tick.
Qed.

Lemma run_keeps (ops : list Op) (w : World) : J (db w) -> J (db (run ops w)).
Proof.
  revert w. induction ops as [|op ops IH]; intros w HJ; [done|].
  simpl. apply IH. by apply applyOp_keeps.
Qed.
End Keeping.

(** * Auctions: creating, starting, listing *)

Section AuctionCalls.
Import Users Auctions Engine System.

Lemma clampInt_within (v lo hi : Z) : lo <= hi -> lo <= clampInt v lo hi <= hi.
Proof.
  intros H. unfold clampInt. destruct (v <? lo) eqn:E1; [lia|].
  destruct (v >? hi) eqn:E2; zbool; lia.
Qed.




Lemma startAuctionTxn_run (auctionId : ObjectId) (w : World) (a : Auction.Doc) :
  auctions (db w) !! auctionId = Some a -> Auction.state a = Auction.draft ->
  let now := clock w in
  let ends := if Auction.maxDurationMs (Auction.config a) >? 0
              then Some (now + Auction.maxDurationMs (Auction.config a)) else None in
  let roundEnds :=
    match ends with
    | Some e => if e <? now + Auction.roundDurationMs (Auction.config a) then e
                else now + Auction.roundDurationMs (Auction.config a)
    | None => now + Auction.roundDurationMs (Auction.config a)
    end in
  let a' := Auction.mkDoc (Auction.createdAt a) now (Auction.title a) Auction.running
              (Some now) ends None None (Auction.totalQuantity a)
              (Auction.awardedCount a) (Auction.revenue a) 1 0 (Some Auction.open)
              (Some roundEnds) (Auction.closingToken a) (Auction.closingStartedAt a)
              (Auction.version a + 1) (Auction.config a) in
  startAuctionTxn auctionId w
  = (Ok a', setDb (setCol colAuctions (<[auctionId := a']> (auctions (db w))) (db w)) w).
Proof.
  intros Ha Hs. cbv zeta.
  unfold startAuctionTxn, bind, newDate, findOne, findOneAndUpdate, readDb, writeDb, ret,
    isState.
  cbn. rewrite Ha. cbn. rewrite Hs.
  rewrite bool_decide_eq_true_2 by done. cbn. rewrite Ha. cbn. rewrite Hs.
  rewrite bool_decide_eq_true_2 by done. cbn. reflexivity.
Qed.

(** X12. [startAuction].  An unknown auction is refused with [NOT_FOUND]
    and one that is no longer a draft with [NOT_STARTABLE], nothing
    written.  A draft is started: it is [running] in round 1, the round is
    [open], [startedAt] is now, [endsAt] is now plus [maxDurationMs] when
    that is positive and absent otherwise, the round ends after
    [roundDurationMs] but not after [endsAt], the version goes up by one,
    and what the auction sells, has awarded and is configured with stays;
    no other document changes. *)
Theorem startAuction_behaviour (auctionId : ObjectId) (w : World) :
  (auctions (db w) !! auctionId = None ->
   startAuction auctionId w = (Throw (appError NOT_FOUND "Auction not found" 404), w))
  /\ (forall a, auctions (db w) !! auctionId = Some a ->
        Auction.state a <> Auction.draft ->
        startAuction auctionId w
        = (Throw (appError NOT_STARTABLE "Auction not startable" 409), w))
  /\ (forall a, auctions (db w) !! auctionId = Some a ->
        Auction.state a = Auction.draft ->
        exists a' w',
          startAuction auctionId w = (Ok a', w')
          /\ Auction.state a' = Auction.running
          /\ Auction.currentRound a' = 1
          /\ Auction.roundState a' = Some Auction.open
          /\ Auction.startedAt a' = Some (clock w)
          /\ Auction.endsAt a'
             = (if 0 <? Auction.maxDurationMs (Auction.config a)
                then Some (clock w + Auction.maxDurationMs (Auction.config a))
                else None)
          /\ Auction.roundEndsAt a'
             = Some (clock w
                     + (if 0 <? Auction.maxDurationMs (Auction.config a)
                        then Z.min (Auction.roundDurationMs (Auction.config a))
                               (Auction.maxDurationMs (Auction.config a))
                        else Auction.roundDurationMs (Auction.config a)))
          /\ Auction.consecutiveEmptyRounds a' = 0
          /\ Auction.endedAt a' = None /\ Auction.endReason a' = None
          /\ Auction.version a' = Auction.version a + 1
          /\ Auction.title a' = Auction.title a
          /\ Auction.totalQuantity a' = Auction.totalQuantity a
          /\ Auction.awardedCount a' = Auction.awardedCount a
          /\ Auction.revenue a' = Auction.revenue a
          /\ Auction.config a' = Auction.config a
          /\ auctions (db w') = <[auctionId := a']> (auctions (db w))
          /\ users (db w') = users (db w) /\ bids (db w') = bids (db w)
          /\ rounds (db w') = rounds (db w) /\ ledger (db w') = ledger (db w)
          /\ oidGen w' = oidGen w).
Proof.
  split_and!.
  - intros Ha. apply withTxn_appError.
    unfold startAuctionTxn, bind, newDate, findOne, readDb, ret. cbn. by rewrite Ha.
  - intros a Ha Hs. apply withTxn_appError.
    unfold startAuctionTxn, bind, newDate, findOne, readDb, ret, isState. cbn.
    rewrite Ha. cbn. by rewrite bool_decide_eq_false_2.
  - intros a Ha Hs. eexists _, _. split.
    { apply withTxn_returns; [done|]. by apply startAuctionTxn_run. }
    cbn. rewrite Z.gtb_ltb.
    destruct (0 <? Auction.maxDurationMs (Auction.config a)) eqn:G.
    + split_and!; try done. f_equal.
      destruct (_ + _ <? _) eqn:G2; zbool; lia.
    + by split_and!.
Qed.
End AuctionCalls.

(** * Transactions, the engine lock and the tick *)

Section EngineFacts.
Import Users Auctions Engine System.

Lemma sorted_lookup {A} (R : A -> A -> Prop) (l : list A) (i j : nat) (x y : A) :
  StronglySorted R l -> l !! i = Some x -> l !! j = Some y -> (i < j)%nat -> R x y.
Proof.
  intros Hs. revert i j x y. induction Hs as [|z l Hs IH Hz]; intros i j x y Hi Hj Hij.
  - done.
  - destruct j as [|j]; [lia|]. simpl in Hj. destruct i as [|i].
    + injection Hi as <-. rewrite Forall_forall in Hz. apply Hz.
      by eapply list_elem_of_lookup_2.
    + simpl in Hi. apply (IH i j); [done|done|lia].
Qed.

Lemma filter_all {A} (l : list A) : List.filter (fun _ => true) l = l.
Proof. induction l as [|x l IH]; simpl; by rewrite ?IH. Qed.

(** X13. [listAuctions] never throws and writes nothing.  It returns at
    most 50 auctions, all of them when the store has no more than 50,
    each with the document the store holds and none twice, the newest
    first; an auction left out was created no later than any listed
    one. *)
Theorem listAuctions_newest_first (w : World) :
  exists l,
    listAuctions w = (Ok l, w)
    /\ length l = Nat.min 50 (size (auctions (db w)))
    /\ NoDup l.*1
    /\ (forall x, x ∈ l -> auctions (db w) !! x.1 = Some x.2)
    /\ (forall i j x y, l !! i = Some x -> l !! j = Some y -> (i < j)%nat ->
                        Auction.createdAt y.2 <= Auction.createdAt x.2)
    /\ (forall id a x, auctions (db w) !! id = Some a -> (id, a) ∉ l -> x ∈ l ->
                       Auction.createdAt a <= Auction.createdAt x.2).
Proof.
  set (cmp := fun a b : ObjectId * Auction.Doc =>
                Auction.createdAt b.2 - Auction.createdAt a.2).
  set (sorted := sortBy cmp (map_to_list (auctions (db w)))).
  assert (Htot : forall x y, cmp x y <= 0 \/ cmp y x <= 0) by (unfold cmp; lia).
  assert (Htr : forall x y z, cmp x y <= 0 -> cmp y z <= 0 -> cmp x z <= 0)
    by (unfold cmp; lia).
  pose proof (sortBy_sorted cmp Htot Htr (map_to_list (auctions (db w)))) as Hsorted.
  pose proof (sortBy_perm cmp (map_to_list (auctions (db w)))) as Hperm.
  fold sorted in Hsorted, Hperm.
  exists (take 50 sorted). split_and!.
  - unfold listAuctions, find, bind, readDb, ret. cbn. rewrite filter_all.
    fold cmp. fold sorted. reflexivity.
  - rewrite length_take. rewrite Hperm. by rewrite length_map_to_list.
  - rewrite fmap_take. apply (sublist_NoDup _ (sorted.*1)); [|apply sublist_take].
    rewrite Hperm. apply NoDup_fst_map_to_list.
  - intros [k a] Hx. apply subseteq_take in Hx. rewrite Hperm in Hx.
    by apply elem_of_map_to_list in Hx.
  - intros i j x y Hi Hj Hij.
    apply lookup_take_Some in Hi as [Hi _]. apply lookup_take_Some in Hj as [Hj _].
    pose proof (sorted_lookup _ _ _ _ _ _ Hsorted Hi Hj Hij) as Hle.
    unfold cmpLe, cmp in Hle. lia.
  - intros id a x Ha Hout Hx.
    assert (Hin : (id, a) ∈ sorted) by (rewrite Hperm; by apply elem_of_map_to_list).
    rewrite <- (take_drop 50 sorted) in Hin, Hsorted.
    apply elem_of_app in Hin as [Hin|Hin]; [done|].
    pose proof (sorted_app_ranks cmp _ _ _ _ Hsorted Hx Hin) as Hle.
    unfold cmpLe, cmp in Hle. simpl in Hle. lia.
Qed.

(** X14. [withTxn].  With [maxAttempts] 0 the callback is never run and
    the call throws [undefined], the value of the unset [lastErr].
    Otherwise: a result is the result of a run of the callback that
    started from the database the call found; when the call throws, the
    database is as it was before the call; and an error of the first run
    that is neither transient nor a duplicate key to be retried is thrown
    as it is, without a second run. *)
Theorem withTxn_policy {A} (fn : M A) (opts : TxnOptions) (w : World) :
  (maxAttempts opts = Some 0%nat -> withTxn fn opts w = (Throw ThrownUndefined, w))
  /\ (forall a w', withTxn fn opts w = (Ok a, w') ->
        exists w0, db w0 = db w /\ fn w0 = (Ok a, w'))
  /\ (forall e w', withTxn fn opts w = (Throw e, w') -> db w' = db w)
  /\ (forall a w1, maxAttempts opts <> Some 0%nat -> fn w = (Ok a, w1) ->
        withTxn fn opts w = (Ok a, w1))
  /\ (forall e w1, maxAttempts opts <> Some 0%nat -> fn w = (Throw e, w1) ->
        isTransientTxnError e = false ->
        retryOnDuplicateKey opts = Some true -> Store.isDuplicateKeyError e = false ->
        withTxn fn opts w = (Throw e, abortTo w w1))
  /\ (forall e w1, maxAttempts opts <> Some 0%nat -> fn w = (Throw e, w1) ->
        isTransientTxnError e = false ->
        retryOnDuplicateKey opts <> Some true ->
        withTxn fn opts w = (Throw e, abortTo w w1)).
Proof.
  split_and!.
  - intros H. unfold withTxn. by rewrite H.
  - intros a w' H. by apply withTxn_run in H.
  - intros e w' H. by apply withTxn_run in H.
  - intros a w1 Hm Hfn. unfold withTxn.
    destruct (default 5%nat (maxAttempts opts)) as [|n] eqn:En.
    { destruct (maxAttempts opts) as [[|]|]; done. }
    destruct n; simpl; by rewrite Hfn.
  - intros e w1 Hm Hfn Ht Hr Hd. unfold withTxn. rewrite Hr.
    destruct (default 5%nat (maxAttempts opts)) as [|n] eqn:En.
    { destruct (maxAttempts opts) as [[|]|]; done. }
    destruct n; simpl; rewrite Hfn, ?Ht, ?Hd; done.
  - intros e w1 Hm Hfn Ht Hr. unfold withTxn.
    assert (default false (retryOnDuplicateKey opts) = false) as ->
      by (destruct (retryOnDuplicateKey opts) as [[|]|]; done).
    destruct (default 5%nat (maxAttempts opts)) as [|n] eqn:En.
    { destruct (maxAttempts opts) as [[|]|]; done. }
    destruct n; simpl; rewrite Hfn, ?Ht; done.
Qed.

Lemma tryAcquireEngineLock_run (ownerId : ObjectId) (ttlMs now : Z) (w : World) :
  let held :=
    match engineLocks (db w) !! "auctionEngine" with
    | Some d => negb ((EngineLock.ownerId d =? ownerId)%N || (EngineLock.expiresAt d <=? now))
    | None => false
    end in
  tryAcquireEngineLock ownerId ttlMs now w
  = if held then (Ok false, w)
    else (Ok true,
          mkWorld (mkDb (users (db w)) (auctions (db w)) (bids (db w)) (rounds (db w))
                     (ledger (db w))
                     (<["auctionEngine" := EngineLock.mkDoc ownerId (now + ttlMs) now]>
                        (engineLocks (db w))))
            (oidGen w) (clock w) (logs w)).
Proof.
  cbv zeta. unfold tryAcquireEngineLock, tryCatch, bind, readDb, writeDb, ret, throw.
  cbn. destruct (engineLocks (db w) !! "auctionEngine") as [d|]; cbn.
  - destruct (_ || _); cbn; [|done]. by rewrite N.eqb_refl.
  - by rewrite N.eqb_refl.
Qed.

(** X15. The engine lock excludes.  [tryAcquireEngineLock] never throws.
    When it fails it writes nothing.  When it succeeds the lock names the
    caller and expires [ttlMs] after [now]; until then another owner
    fails to take it and changes nothing; from then on another owner
    takes it; and the holder itself renews it at any time. *)
Theorem engine_lock_excludes (ownerA ownerB : ObjectId) (ttlMs ttlMs' now now' : Z)
    (w : World) :
  exists b w1,
    tryAcquireEngineLock ownerA ttlMs now w = (Ok b, w1)
    /\ (b = false -> w1 = w)
    /\ (b = true ->
        engineLocks (db w1) !! "auctionEngine"
        = Some (EngineLock.mkDoc ownerA (now + ttlMs) now)
        /\ (ownerB <> ownerA -> now' < now + ttlMs ->
            tryAcquireEngineLock ownerB ttlMs' now' w1 = (Ok false, w1))
        /\ (now + ttlMs <= now' ->
            exists w2, tryAcquireEngineLock ownerB ttlMs' now' w1 = (Ok true, w2)
                       /\ engineLocks (db w2) !! "auctionEngine"
                          = Some (EngineLock.mkDoc ownerB (now' + ttlMs') now'))
        /\ (exists w2, tryAcquireEngineLock ownerA ttlMs' now' w1 = (Ok true, w2)
                       /\ engineLocks (db w2) !! "auctionEngine"
                          = Some (EngineLock.mkDoc ownerA (now' + ttlMs') now'))).
Proof.
  rewrite tryAcquireEngineLock_run.
  destruct (match engineLocks (db w) !! "auctionEngine" with
            | Some d => _ | None => false end) eqn:Hheld.
  - exists false, w. by split_and!.
  - eexists true, _. split; [done|]. split; [done|]. intros _.
    split; [cbn; by rewrite lookup_insert_eq|]. split_and!.
    + intros Hne Hlt. rewrite tryAcquireEngineLock_run. cbn.
      rewrite lookup_insert_eq. cbn.
      destruct (N.eqb_spec ownerA ownerB); [congruence|].
      destruct (Z.leb_spec (now + ttlMs) now'); [lia|]. done.
    + intros Hle. rewrite tryAcquireEngineLock_run. cbn.
      rewrite lookup_insert_eq. cbn.
      destruct (Z.leb_spec (now + ttlMs) now'); [|lia].
      rewrite orb_true_r. cbn. eexists. split; [done|]. cbn.
      by rewrite lookup_insert_eq.
    + rewrite tryAcquireEngineLock_run. cbn.
      rewrite lookup_insert_eq. cbn. rewrite N.eqb_refl. cbn.
      eexists. split; [done|]. cbn. by rewrite lookup_insert_eq.
Qed.

Lemma settleClosingAuction_returns (auctionId closingToken : ObjectId) (w : World) :
  exists w', settleClosingAuction auctionId closingToken w = (Ok tt, w')
             /\ ((exists w0, db w0 = db w
                             /\ settleClosingAuctionTxn auctionId closingToken w0
                                = (Ok tt, w'))
                 \/ db w' = db w).
Proof.
  unfold settleClosingAuction, tryCatch.
  destruct (withTxn _ _ w) as [[[]|e] w1] eqn:E.
  - exists w1. split; [done|]. left. by apply withTxn_run in E.
  - apply withTxn_run in E.
    destruct (isDuplicateRoundSettlement e); eexists; (split; [done|]); by right.
Qed.

Lemma forEach_returns {X} (l : list X) (body : X -> M unit) (w : World) :
  (forall x w0, exists w1, body x w0 = (Ok tt, w1)) ->
  exists w', forEach l body w = (Ok tt, w').
Proof.
  intros Hb. revert w. induction l as [|x l IH]; intros w; simpl.
  - by exists w.
  - unfold bind. destruct (Hb x w) as [w1 ->]. apply IH.
Qed.

Lemma tickBody_returns (e : EngineState) (w : World) :
  exists b w', tickBody e w = (Ok b, w') /\ (b = false -> db w' = db w).
Proof.
  unfold tickBody. unfold bind at 1. unfold newDate at 1.
  unfold bind at 1. rewrite tryAcquireEngineLock_run.
  destruct (match engineLocks (db w) !! "auctionEngine" with
            | Some d => _ | None => false end).
  - cbn [negb]. destruct (leader e); cbn; eexists _, _; by split.
  - cbn [negb]. unfold bind at 1.
    destruct (if negb (leader e) then logInfo "auctionEngine became leader" else ret tt)
      as [r0 w0] eqn:E0.
    set (w1 := mkWorld _ _ _ _) in E0.
    assert (exists w2, (r0, w0) = (Ok tt, w2)) as [w2 [= -> ->]].
    { destruct (negb (leader e)); injection E0 as <- <-; by eexists. }
    unfold bind at 1. unfold find at 1, bind at 1, readDb at 1, ret at 1.
    unfold bind at 1.
    match goal with |- context [forEach ?l ?body w2] =>
      destruct (forEach_returns l body w2) as [w3 ->] end.
    { intros x w0. destruct (Auction.closingToken x.2) as [tok|]; [|by eexists].
      destruct (settleClosingAuction_returns x.1 tok w0) as (w' & -> & _). by eexists. }
    unfold bind at 1. unfold find at 1, bind at 1, readDb at 1, ret at 1.
    unfold bind at 1.
    match goal with |- context [forEach ?l ?body w3] =>
      destruct (forEach_returns l body w3) as [w4 ->] end.
    { intros x w0. unfold bind, newObjectId.
      destruct (lockDueRound _ _ _ _ _) as [[r|err] w5] eqn:E.
      - destruct r; [|by eexists].
        match goal with |- context [settleClosingAuction ?a ?t ?w] =>
          destruct (settleClosingAuction_returns a t w) as (w' & -> & _) end.
        by eexists.
      - unfold lockDueRound in E. pose proof E as E'.
        apply findOneAndUpdate_throw in E' as ->. exfalso.
        unfold findOneAndUpdate, bind, readDb, writeDb, ret in E. cbn in E.
        destruct (auctions _ !! _); [|done]. by destruct (isDue _ _). }
    eexists _, _. split; [done|]. done.
Qed.

(** X16. The engine never throws.  [settleClosingAuction] always returns:
    either its transaction committed, or the database is as it was and
    the failure went to the log.  A [tick] of a stopped engine, or of one
    whose previous tick is still running, does nothing.  Any other tick
    returns with [inFlight] cleared and the owner, the interval and
    [stopped] as they were, and one that ends without the leadership
    leaves the database as it was. *)
Theorem engine_never_throws (e : EngineState) (auctionId closingToken : ObjectId)
    (w : World) :
  (exists w', settleClosingAuction auctionId closingToken w = (Ok tt, w')
              /\ ((exists w0, db w0 = db w
                              /\ settleClosingAuctionTxn auctionId closingToken w0
                                 = (Ok tt, w'))
                  \/ db w' = db w))
  /\ (stopped e || inFlight e = true -> tick e w = (Ok e, w))
  /\ (stopped e || inFlight e = false ->
      exists l w',
        tick e w
        = (Ok (mkEngineState (engineOwnerId e) (pollIntervalMs e) l (stopped e) false), w')
        /\ (l = false -> db w' = db w)).
Proof.
  split; [apply settleClosingAuction_returns|]. split.
  - intros H. unfold tick. by rewrite H.
  - intros H. unfold tick. rewrite H. unfold bind, tryCatch.
    destruct (tickBody_returns e w) as (b & w' & -> & Hb). by eexists _, _.
Qed.
End EngineFacts.

(** * The shape of auctions and rounds *)

(** The filters of the services, as facts about the document. *)
Ltac auction_facts :=
  unfold Engine.isDue, Engine.isClosingWith, Engine.isRunningWith,
    Auctions.isState, Auctions.isRoundState in *;
  repeat match goal with
         | H : _ && _ = true |- _ => apply andb_true_iff in H as [? ?]
         | H : bool_decide _ = true |- _ => apply bool_decide_eq_true in H
         | H : bool_decide _ = false |- _ => apply bool_decide_eq_false in H
         | H : negb _ = false |- _ => apply negb_false_iff in H
         | H : negb _ = true |- _ => apply negb_true_iff in H
         | H : _ || _ = false |- _ => apply orb_false_iff in H as [? ?]
         end.

Section ShapeFacts.
Import Users Auctions Engine System.

Lemma Shape_frame (d : Db) us bs ls els :
  Shape d -> Shape (mkDb us (auctions d) bs (rounds d) ls els).
Proof. done. Qed.

Lemma Shape_new_auction (d : Db) (id : ObjectId) (a : Auction.Doc) us bs ls els :
  Shape d -> auctions d !! id = None -> auctionOk a -> Auction.state a = Auction.draft ->
  Shape (mkDb us (<[id := a]> (auctions d)) bs (rounds d) ls els).
Proof.
  intros (Ha & Hr1 & Hr2 & Hr3) Hnone Hok Hst. split; [|split_and!]; simpl.
  - intros i x. destruct (decide (i = id)) as [->|Hne].
    + rewrite lookup_insert_eq. by intros [= <-].
    + rewrite lookup_insert_ne by done. apply Ha.
  - intros rid r Hr. destruct (Hr1 rid r Hr) as (a0 & Ha0 & Hn).
    exists a0. split; [|done]. rewrite lookup_insert_ne; [done|]. congruence.
  - done.
  - intros aid a0 k. destruct (decide (aid = id)) as [->|Hne].
    + rewrite lookup_insert_eq. intros [= <-]. unfold settledRounds. rewrite Hst.
      destruct Hok as (_ & _ & _ & _ & _ & Hd). rewrite Hst in Hd. lia.
    + rewrite lookup_insert_ne by done. apply Hr3.
Qed.

Lemma roundOk_config (a a' : Auction.Doc) (r : Round.Doc) :
  Auction.config a' = Auction.config a -> roundOk a r -> roundOk a' r.
Proof. unfold roundOk. by intros ->. Qed.

Lemma Shape_update_auction (d : Db) (id : ObjectId) (a a' : Auction.Doc) us bs ls els :
  Shape d -> auctions d !! id = Some a -> auctionOk a' ->
  settledRounds a' = settledRounds a -> Auction.config a' = Auction.config a ->
  Shape (mkDb us (<[id := a']> (auctions d)) bs (rounds d) ls els).
Proof.
  intros (Ha & Hr1 & Hr2 & Hr3) Hsome Hok Hset Hcfg. split; [|split_and!]; simpl.
  - intros i x. destruct (decide (i = id)) as [->|Hne].
    + rewrite lookup_insert_eq. by intros [= <-].
    + rewrite lookup_insert_ne by done. apply Ha.
  - intros rid r Hr. destruct (Hr1 rid r Hr) as (a0 & Ha0 & Hn & Hro).
    destruct (decide (Round.auctionId r = id)) as [E|Hne].
    + exists a'. rewrite E, lookup_insert_eq. rewrite E in Ha0. simplify_eq.
      split; [done|]. split; [lia|]. by eapply roundOk_config.
    + exists a0. by rewrite lookup_insert_ne.
  - done.
  - intros aid a0 k. destruct (decide (aid = id)) as [->|Hne].
    + rewrite lookup_insert_eq. intros [= <-]. rewrite Hset. by apply Hr3.
    + rewrite lookup_insert_ne by done. apply Hr3.
Qed.

Lemma Shape_settle (d : Db) (id rid : ObjectId) (a a' : Auction.Doc) (r : Round.Doc)
    us bs ls els :
  Shape d -> auctions d !! id = Some a -> rounds d !! rid = None ->
  auctionOk a' -> Auction.config a' = Auction.config a ->
  settledRounds a' = settledRounds a + 1 ->
  Round.auctionId r = id -> Round.roundNumber r = settledRounds a + 1 ->
  1 <= Round.roundNumber r -> roundOk a r ->
  Shape (mkDb us (<[id := a']> (auctions d)) bs (<[rid := r]> (rounds d)) ls els).
Proof.
  intros (Ha & Hr1 & Hr2 & Hr3) Hsome Hnone Hok Hcfg Hset Hrid Hnum Hone Hro.
  split; [|split_and!]; simpl.
  - intros i x. destruct (decide (i = id)) as [->|Hne].
    + rewrite lookup_insert_eq. by intros [= <-].
    + rewrite lookup_insert_ne by done. apply Ha.
  - intros i x. destruct (decide (i = rid)) as [->|Hne].
    + rewrite lookup_insert_eq. intros [= <-]. exists a'.
      rewrite Hrid, lookup_insert_eq. split; [done|]. split; [lia|].
      by eapply roundOk_config.
    + rewrite lookup_insert_ne by done. intros Hx.
      destruct (Hr1 i x Hx) as (a0 & Ha0 & Hn & Hro0).
      destruct (decide (Round.auctionId x = id)) as [E|Hne'].
      * exists a'. rewrite E, lookup_insert_eq. rewrite E in Ha0. simplify_eq.
        split; [done|]. split; [lia|]. by eapply roundOk_config.
      * exists a0. by rewrite lookup_insert_ne.
  - intros i j r1 r2.
    destruct (decide (i = rid)) as [->|Hi]; destruct (decide (j = rid)) as [->|Hj];
      rewrite ?lookup_insert_eq, ?lookup_insert_ne by done.
    + done.
    + intros [= <-] Hx Ea En. destruct (Hr1 j r2 Hx) as (a0 & Ha0 & Hn & _).
      rewrite <- Ea, Hrid in Ha0. simplify_eq. lia.
    + intros Hx [= <-] Ea En. destruct (Hr1 i r1 Hx) as (a0 & Ha0 & Hn & _).
      rewrite Ea, Hrid in Ha0. simplify_eq. lia.
    + apply Hr2.
  - intros aid a0 k. destruct (decide (aid = id)) as [->|Hne].
    + rewrite lookup_insert_eq. intros [= <-] Hk.
      destruct (decide (k = settledRounds a + 1)) as [->|Hk'].
      * exists rid, r. by rewrite lookup_insert_eq.
      * destruct (Hr3 id a k Hsome) as (i & x & Hx & ? & ?); [lia|].
        exists i, x. rewrite lookup_insert_ne; [done|]. congruence.
    + rewrite lookup_insert_ne by done. intros Ha0 Hk.
      destruct (Hr3 aid a0 k Ha0 Hk) as (i & x & Hx & ? & ?).
      exists i, x. rewrite lookup_insert_ne; [done|]. congruence.
Qed.

Lemma Shape_empty : Shape emptyDb.
Proof. split; [|split_and!]; simpl; intros *; by rewrite ?lookup_empty. Qed.

Lemma createAuction_shape (input : CreateAuctionInput) (w w' : World) a :
  Shape (db w) -> createAuction input w = (Ok a, w') -> Shape (db w').
Proof.
  intros HS H. unfold createAuction in H.
  repeat step H; tidy; simplify_eq.
  apply Shape_new_auction; [done|done| |done].
  zbool. unfold auctionOk, configWithin, deadlineOf. simpl.
  split_and!; try done; try lia; try (apply clampInt_within; lia).
  pose proof (clampInt_within (default 1 (maxWinsPerUser (config input))) 1 1). lia.
Qed.

(** The shape of an auction after a write that the filter [state] of the
    write has let through. *)
Ltac shape_update HS :=
  match goal with
  | Hl : auctions _ !! ?id = Some ?a |- Shape (mkDb _ (<[?id := ?a']> _) _ _ _ _) =>
      let Hok := fresh "Hok" in
      pose proof (proj1 HS _ _ Hl) as Hok; unfold auctionOk in Hok;
      apply (Shape_update_auction _ id a a'); [exact HS|exact Hl| | |done];
      [ unfold auctionOk, deadlineOf, maxRoundEndsAt in *; auction_facts; simpl in *;
        repeat match goal with H : Auction.state _ = _ |- _ => rewrite H in * end
      | unfold settledRounds; auction_facts; simpl;
        repeat match goal with H : Auction.state _ = _ |- _ => rewrite H in * end;
        try done ]
  end.

Lemma startAuctionTxn_shape (auctionId : ObjectId) (w w' : World) a :
  Shape (db w) -> startAuctionTxn auctionId w = (Ok a, w') -> Shape (db w').
Proof.
  intros HS H. unfold startAuctionTxn in H.
  repeat step H; tidy; simplify_eq; shape_update HS.
  all: destruct Hok as (? & Hcfg & ? & ? & ? & Hd); destruct_and!.
  - rewrite Z.gtb_ltb. split_and!; eauto; lia.
  - match goal with H : Auction.currentRound _ = 0 |- _ => rewrite H end. lia.
Qed.

Lemma cancelAuctionTxn_shape (auctionId : ObjectId) (w w' : World) a :
  Shape (db w) -> cancelAuctionTxn auctionId w = (Ok a, w') -> Shape (db w').
Proof.
  intros HS H. unfold cancelAuctionTxn in H.
  repeat step H. tidy.
  match goal with E : forEach _ _ _ = _ |- _ =>
    eapply (forEach_ok (fun w => Shape (db w))); [| |exact E] end.
  - intros b w1 w2 u Hb HS1 Hrun. cbv beta in Hrun.
    repeat step Hrun; tidy; simplify_eq. exact HS1.
  - simpl_db. shape_update HS.
    + destruct Hok as (? & Hcfg & ? & ? & ? & Hd).
      match goal with H : _ || _ = true |- _ => apply orb_true_iff in H as [Hst|Hst] end;
        auction_facts; rewrite Hst in *; destruct_and!; split_and!; eauto; lia.
    + match goal with H : _ || _ = true |- _ => apply orb_true_iff in H as [Hst|Hst] end;
        auction_facts; rewrite Hst in *; done.
Qed.

Lemma placeBidTxn_shape (auctionId userId : ObjectId) (newAmount : Z) (w w' : World) a :
  Shape (db w) -> placeBidTxn auctionId userId newAmount w = (Ok a, w') -> Shape (db w').
Proof.
  intros HS H. unfold placeBidTxn in H.
  repeat step H; tidy; simplify_eq; shape_update HS.
  all: destruct Hok as (? & Hcfg & ? & ? & ? & Hd); destruct_and!.
  all: try (split_and!; eauto; try lia;
            match goal with H : Auction.roundEndsAt _ = Some _ |- _ => rewrite H end;
            eauto).
Qed.

Lemma withdrawBidTxn_shape (auctionId userId : ObjectId) (w w' : World) a :
  Shape (db w) -> withdrawBidTxn auctionId userId w = (Ok a, w') -> Shape (db w').
Proof.
  intros HS H. unfold withdrawBidTxn in H.
  repeat step H; tidy; simplify_eq; shape_update HS.
  all: destruct Hok as (? & Hcfg & ? & ? & ? & Hd); destruct_and!.
  all: try (split_and!; eauto; lia).
Qed.

Lemma lockDueRound_shape (auctionId token : ObjectId) (threshold now : Z)
    (w w' : World) a :
  Shape (db w) -> lockDueRound auctionId token threshold now w = (Ok (Some a), w') ->
  Shape (db w').
Proof.
  intros HS H. unfold lockDueRound in H.
  apply findOneAndUpdate_ok in H as (a0 & Hl & Hf & -> & _ & ->).
  tidy. shape_update HS.
  all: destruct Hok as (? & Hcfg & ? & ? & ? & Hd); destruct_and!.
  all: try (split_and!; eauto; lia).
Qed.

Lemma limit_length {X} (n : Z) (l : list X) :
  0 < n -> Z.of_nat (length (limit n l)) <= n.
Proof. intros Hn. rewrite limit_positive by done. rewrite length_take. lia. Qed.

Lemma findWinnerBids_length (auctionId : ObjectId) (n : Z) (w w' : World)
    (wb : list (ObjectId * Bid.Doc)) :
  findWinnerBids auctionId n w = (Ok wb, w') -> Z.of_nat (length wb) <= Z.max 0 n.
Proof.
  unfold findWinnerBids. rewrite Z.gtb_ltb. destruct (Z.ltb_spec 0 n).
  - intros H'. repeat step H'. subst.
    etransitivity; [by apply limit_length|lia].
  - unfold ret. intros [= <- <-]. simpl. lia.
Qed.

Lemma settle_roundOk (auctionId : ObjectId) (a : Auction.Doc) (n k now : Z)
    (w w0 : World) (wb : list (ObjectId * Bid.Doc)) :
  Inv (db w) -> findWinnerBids auctionId n w = (Ok wb, w0) ->
  n <= Auction.winnersPerRound (Auction.config a) ->
  0 <= Auction.winnersPerRound (Auction.config a) ->
  roundOk a
    (Round.mkDoc auctionId k now (clearingPriceOf wb)
       (map (fun x => Round.mkWinner (userId x) (amount x) (giftSerial x)
                        (paid x) (refunded x))
            (winnersOf a wb))).
Proof.
  intros HI E Hn Hw. pose proof (findWinnerBids_length _ _ _ _ _ E) as Hlen.
  apply findWinnerBids_ok in E as (-> & Hnd & Hwb & Hcp).
  assert (Hp : bidsPositive (bids (db w))) by apply HI.
  unfold roundOk. cbn [Round.winners Round.clearingPrice]. split_and!.
  - rewrite length_map, winnersOf_length. lia.
  - by apply Hcp.
  - intros x Hx. apply list_elem_of_fmap in Hx as (y & -> & Hy).
    apply list_elem_of_lookup in Hy as [i Hy].
    apply winnersOf_lookup in Hy as (b & Hb & _ & _ & Ham & _ & Hpaid & Href).
    cbn [Round.paid Round.refunded Round.amount]. rewrite Hpaid, Href, Ham.
    assert (Hbin : b ∈ wb) by (by eapply list_elem_of_lookup_2).
    destruct (Hwb b Hbin) as (Hbl & _ & _ & Hle).
    split_and!; try done; [|lia].
    rewrite clearingPriceOf_last. destruct (last wb) as [z|] eqn:El.
    + assert (Hz : z ∈ wb).
      { apply last_Some in El as [l' ->]. apply elem_of_app. right. by left. }
      destruct (Hwb z Hz) as (Hzl & _). by eapply Hp.
    + apply last_None in El. subst. by apply not_elem_of_nil in Hbin.
Qed.

Lemma settleClosingAuctionTxn_shape (auctionId closingToken : ObjectId)
    (w w' : World) u :
  Inv (db w) -> Shape (db w) ->
  settleClosingAuctionTxn auctionId closingToken w = (Ok u, w') -> Shape (db w').
Proof.
  intros HI HS H. unfold settleClosingAuctionTxn in H.
  repeat step H; tidy; simplify_eq; [| |done].
  - (* the auction ends *)
    pose proof (proj1 HS _ _ H0) as Hok.
    pose proof (findWinnerBids_length _ _ _ _ _ E) as Hlen.
    pose proof E as Efind.
    apply findWinnerBids_ok in E as (-> & _).
    apply settleWinners_bids in E0 as (_ & _ & _ & Wau & Wro). simpl_db.
    apply refundLosers_effects in E2 as (_ & _ & Rau & Rro).
    rewrite Rau, Wau in *. rewrite Rro, Wro. simplify_eq.
    unfold auctionOk, configWithin in Hok. auction_facts.
    destruct Hok as (? & Hcfg & ? & ? & ? & Hd).
    match goal with Hst : Auction.state _ = Auction.running |- _ =>
      rewrite Hst in Hd; pose proof Hst as Hrun end.
    destruct_and!.
    apply (Shape_settle _ auctionId (oidGen w) d); try done.
    + unfold auctionOk, configWithin, deadlineOf in *. simpl.
      unfold jsLength in *. rewrite winnersOf_length in *.
      split_and!; try done; try lia.
      * clear C. destruct (_ && (_ =? 0)); lia.
      * clear C. destruct (_ >=? _) eqn:G; zbool; [left|right]; split; try done; try lia.
        destruct (match Auction.endsAt d with Some e => _ | None => false end); eauto.
    + unfold settledRounds. simpl. rewrite Hrun. lia.
    + simpl. unfold settledRounds. rewrite Hrun. lia.
    + eapply settle_roundOk; [done|done| |]; lia.
  - (* the next round opens *)
    pose proof (proj1 HS _ _ H0) as Hok.
    pose proof (findWinnerBids_length _ _ _ _ _ E) as Hlen.
    pose proof E as Efind.
    apply findWinnerBids_ok in E as (-> & _).
    apply settleWinners_bids in E0 as (_ & _ & _ & Wau & Wro). simpl_db.
    rewrite Wau in *. rewrite Wro. simplify_eq.
    unfold auctionOk, configWithin in Hok. auction_facts.
    destruct Hok as (? & Hcfg & ? & ? & ? & Hd).
    match goal with Hst : Auction.state _ = Auction.running |- _ =>
      rewrite Hst in Hd; pose proof Hst as Hrun end.
    destruct_and!.
    apply (Shape_settle _ auctionId (oidGen w) d); try done.
    + unfold auctionOk, configWithin, deadlineOf in *. simpl.
      unfold jsLength in *. rewrite winnersOf_length in *. rewrite Hrun.
      zbool.
      split_and!; try done; try lia; eauto.
      match goal with |- context [if ?c then _ else _] => destruct c end; lia.
    + unfold settledRounds. simpl. rewrite Hrun. lia.
    + simpl. unfold settledRounds. rewrite Hrun. lia.
    + eapply settle_roundOk; [done|done| |]; lia.
Qed.
Lemma createUser_shape (w w' : World) a :
  Shape (db w) -> createUser w = (Ok a, w') -> Shape (db w').
Proof.
  intros HS H. unfold createUser in H. repeat step H; tidy; simplify_eq. done.
Qed.

Lemma topupUserTxn_shape (userId : ObjectId) (amount : Z) (w w' : World) a :
  Shape (db w) -> topupUserTxn userId amount w = (Ok a, w') -> Shape (db w').
Proof.
  intros HS H. unfold topupUserTxn in H. repeat step H; tidy; simplify_eq. done.
Qed.

Lemma run_shape (ops : list Op) (w : World) :
  Inv (db w) -> Shape (db w) -> Inv (db (run ops w)) /\ Shape (db (run ops w)).
Proof.
  intros HI HS.
  apply (run_keeps (fun d => Inv d /\ Shape d)); cbv beta; [| | | | | | | | | |by split].
  - intros d locks [HI0 HS0]. split; [exact HI0|exact HS0].
  - intros w0 a w1 [? ?] Hrun.
    split; [by eapply createUser_inv|by eapply createUser_shape].
  - intros userId amount w0 a w1 Hpos [? ?] Hrun.
    split; [by eapply topupUserTxn_inv|by eapply topupUserTxn_shape].
  - intros input w0 a w1 [? ?] Hrun.
    split; [by eapply createAuction_inv|by eapply createAuction_shape].
  - intros auctionId w0 a w1 [? ?] Hrun.
    split; [by eapply startAuctionTxn_inv|by eapply startAuctionTxn_shape].
  - intros auctionId w0 a w1 [? ?] Hrun.
    split; [by eapply cancelAuctionTxn_inv|by eapply cancelAuctionTxn_shape].
  - intros auctionId userId newAmount w0 a w1 Hpos [? ?] Hrun.
    split; [by eapply placeBidTxn_inv|by eapply placeBidTxn_shape].
  - intros auctionId userId w0 a w1 [? ?] Hrun.
    split; [by eapply withdrawBidTxn_inv|by eapply withdrawBidTxn_shape].
  - intros auctionId token threshold now w0 a w1 [? ?] Hrun.
    split; [by eapply lockDueRound_inv|by eapply lockDueRound_shape].
  - intros auctionId closingToken w0 u w1 [? ?] Hrun.
    split; [by eapply settleClosingAuctionTxn_inv
           |by eapply settleClosingAuctionTxn_shape].
Qed.

Lemma reachable_shape (ops : list Op) : Shape (db (run ops initialWorld)).
Proof. apply run_shape; [apply Inv_empty|apply Shape_empty]. Qed.

(** X17. Auction documents are well formed.  In every state the service
    can reach, every auction sells a positive quantity, its configuration
    lies within the bounds of [createAuction], it has awarded no more
    than it sells, its [endsAt] is [startedAt] plus [maxDurationMs] when
    that is positive and absent otherwise, and its fields fit its state:
    a draft has nothing set; a running auction is in round 1 or later,
    has gifts left, an end of round, and either an open round without
    closing token or a closing round with one; an ended auction has no
    round fields left and is [soldOut] exactly when everything is
    awarded; a cancelled one has the reason [cancelled] and gifts left. *)
Theorem auction_documents_well_formed (ops : list Op) (id : ObjectId)
    (a : Auction.Doc) :
  auctions (db (run ops initialWorld)) !! id = Some a -> auctionOk a.
Proof. apply (proj1 (reachable_shape ops)). Qed.

(** X18. One Round document for each settled round.  In every state the
    service can reach, a Round document belongs to an auction of the
    store and to one of its settled rounds, has no more winners than a
    round awards, each of whom paid the clearing price, a positive
    amount, and got the rest of the bid back; no two Round documents are
    of the same round of the same auction; and every settled round of
    every auction has its Round document.  The settled rounds are those
    before [currentRound], and [currentRound] too once the auction has
    ended. *)
Theorem rounds_match_settled_rounds (ops : list Op) :
  roundsOk (rounds (db (run ops initialWorld))) (auctions (db (run ops initialWorld))).
Proof. apply (proj2 (reachable_shape ops)). Qed.
End ShapeFacts.

Section ShapeOnSamples.
Import Users Auctions Engine System Samples.

(** Auction 6 of [settledWorld], sold out after its first round. *)
Lemma auction_documents_well_formed_witness :
  exists a, auctions (db (run opsSettled initialWorld)) !! 6%N = Some a /\ auctionOk a.
Proof.
  assert (Ha : is_Some (auctions (db (run opsSettled initialWorld)) !! 6%N))
    by (vm_compute; eauto).
  destruct Ha as [a Ha]. exists a. split; [exact Ha|].
  exact (auction_documents_well_formed opsSettled 6%N a Ha).
Defined.
End ShapeOnSamples.

(** * Reserved balances and active bids *)

Section Sums.
Context {D : Type}.








End Sums.

Section ReservedFacts.
Import Users Auctions Engine System.
Context (weight : ObjectId -> Z).

Lemma Reserved_frame (d : Db) aus rs ls els :
  Reserved weight d -> Reserved weight (mkDb (users d) aus (bids d) rs ls els).
Proof. done. Qed.























End ReservedFacts.

(** * The audit of the whole store *)

Section AuditFacts.
Import Users Auctions Engine System.












End AuditFacts.

(** * Bids and the state of their auction *)

(** A loop that keeps [I] and leaves [P x] behind for every [x] it has
    worked on, when the later rounds of the loop do not undo [P x]. *)
Lemma forEach_each {X} (I : World -> Prop) (P : X -> World -> Prop)
    (l : list X) (body : X -> M unit) :
  (forall x w w' u, x ∈ l -> I w -> body x w = (Ok u, w') -> I w' /\ P x w') ->
  (forall x y w w' u, x ∈ l -> y ∈ l -> I w -> P x w -> body y w = (Ok u, w') -> P x w') ->
  forall w w' u, I w -> forEach l body w = (Ok u, w') ->
                 I w' /\ forall x, x ∈ l -> P x w'.
Proof.
  intros Hbody Hstable.
  assert (Hgen : forall done rest w w' u,
             (forall x, x ∈ done ++ rest -> x ∈ l) ->
             I w -> (forall x, x ∈ done -> P x w) ->
             forEach rest body w = (Ok u, w') ->
             I w' /\ forall x, x ∈ done ++ rest -> P x w').
  { intros done rest. revert done. induction rest as [|y rest IH];
      intros done w w' u Hin HI HP H; simpl in H.
    - apply ret_ok in H as [_ ->]. split; [done|]. intros x Hx.
      rewrite app_nil_r in Hx. by apply HP.
    - apply bind_ok in H as (u1 & w1 & E & H).
      assert (Hy : y ∈ l) by (apply Hin, elem_of_app; right; left).
      destruct (Hbody y w w1 u1 Hy HI E) as [HI1 HPy].
      specialize (IH (done ++ [y]) w1 w' u).
      rewrite <- (assoc_L (++)) in IH. simpl in IH.
      apply IH; [done|done| |done].
      intros x Hx. apply elem_of_app in Hx as [Hx|Hx].
      + eapply Hstable; [| |exact HI|by apply HP|exact E]; [|done].
        apply Hin, elem_of_app. by left.
      + apply list_elem_of_singleton in Hx as ->. done. }
  intros w w' u HI H. apply (Hgen [] l w w' u); simpl; try done.
  intros x Hx. by apply not_elem_of_nil in Hx.
Qed.

Section BidFacts.
Import Users Auctions Engine System.

Lemma bidsOk_empty : bidsOk emptyDb.
Proof. intros i b Hb. simpl in Hb. by rewrite lookup_empty in Hb. Qed.

Lemma bidsOk_frame (d : Db) us rs ls els :
  bidsOk d -> bidsOk (mkDb us (auctions d) (bids d) rs ls els).
Proof. done. Qed.

Lemma bidsOk_new_auction (d : Db) (id : ObjectId) (a : Auction.Doc) us rs ls els :
  auctions d !! id = None -> bidsOk d ->
  bidsOk (mkDb us (<[id := a]> (auctions d)) (bids d) rs ls els).
Proof.
  intros Hnone HB i b Hb. destruct (HB i b Hb) as (a0 & Ha0 & Hok).
  exists a0. split; [|done]. simpl. rewrite lookup_insert_ne; [done|]. congruence.
Qed.

Lemma bidsOk_update_auction (d : Db) (id : ObjectId) (a a' : Auction.Doc) us rs ls els :
  auctions d !! id = Some a -> (forall b, bidOk a b -> bidOk a' b) -> bidsOk d ->
  bidsOk (mkDb us (<[id := a']> (auctions d)) (bids d) rs ls els).
Proof.
  intros Ha Hstep HB i b Hb. destruct (HB i b Hb) as (a0 & Ha0 & Hok). simpl.
  destruct (decide (Bid.auctionId b = id)) as [E|Hne].
  - exists a'. rewrite E, lookup_insert_eq. rewrite E in Ha0. simplify_eq. eauto.
  - exists a0. by rewrite lookup_insert_ne.
Qed.

Lemma bidsOk_both (d : Db) (aid bid : ObjectId) (a a' : Auction.Doc) (b' : Bid.Doc)
    us rs ls els :
  auctions d !! aid = Some a -> (forall b, bidOk a b -> bidOk a' b) ->
  Bid.auctionId b' = aid -> bidOk a' b' -> bidsOk d ->
  bidsOk (mkDb us (<[aid := a']> (auctions d)) (<[bid := b']> (bids d)) rs ls els).
Proof.
  intros Ha Hstep Hb' Hok' HB i b. simpl. destruct (decide (i = bid)) as [->|Hi].
  - rewrite lookup_insert_eq. intros [= <-]. exists a'.
    by rewrite Hb', lookup_insert_eq.
  - rewrite lookup_insert_ne by done. intros Hb.
    destruct (HB i b Hb) as (a0 & Ha0 & Hok).
    destruct (decide (Bid.auctionId b = aid)) as [E|Hne].
    + exists a'. rewrite E, lookup_insert_eq. rewrite E in Ha0. simplify_eq. eauto.
    + exists a0. by rewrite lookup_insert_ne.
Qed.

(** A write to the auction that leaves its state and its settled rounds. *)
Lemma bidOk_touch (a a' : Auction.Doc) (b : Bid.Doc) :
  Auction.state a' = Auction.state a -> settledRounds a' = settledRounds a ->
  bidOk a b -> bidOk a' b.
Proof. unfold bidOk. intros -> ->. done. Qed.

Lemma createAuction_bidsOk (input : CreateAuctionInput) (w w' : World) a :
  bidsOk (db w) -> createAuction input w = (Ok a, w') -> bidsOk (db w').
Proof.
  intros HB H. unfold createAuction in H. repeat step H; tidy; simplify_eq.
  by apply bidsOk_new_auction.
Qed.

Lemma startAuctionTxn_bidsOk (auctionId : ObjectId) (w w' : World) a :
  bidsOk (db w) -> startAuctionTxn auctionId w = (Ok a, w') -> bidsOk (db w').
Proof.
  intros HB H. unfold startAuctionTxn in H. repeat step H; tidy; simplify_eq.
  all: eapply bidsOk_update_auction; [done| |done].
  all: intros b (Hd & _); auction_facts; congruence.
Qed.

Lemma lockDueRound_bidsOk (auctionId token : ObjectId) (threshold now : Z)
    (w w' : World) a :
  bidsOk (db w) -> lockDueRound auctionId token threshold now w = (Ok (Some a), w') ->
  bidsOk (db w').
Proof.
  intros HB H. unfold lockDueRound in H.
  apply findOneAndUpdate_ok in H as (a0 & Hl & Hf & -> & _ & ->). tidy.
  eapply bidsOk_update_auction; [done| |done].
  intros b. by apply bidOk_touch.
Qed.

Lemma withdrawBidTxn_bidsOk (auctionId userId : ObjectId) (w w' : World) a :
  bidsOk (db w) -> withdrawBidTxn auctionId userId w = (Ok a, w') -> bidsOk (db w').
Proof.
  intros HB H. unfold withdrawBidTxn in H.
  repeat step H; tidy; simplify_eq.
  repeat match goal with
         | Hx : _ && _ = true |- _ => apply andb_true_iff in Hx as [? ?]
         | Hx : (_ =? _)%N = true |- _ => apply N.eqb_eq in Hx
         | Hx : isBidStatus _ _ = true |- _ => apply isBidStatus_true in Hx
         end.
  match goal with Hb : bids (db w) !! ?i = Some ?b |- _ =>
    destruct (HB i b Hb) as (a0 & Ha0 & Hok) end.
  eapply bidsOk_both; [done| |done| |done].
  - intros b. by apply bidOk_touch.
  - simplify_eq. match goal with Hk : bidOk ?a1 _ |- _ => apply (bidOk_touch a1); [done|done|] end.
    destruct Hok as (K1 & K2 & K3 & K4). unfold bidOk. simpl.
    match goal with Hs : Bid.status _ = Bid.active |- _ => rewrite Hs in K4 end.
    by split_and!.
Qed.

Lemma placeBidTxn_bidsOk (auctionId userId : ObjectId) (newAmount : Z) (w w' : World) a :
  bidsOk (db w) -> placeBidTxn auctionId userId newAmount w = (Ok a, w') ->
  bidsOk (db w').
Proof.
  intros HB H. unfold placeBidTxn in H.
  repeat step H; tidy; simplify_eq;
  repeat match goal with
         | Hx : _ && _ = true |- _ => apply andb_true_iff in Hx as [? ?]
         | Hx : (_ =? _)%N = true |- _ => apply N.eqb_eq in Hx
         | Hx : isBidStatus _ _ = true |- _ => apply isBidStatus_true in Hx
         end; auction_facts.
  - match goal with Hb : bids (db w) !! ?i = Some ?b |- _ =>
      destruct (HB i b Hb) as (a0 & Ha0 & Hok) end.
    eapply bidsOk_both; [done| |done| |done].
    + intros b. by apply bidOk_touch.
    + simplify_eq. match goal with Hk : bidOk ?a1 _ |- _ => apply (bidOk_touch a1); [done|done|] end.
      destruct Hok as (K1 & K2 & K3 & K4). unfold bidOk. simpl.
      match goal with Hs : Bid.status _ = Bid.active |- _ => rewrite Hs in * end.
      by split_and!.
  - match goal with Hb : bids (db w) !! ?i = Some ?b |- _ =>
      destruct (HB i b Hb) as (a0 & Ha0 & Hok) end.
    eapply bidsOk_both; [done| |done| |done].
    + intros b. by apply bidOk_touch.
    + simplify_eq. match goal with Hk : bidOk ?a1 _ |- _ => apply (bidOk_touch a1); [done|done|] end.
      destruct Hok as (K1 & K2 & K3 & K4). unfold bidOk. simpl.
      match goal with Hs : Bid.status _ = Bid.withdrawn |- _ => rewrite Hs in * end.
      by split_and!.
  - eapply bidsOk_both; [done| |done| |done].
    + intros b. by apply bidOk_touch.
    + unfold bidOk. simpl. split_and!; try done; congruence.
Qed.

Lemma bidsStep_refl (after : Bid.Doc -> Bid.Doc -> Prop) (bs : gmap ObjectId Bid.Doc) :
  bidsStep after bs bs.
Proof. intros i b Hb. exists b. split; [done|by left]. Qed.

(** One more active bid meets its end. *)
Lemma bidsStep_update (after : Bid.Doc -> Bid.Doc -> Prop)
    (bs0 bs : gmap ObjectId Bid.Doc) (i : ObjectId) (d b' : Bid.Doc) :
  (forall b0 b, after b0 b -> Bid.status b <> Bid.active) ->
  bidsStep after bs0 bs -> bs !! i = Some d -> Bid.status d = Bid.active ->
  Bid.auctionId b' = Bid.auctionId d -> Bid.amount b' = Bid.amount d ->
  after d b' ->
  bidsStep after bs0 (<[i := b']> bs).
Proof.
  intros Hafter Hs Hd Hact Ha Hm Hnew j b. destruct (decide (j = i)) as [->|Hne].
  - rewrite lookup_insert_eq. intros [= <-].
    destruct (Hs i d Hd) as (b0 & Hb0 & [->|(_ & _ & _ & Hx)]).
    + exists b0. split; [done|]. right. by split_and!.
    + by apply Hafter in Hx.
  - rewrite lookup_insert_ne by done. apply Hs.
Qed.

(** The bid at [i] was active in [bs0] when it is active now. *)
Lemma bidsStep_active (after : Bid.Doc -> Bid.Doc -> Prop)
    (bs0 bs : gmap ObjectId Bid.Doc) (i : ObjectId) (d : Bid.Doc) :
  (forall b0 b, after b0 b -> Bid.status b <> Bid.active) ->
  bidsStep after bs0 bs -> bs !! i = Some d -> Bid.status d = Bid.active ->
  bs0 !! i = Some d.
Proof.
  intros Hafter Hs Hd Hact.
  destruct (Hs i d Hd) as (b0 & Hb0 & [->|(_ & _ & _ & Hx)]); [done|].
  by apply Hafter in Hx.
Qed.

Lemma nowWithdrawn_status aid (b0 b : Bid.Doc) :
  nowWithdrawn aid b0 b -> Bid.status b <> Bid.active.
Proof. intros [-> _]. done. Qed.

Lemma nowLost_status aid (b0 b : Bid.Doc) : nowLost aid b0 b -> Bid.status b <> Bid.active.
Proof. intros [-> _]. done. Qed.

Lemma nowWon_status aid round cp (b0 b : Bid.Doc) :
  nowWon aid round cp b0 b -> Bid.status b <> Bid.active.
Proof. intros [-> _]. done. Qed.

(** The loop of [cancelAuction] over the active bids of the auction. *)
Lemma cancelLoop_bids (auctionId : ObjectId) (now : Z) (w0 w w' : World) u :
  bids (db w) = bids (db w0) ->
  forEach
    (List.filter (fun kd => isActiveBidOf auctionId kd.2) (map_to_list (bids (db w0))))
    (fun b =>
       let* bidRes :=
         updateOne colBids b.1 (isBidStatus Bid.active)
           (fun d => Bid.set_status Bid.withdrawn (Bid.set_updatedAt now d)) in
       if negb (bidRes =? 1)
       then throw (appError INVARIANT_VIOLATION
                     "Invariant violation: active bid missing on cancel" 500)
       else
         let* userRes :=
           updateOne colUsers (Bid.userId b.2) (hasReserved (Bid.amount b.2))
             (User.incBalance (Bid.amount b.2) (- Bid.amount b.2) 0) in
         if negb (userRes =? 1)
         then throw (appError INVARIANT_VIOLATION
                       "Invariant violation: insufficient reserved on cancel" 500)
         else
           let* lid := newObjectId in
           insertOne colLedger lid
             (Ledger.mkDoc now (Bid.userId b.2) Ledger.unreserve (Bid.amount b.2)
                (Some auctionId) None)) w
  = (Ok u, w') ->
  auctions (db w') = auctions (db w)
  /\ rounds (db w') = rounds (db w)
  /\ bidsStep (nowWithdrawn auctionId) (bids (db w)) (bids (db w'))
  /\ (forall i b, bids (db w') !! i = Some b -> Bid.auctionId b = auctionId ->
                  Bid.status b <> Bid.active).
Proof.
  intros Eb H. rewrite <- Eb in H. clear Eb w0.
  eapply (forEach_each
            (fun w1 => auctions (db w1) = auctions (db w)
                       /\ rounds (db w1) = rounds (db w)
                       /\ bidsStep (nowWithdrawn auctionId) (bids (db w)) (bids (db w1)))
            (fun x w1 => exists b, bids (db w1) !! x.1 = Some b
                                   /\ Bid.status b <> Bid.active))
    in H as [(Hau & Hro & Hstep) HP].
  - split_and!; try done. intros i b Hb Haid Hact.
    pose proof (bidsStep_active _ _ _ _ _ (nowWithdrawn_status auctionId) Hstep Hb Hact)
      as Hb0.
    destruct (HP (i, b)) as (b' & Hb' & Hst).
    + apply (elem_of_found (fun _ b => isActiveBidOf auctionId b)). split; [done|].
      unfold isActiveBidOf, isBidStatus. simpl.
      rewrite Haid, N.eqb_refl. by rewrite bool_decide_eq_true_2.
    + simpl in Hb'. congruence.
  - intros x w1 w2 u' Hx (Hau & Hro & Hstep) Hrun. cbv beta in Hrun.
    apply (elem_of_found (fun _ b => isActiveBidOf auctionId b)) in Hx as [Hx Hf].
    unfold isActiveBidOf in Hf. apply andb_true_iff in Hf as [Hfa _].
    apply N.eqb_eq in Hfa.
    repeat step Hrun; tidy; simplify_eq.
    match goal with Hs : isBidStatus Bid.active _ = true |- _ =>
      apply isBidStatus_true in Hs; rename Hs into Hact end.
    match goal with Hd : bids (db w1) !! x.1 = Some ?d |- _ =>
      pose proof (bidsStep_active _ _ _ _ _ (nowWithdrawn_status (Bid.auctionId x.2))
                    Hstep Hd Hact) as Hd0; rename Hd into Hd1 end.
    split; [split_and!; try done|].
    + eapply bidsStep_update; try done.
      * apply nowWithdrawn_status.
      * split_and!; try done. simpl. congruence.
    + eexists. rewrite lookup_insert_eq. split; [done|]. done.
  - intros x y w1 w2 u' Hx Hy _ (b & Hb & Hst) Hrun. cbv beta in Hrun.
    repeat step Hrun; tidy; simplify_eq.
    destruct (decide (x.1 = y.1)) as [E|Hne].
    + rewrite E. eexists. rewrite lookup_insert_eq. split; [done|]. done.
    + exists b. by rewrite lookup_insert_ne.
  - split_and!; try done. apply bidsStep_refl.
Qed.

Lemma cancelAuctionTxn_bidsOk (auctionId : ObjectId) (w w' : World) a :
  bidsOk (db w) -> cancelAuctionTxn auctionId w = (Ok a, w') -> bidsOk (db w').
Proof.
  intros HB H. unfold cancelAuctionTxn in H.
  repeat step H. tidy.
  match goal with E : forEach _ _ _ = _ |- _ =>
    apply (cancelLoop_bids _ _ w) in E as (Hau & Hro & Hstep & Hnone); [|done] end.
  simpl_db.
  intros i b Hb. destruct (Hstep i b Hb) as (b0 & Hb0 & Hcase).
  destruct (HB i b0 Hb0) as (a0 & Ha0 & Hok). rewrite Hau.
  assert (Haid : Bid.auctionId b = Bid.auctionId b0).
  { destruct Hcase as [->|(_ & ? & _)]; done. }
  rewrite Haid.
  destruct (decide (Bid.auctionId b0 = auctionId)) as [E|Hne].
  - rewrite E, lookup_insert_eq. eexists. split; [done|].
    rewrite E in Ha0. simplify_eq.
    assert (Hna : Bid.status b <> Bid.active).
    { apply (Hnone i b Hb). congruence. }
    destruct Hok as (K1 & K2 & K3 & K4). unfold bidOk. simpl.
    match goal with Hf : _ || _ = true |- _ =>
      apply orb_true_iff in Hf as [Hf|Hf]; auction_facts end; [done|].
    destruct Hcase as [->|(Hact & _ & _ & Hw & _ & Hset)].
    + split_and!; try done.
      * intros Hl. apply K3 in Hl. congruence.
      * unfold settledRounds in *. simpl.
        match goal with Hr : Auction.state _ = Auction.running |- _ =>
          by rewrite Hr in K4 end.
    + rewrite Hw. rewrite Hact in K4. split_and!; try done. congruence.
  - rewrite lookup_insert_ne by done. exists a0. split; [done|].
    destruct Hcase as [->|(Hact & _ & _ & Hw & Hx & _)]; [done|]. congruence.
Qed.

(** The loop of the settlement over the winners. *)
Lemma settleWinners_bidsStep (auctionId : ObjectId) (auction : Auction.Doc) (now : Z)
    (wb : list (ObjectId * Bid.Doc)) (bs0 : gmap ObjectId Bid.Doc) (w w' : World) u :
  (forall b, b ∈ wb -> bs0 !! b.1 = Some b.2 /\ Bid.auctionId b.2 = auctionId
                       /\ 0 < clearingPriceOf wb <= Bid.amount b.2) ->
  bidsStep (nowWon auctionId (Auction.currentRound auction) (clearingPriceOf wb))
    bs0 (bids (db w)) ->
  forEach (winnersOf auction wb)
    (settleWinner auctionId auction (clearingPriceOf wb) now) w = (Ok u, w') ->
  bidsStep (nowWon auctionId (Auction.currentRound auction) (clearingPriceOf wb))
    bs0 (bids (db w')).
Proof.
  intros Hwb Hstep H.
  eapply (forEach_ok
            (fun w1 => bidsStep (nowWon auctionId (Auction.currentRound auction)
                                   (clearingPriceOf wb)) bs0 (bids (db w1))));
    [|exact Hstep|exact H].
  intros x w1 w2 u' Hx Hstep1 Hrun.
  apply list_elem_of_lookup in Hx as [k Hx].
  apply winnersOf_lookup in Hx as (b & Hb & Hid & Hus & Ham & _ & Hpaid & Href).
  apply list_elem_of_lookup_2 in Hb. destruct (Hwb b Hb) as (Hb0 & Haid & Hcp).
  apply settleWinner_effect in Hrun as (d & u0 & Hd & Hact & _ & _ & Eb & _).
  pose proof (bidsStep_active _ _ _ _ _
                (nowWon_status auctionId (Auction.currentRound auction)
                   (clearingPriceOf wb)) Hstep1 Hd Hact) as Hd0.
  rewrite Hid in Hd0. simplify_eq.
  rewrite Eb. eapply bidsStep_update; try done.
  - apply nowWon_status.
  - split_and!; try done. eexists. split; [reflexivity|]. simpl.
    split_and!; try done; lia.
Qed.

(** The loop of the settlement over the bids that lost. *)
Lemma refundLosers_bids (auctionId : ObjectId) (now : Z) (w0 w w' : World) u :
  bids (db w) = bids (db w0) ->
  forEach
    (List.filter (fun kd => isActiveBidOf auctionId kd.2) (map_to_list (bids (db w0))))
    (refundLoser auctionId now) w = (Ok u, w') ->
  bidsStep (nowLost auctionId) (bids (db w)) (bids (db w'))
  /\ (forall i b, bids (db w') !! i = Some b -> Bid.auctionId b = auctionId ->
                  Bid.status b <> Bid.active).
Proof.
  intros Eb H. rewrite <- Eb in H. clear Eb w0.
  eapply (forEach_each
            (fun w1 => bidsStep (nowLost auctionId) (bids (db w)) (bids (db w1)))
            (fun x w1 => exists b, bids (db w1) !! x.1 = Some b
                                   /\ Bid.status b <> Bid.active))
    in H as [Hstep HP].
  - split; [done|]. intros i b Hb Haid Hact.
    pose proof (bidsStep_active _ _ _ _ _ (nowLost_status auctionId) Hstep Hb Hact) as Hb0.
    destruct (HP (i, b)) as (b' & Hb' & Hst).
    + apply (elem_of_found (fun _ b => isActiveBidOf auctionId b)). split; [done|].
      unfold isActiveBidOf, isBidStatus. simpl.
      rewrite Haid, N.eqb_refl. by rewrite bool_decide_eq_true_2.
    + simpl in Hb'. congruence.
  - intros x w1 w2 u' Hx Hstep Hrun.
    apply (elem_of_found (fun _ b => isActiveBidOf auctionId b)) in Hx as [Hx Hf].
    unfold isActiveBidOf in Hf. apply andb_true_iff in Hf as [Hfa _].
    apply N.eqb_eq in Hfa.
    apply refundLoser_effect in Hrun as (d & u0 & Hd & Hact & _ & Eb & _).
    pose proof (bidsStep_active _ _ _ _ _ (nowLost_status auctionId) Hstep Hd Hact) as Hd0.
    simplify_eq. rewrite Eb. split.
    + eapply bidsStep_update;
        [apply nowLost_status|exact Hstep|exact Hd|exact Hact|done|done|by split_and!].
    + eexists. rewrite lookup_insert_eq. split; [done|]. done.
  - intros x y w1 w2 u' Hx Hy _ (b & Hb & Hst) Hrun.
    apply refundLoser_effect in Hrun as (d & u0 & Hd & Hact & _ & Eb & _).
    rewrite Eb. destruct (decide (x.1 = y.1)) as [E|Hne].
    + rewrite E. eexists. rewrite lookup_insert_eq. split; [done|]. done.
    + exists b. by rewrite lookup_insert_ne.
  - apply bidsStep_refl.
Qed.

Lemma settledRounds_running_le (a : Auction.Doc) :
  auctionOk a -> Auction.state a = Auction.running ->
  settledRounds a = Auction.currentRound a - 1 /\ 1 <= Auction.currentRound a.
Proof.
  intros (_ & _ & _ & _ & _ & Hd) Hst. unfold settledRounds. rewrite Hst in *.
  destruct Hd as (_ & _ & _ & _ & Hc & _). lia.
Qed.

Lemma winnerBids_facts (auctionId : ObjectId) (n : Z) (w w0 : World)
    (wb : list (ObjectId * Bid.Doc)) :
  Inv (db w) -> findWinnerBids auctionId n w = (Ok wb, w0) ->
  w0 = w
  /\ forall b, b ∈ wb -> bids (db w) !! b.1 = Some b.2 /\ Bid.auctionId b.2 = auctionId
                         /\ 0 < clearingPriceOf wb <= Bid.amount b.2.
Proof.
  intros HI E. apply findWinnerBids_ok in E as (-> & _ & Hwb & _).
  split; [done|]. intros b Hb. destruct (Hwb b Hb) as (Hl & Ha & _ & Hle).
  split_and!; try done.
  assert (Hp : bidsPositive (bids (db w))) by apply HI.
  rewrite clearingPriceOf_last. destruct (last wb) as [z|] eqn:El.
  - assert (Hz : z ∈ wb).
    { apply last_Some in El as [l' ->]. apply elem_of_app. right. by left. }
    destruct (Hwb z Hz) as (Hzl & _). by eapply Hp.
  - apply last_None in El. subst. by apply not_elem_of_nil in Hb.
Qed.

Lemma settleClosingAuctionTxn_bidsOk (auctionId closingToken : ObjectId)
    (w w' : World) u :
  Inv (db w) -> Shape (db w) -> bidsOk (db w) ->
  settleClosingAuctionTxn auctionId closingToken w = (Ok u, w') -> bidsOk (db w').
Proof.
  intros HI HS HB H. unfold settleClosingAuctionTxn in H.
  repeat step H; tidy; simplify_eq; [| |done].
  - (* the auction ends *)
    pose proof (proj1 HS _ _ H0) as Hok.
    apply (winnerBids_facts _ _ _ _ _ HI) in E as (-> & Hwb).
    pose proof E0 as E0'.
    apply settleWinners_bids in E0' as (_ & _ & _ & Wau & _). simpl_db.
    apply (settleWinners_bidsStep _ _ _ _ (bids (db w))) in E0;
      [|done|apply bidsStep_refl].
    pose proof E2 as E2'.
    apply refundLosers_effects in E2' as (_ & _ & Rau & _).
    apply (refundLosers_bids _ _ w1) in E2 as (Hlost & Hnone); [|done].
    rewrite Rau, Wau in *. simplify_eq. auction_facts.
    destruct (settledRounds_running_le d Hok ltac:(done)) as (Hsr & Hcr).
    intros i b2 Hb2. simpl_db.
    destruct (Hlost i b2 Hb2) as (b1 & Hb1 & Hc2).
    destruct (E0 i b1 Hb1) as (b0 & Hb0 & Hc1).
    destruct (HB i b0 Hb0) as (a0 & Ha0 & K1 & K2 & K3 & K4).
    assert (Haid : Bid.auctionId b2 = Bid.auctionId b0).
    { destruct Hc2 as [->|(_ & -> & _)]; destruct Hc1 as [->|(_ & -> & _)]; done. }
    rewrite Haid.
    destruct (decide (Bid.auctionId b0 = auctionId)) as [Ea|Hne].
    + rewrite Ea, lookup_insert_eq. eexists. split; [done|].
      rewrite Ea in Ha0. simplify_eq.
      assert (Hna : Bid.status b2 <> Bid.active) by (apply (Hnone i b2 Hb2); congruence).
      unfold bidOk, settledRounds. simpl.
      destruct Hc2 as [->|(Hact1 & _ & Hm2 & Hl & _ & Hset)].
      * destruct Hc1 as [->|(Hact0 & _ & Hm1 & Hw & _ & s & Hs & Hr & Hc & Hp & Hf & Hcp)].
        -- split_and!; try done. destruct (Bid.status b0); try done.
           destruct K4 as (s & ? & ? & ?). exists s. split_and!; try done; lia.
        -- rewrite Hw. split_and!; try done. exists s.
           rewrite Hm1. split_and!; try done; lia.
      * rewrite Hl. split_and!; try done. rewrite Hset.
        destruct Hc1 as [->|(_ & _ & _ & Hw & _)]; [|congruence].
        by rewrite Hact1 in K4.
    + rewrite lookup_insert_ne by done. exists a0. split; [done|].
      destruct Hc2 as [->|(Hact1 & Ha2 & _ & _ & Hx & _)].
      * destruct Hc1 as [->|(_ & _ & _ & _ & Hx & _)]; [done|congruence].
      * destruct Hc1 as [->|(_ & _ & _ & _ & Hx' & _)]; congruence.
  - (* the next round opens *)
    pose proof (proj1 HS _ _ H0) as Hok.
    apply (winnerBids_facts _ _ _ _ _ HI) in E as (-> & Hwb).
    pose proof E0 as E0'.
    apply settleWinners_bids in E0' as (_ & _ & _ & Wau & _). simpl_db.
    apply (settleWinners_bidsStep _ _ _ _ (bids (db w))) in E0;
      [|done|apply bidsStep_refl].
    rewrite Wau in *. simplify_eq. auction_facts.
    destruct (settledRounds_running_le d Hok ltac:(done)) as (Hsr & Hcr).
    intros i b1 Hb1. simpl_db.
    destruct (E0 i b1 Hb1) as (b0 & Hb0 & Hc1).
    destruct (HB i b0 Hb0) as (a0 & Ha0 & K1 & K2 & K3 & K4).
    assert (Haid : Bid.auctionId b1 = Bid.auctionId b0).
    { destruct Hc1 as [->|(_ & -> & _)]; done. }
    rewrite Haid.
    destruct (decide (Bid.auctionId b0 = auctionId)) as [Ea|Hne].
    + rewrite Ea, lookup_insert_eq. eexists. split; [done|].
      rewrite Ea in Ha0. simplify_eq.
      unfold bidOk, settledRounds. simpl.
      match goal with Hr : Auction.state _ = Auction.running |- _ =>
        rewrite Hr in *; pose proof Hr as Hrun end.
      destruct Hc1 as [->|(Hact0 & _ & Hm1 & Hw & _ & s & Hs & Hr & Hc & Hp & Hf & Hcp)].
      * split_and!; try done.
        destruct (Bid.status b0); try done.
        destruct K4 as (s & ? & ? & ?). exists s. split_and!; try done; lia.
      * rewrite Hw. split_and!; try done. exists s.
        rewrite Hm1. split_and!; try done; lia.
    + rewrite lookup_insert_ne by done. exists a0. split; [done|].
      destruct Hc1 as [->|(_ & _ & _ & _ & Hx & _)]; [by split_and!|congruence].
Qed.

Lemma createUser_bidsOk (w w' : World) a :
  bidsOk (db w) -> createUser w = (Ok a, w') -> bidsOk (db w').
Proof.
  intros HS H. unfold createUser in H. repeat step H; tidy; simplify_eq. done.
Qed.

Lemma topupUserTxn_bidsOk (userId : ObjectId) (amount : Z) (w w' : World) a :
  bidsOk (db w) -> topupUserTxn userId amount w = (Ok a, w') -> bidsOk (db w').
Proof.
  intros HS H. unfold topupUserTxn in H. repeat step H; tidy; simplify_eq. done.
Qed.

Lemma run_bidsOk (ops : list Op) (w : World) :
  Inv (db w) -> Shape (db w) -> bidsOk (db w) ->
  Inv (db (run ops w)) /\ Shape (db (run ops w)) /\ bidsOk (db (run ops w)).
Proof.
  intros HI HS HB.
  apply (run_keeps (fun d => Inv d /\ Shape d /\ bidsOk d)); cbv beta;
    [| | | | | | | | | |by split_and!].
  - intros d locks (HI0 & HS0 & HB0). split_and!; [exact HI0|exact HS0|exact HB0].
  - intros w0 a w1 (? & ? & ?) Hrun.
    split_and!; [by eapply createUser_inv|by eapply createUser_shape
                |by eapply createUser_bidsOk].
  - intros userId amount w0 a w1 Hpos (? & ? & ?) Hrun.
    split_and!; [by eapply topupUserTxn_inv|by eapply topupUserTxn_shape
                |by eapply topupUserTxn_bidsOk].
  - intros input w0 a w1 (? & ? & ?) Hrun.
    split_and!; [by eapply createAuction_inv|by eapply createAuction_shape
                |by eapply createAuction_bidsOk].
  - intros auctionId w0 a w1 (? & ? & ?) Hrun.
    split_and!; [by eapply startAuctionTxn_inv|by eapply startAuctionTxn_shape
                |by eapply startAuctionTxn_bidsOk].
  - intros auctionId w0 a w1 (? & ? & ?) Hrun.
    split_and!; [by eapply cancelAuctionTxn_inv|by eapply cancelAuctionTxn_shape
                |by eapply cancelAuctionTxn_bidsOk].
  - intros auctionId userId newAmount w0 a w1 Hpos (? & ? & ?) Hrun.
    split_and!; [by eapply placeBidTxn_inv|by eapply placeBidTxn_shape
                |by eapply placeBidTxn_bidsOk].
  - intros auctionId userId w0 a w1 (? & ? & ?) Hrun.
    split_and!; [by eapply withdrawBidTxn_inv|by eapply withdrawBidTxn_shape
                |by eapply withdrawBidTxn_bidsOk].
  - intros auctionId token threshold now w0 a w1 (? & ? & ?) Hrun.
    split_and!; [by eapply lockDueRound_inv|by eapply lockDueRound_shape
                |by eapply lockDueRound_bidsOk].
  - intros auctionId closingToken w0 u w1 (? & ? & ?) Hrun.
    split_and!; [by eapply settleClosingAuctionTxn_inv
                |by eapply settleClosingAuctionTxn_shape
                |by eapply settleClosingAuctionTxn_bidsOk].
Qed.

Lemma reachable_bidsOk (ops : list Op) : bidsOk (db (run ops initialWorld)).
Proof. apply run_bidsOk; [apply Inv_empty|apply Shape_empty|apply bidsOk_empty]. Qed.

(** X21. Bids fit the state of their auction.  In every state the
    service can reach, a bid belongs to an auction of the store that is
    no draft; a bid is active only in a running auction, so an ended or
    cancelled auction holds no money of its bidders; a bid is lost only
    in an ended auction; and a bid carries a settlement exactly when it
    has won: the settlement is of a settled round of the auction, what
    was paid is the clearing price, a positive amount not above the bid,
    and what was refunded is the rest of the amount. *)
Theorem bids_fit_their_auction (ops : list Op) (i : ObjectId) (b : Bid.Doc) :
  bids (db (run ops initialWorld)) !! i = Some b ->
  exists a, auctions (db (run ops initialWorld)) !! Bid.auctionId b = Some a
            /\ bidOk a b.
Proof. apply (reachable_bidsOk ops). Qed.
End BidFacts.

Section BidsOnSamples.
Import Users Auctions Engine System Samples.

(** Bid 7 of [settledWorld], which won the first gift of auction 6. *)
Lemma bids_fit_their_auction_witness :
  exists b a, bids (db (run opsSettled initialWorld)) !! 7%N = Some b
              /\ auctions (db (run opsSettled initialWorld)) !! Bid.auctionId b = Some a
              /\ bidOk a b.
Proof.
  assert (Hb : is_Some (bids (db (run opsSettled initialWorld)) !! 7%N))
    by (vm_compute; eauto).
  destruct Hb as [b Hb]. exists b.
  destruct (bids_fit_their_auction opsSettled 7%N b Hb) as (a & Ha & Hok).
  exists a. split; [exact Hb|]. split; [exact Ha|exact Hok].
Defined.
End BidsOnSamples.

(** * Calls that succeed *)

Section Forward.
Context {D : Type} (col : Collection D).

Lemma findOne_run (id : ObjectId) (f : D -> bool) (w : World) (d : D) :
  getCol col (db w) !! id = Some d -> f d = true ->
  findOne col id f w = (Ok (Some d), w).
Proof. intros Hl Hf. unfold findOne, bind, readDb, ret. by rewrite Hl, Hf. Qed.




End Forward.

Section Succeeds.
Import Users Auctions Engine System.













End Succeeds.

Section BiddingOnSamples.
Import Users Auctions Engine System Samples.

End BiddingOnSamples.

(** * Cancelling an auction *)

Section Cancelling.
Import Users Auctions Engine System.


End Cancelling.

(** * The snapshot of an auction *)

Section SnapshotFacts.
Import Users Auctions Engine System.

(** What [getAuctionSnapshot] computes for a stored auction. *)
Lemma getAuctionSnapshot_run (auctionId : ObjectId) (userId : option ObjectId)
    (w : World) (a : Auction.Doc) :
  auctions (db w) !! auctionId = Some a ->
  let found := List.filter (fun kd => isActiveBidOf auctionId kd.2)
                 (map_to_list (bids (db w))) in
  let remaining := Z.max 0 (Auction.totalQuantity a - Auction.awardedCount a) in
  let k := if isState Auction.running a
           then Z.min remaining (Auction.winnersPerRound (Auction.config a)) else 0 in
  let activeBids := limit (Z.max 20 (Z.min 200 k)) (sortBy bidSortOrder found) in
  exists s,
    getAuctionSnapshot auctionId userId w = (Ok s, w)
    /\ leaderboard s
       = map (fun b => mkLeaderboardRow (Bid.userId b.2) (Bid.amount b.2) (Bid.lastBidAt b.2))
           (slice 0 20 activeBids)
    /\ myBid s
       = match userId with
         | Some uid =>
             match head (List.filter
                           (fun kd => (Bid.auctionId kd.2 =? auctionId)%N
                                      && (Bid.userId kd.2 =? uid)%N)
                           (map_to_list (bids (db w)))) with
             | Some b => Some (mkMyBid (Bid.status b.2) (Bid.amount b.2) (Bid.lastBidAt b.2))
             | None => None
             end
         | None => None
         end
    /\ estimatedClearingPrice s
       = (if (k >? 0) && (jsLength activeBids >=? k)
          then match at_index activeBids (k - 1) with
               | Some b => Some (Bid.amount b.2)
               | None => None
               end
          else None).
Proof.
  intros Ha found remaining k activeBids. unfold getAuctionSnapshot.
  rewrite (bind_run _ _ w w (Some a)) by (by apply findOne_run).
  rewrite (bind_run _ _ w w (clock w)) by done.
  rewrite (bind_run _ _ w w found) by done.
  fold remaining. fold k. fold activeBids.
  destruct userId as [uid|].
  - erewrite bind_run; [|reflexivity].
    erewrite bind_run; [|reflexivity].
    eexists. split; [reflexivity|]. cbn [leaderboard myBid estimatedClearingPrice].
    by split_and!.
  - erewrite bind_run; [|reflexivity].
    erewrite bind_run; [|reflexivity].
    eexists. split; [reflexivity|]. cbn [leaderboard myBid estimatedClearingPrice].
    by split_and!.
Qed.

(** X25. The leaderboard and [myBid] of a snapshot.  [getAuctionSnapshot]
    throws [NOT_FOUND] for an unknown auction and otherwise returns; it
    never writes.  The leaderboard shows the best 20 active bids of the
    auction, all of them when there are fewer: each row is a stored
    active bid of the auction, no bid twice, in the order of
    [bidSortOrder] (higher amount first), and an active bid of the
    auction that is not shown ranks after every row.  [myBid] is a
    stored bid of the asking user on the auction, and is that user's
    bid whenever no two bids share user and auction. *)
Theorem snapshot_leaderboard (w : World) (auctionId : ObjectId)
    (userId : option ObjectId) :
  match auctions (db w) !! auctionId with
  | None =>
      getAuctionSnapshot auctionId userId w
      = (Throw (appError NOT_FOUND "Auction not found" 404), w)
  | Some a =>
      exists s top,
        getAuctionSnapshot auctionId userId w = (Ok s, w)
        /\ leaderboard s
           = map (fun b => mkLeaderboardRow (Bid.userId b.2) (Bid.amount b.2)
                             (Bid.lastBidAt b.2)) top
        /\ length top
           = Nat.min 20 (length (List.filter (fun kd => isActiveBidOf auctionId kd.2)
                                   (map_to_list (bids (db w)))))
        /\ NoDup top.*1
        /\ (forall x, x ∈ top ->
              bids (db w) !! x.1 = Some x.2 /\ Bid.auctionId x.2 = auctionId
              /\ Bid.status x.2 = Bid.active)
        /\ (forall i j x y, top !! i = Some x -> top !! j = Some y -> (i < j)%nat ->
              bidSortOrder x y <= 0 /\ Bid.amount y.2 <= Bid.amount x.2)
        /\ (forall i b x, bids (db w) !! i = Some b -> Bid.auctionId b = auctionId ->
              Bid.status b = Bid.active -> (i, b) ∉ top -> x ∈ top ->
              bidSortOrder x (i, b) <= 0 /\ Bid.amount b <= Bid.amount x.2)
        /\ (forall m, myBid s = Some m ->
              exists uid i b, userId = Some uid /\ bids (db w) !! i = Some b
                /\ Bid.auctionId b = auctionId /\ Bid.userId b = uid
                /\ m = mkMyBid (Bid.status b) (Bid.amount b) (Bid.lastBidAt b))
        /\ (forall uid i b, bidsUnique (bids (db w)) -> userId = Some uid ->
              bids (db w) !! i = Some b -> Bid.auctionId b = auctionId ->
              Bid.userId b = uid ->
              myBid s = Some (mkMyBid (Bid.status b) (Bid.amount b) (Bid.lastBidAt b)))
  end.
Proof.
  destruct (auctions (db w) !! auctionId) as [a|] eqn:Ha.
  2: { unfold getAuctionSnapshot. rewrite (bind_run _ _ w w None); [done|].
       unfold findOne, bind, readDb, ret. cbn [getCol colAuctions]. by rewrite Ha. }
  destruct (getAuctionSnapshot_run auctionId userId w a Ha) as (s & Hrun & Hlb & Hmy & _).
  set (found := List.filter (fun kd => isActiveBidOf auctionId kd.2)
                  (map_to_list (bids (db w)))) in *.
  set (sorted := sortBy bidSortOrder found) in *.
  pose proof (sortBy_sorted bidSortOrder bidSortOrder_total bidSortOrder_trans found)
    as Hsorted.
  pose proof (sortBy_perm bidSortOrder found) as Hperm. fold sorted in Hsorted, Hperm.
  assert (Hfound : forall x, x ∈ found <->
            bids (db w) !! x.1 = Some x.2 /\ isActiveBidOf auctionId x.2 = true).
  { intros x. apply (elem_of_found (fun _ b => isActiveBidOf auctionId b)). }
  assert (Htop : slice 0 20
                   (limit (Z.max 20 (Z.min 200
                      (if isState Auction.running a
                       then Z.min (Z.max 0 (Auction.totalQuantity a - Auction.awardedCount a))
                              (Auction.winnersPerRound (Auction.config a))
                       else 0))) sorted)
                 = take 20 sorted).
  { rewrite slice_from_zero by lia. rewrite limit_positive by lia.
    rewrite take_take. f_equal. change (Z.to_nat 20) with 20%nat. lia. }
  rewrite Htop in Hlb.
  exists s, (take 20 sorted). split_and!; try done.
  - rewrite length_take. by rewrite Hperm.
  - rewrite fmap_take. apply (sublist_NoDup _ (sorted.*1)); [|apply sublist_take].
    rewrite Hperm. apply (found_NoDup (fun _ b => isActiveBidOf auctionId b)).
  - intros x Hx. apply subseteq_take in Hx. rewrite Hperm in Hx.
    apply Hfound in Hx as [Hx Hf]. split; [done|].
    apply andb_true_iff in Hf as [H1 H2]. apply N.eqb_eq in H1.
    by apply isBidStatus_true in H2.
  - intros i j x y Hi Hj Hij.
    apply lookup_take_Some in Hi as [Hi _]. apply lookup_take_Some in Hj as [Hj _].
    pose proof (sorted_lookup _ _ _ _ _ _ Hsorted Hi Hj Hij) as Hle.
    split; [exact Hle|]. by apply bidSortOrder_amount.
  - intros i b x Hb Hau Hst Hout Hx.
    assert (Hin : (i, b) ∈ sorted).
    { rewrite Hperm. apply Hfound. split; [done|]. cbn [snd]. unfold isActiveBidOf.
      rewrite Hau, N.eqb_refl. unfold isBidStatus. by rewrite bool_decide_eq_true_2. }
    rewrite <- (take_drop 20 sorted) in Hin, Hsorted.
    apply elem_of_app in Hin as [Hin|Hin]; [done|].
    pose proof (sorted_app_ranks bidSortOrder _ _ _ _ Hsorted Hx Hin) as Hle.
    split; [exact Hle|]. by apply (bidSortOrder_amount x (i, b)).
  - intros m Hm. rewrite Hmy in Hm. destruct userId as [uid|]; [|done].
    destruct (head _) as [kd|] eqn:E; [|done]. injection Hm as <-.
    apply (head_found (fun _ b => (Bid.auctionId b =? auctionId)%N
                                  && (Bid.userId b =? uid)%N)) in E as [Hl Hf].
    apply andb_true_iff in Hf as [H1 H2]. apply N.eqb_eq in H1, H2.
    by exists uid, kd.1, kd.2.
  - intros uid i b Hq -> Hb Hau Hus. rewrite Hmy.
    destruct (head _) as [kd|] eqn:E.
    + apply (head_found (fun _ b => (Bid.auctionId b =? auctionId)%N
                                    && (Bid.userId b =? uid)%N)) in E as [Hl Hf].
      apply andb_true_iff in Hf as [H1 H2]. apply N.eqb_eq in H1, H2.
      assert (kd.1 = i) by (apply (Hq _ _ _ _ Hl Hb); congruence).
      destruct kd as [j x]. cbn [fst snd] in *. subst j. congruence.
    + pose proof (head_found_none
                    (fun _ b => (Bid.auctionId b =? auctionId)%N && (Bid.userId b =? uid)%N)
                    _ E i b Hb) as Hn.
      cbn beta in Hn. by rewrite Hau, Hus, !N.eqb_refl in Hn.
Qed.

(** X26. The estimate of a snapshot against the settlement.  For a
    running auction let [k] be the number of winners the settlement of
    the round would take, [min winnersPerRound remainingQuantity], and
    [winnerBids] the bids [findWinnerBids] selects for it.  The estimate
    is the clearing price the settlement computes from them when
    [0 < k <= 200] and the auction has at least [k] active bids, and is
    null otherwise: with fewer than [k] active bids, where the
    settlement still charges the lowest of them, and for every [k]
    above 200, however many bids there are. *)
Theorem snapshot_estimate_is_clearing_price (w : World) (auctionId : ObjectId)
    (userId : option ObjectId) (a : Auction.Doc) :
  auctions (db w) !! auctionId = Some a -> Auction.state a = Auction.running ->
  let k := Z.min (Auction.winnersPerRound (Auction.config a))
             (Z.max 0 (Auction.totalQuantity a - Auction.awardedCount a)) in
  let n := Z.of_nat (length (List.filter (fun kd => isActiveBidOf auctionId kd.2)
                               (map_to_list (bids (db w))))) in
  exists s winnerBids,
    getAuctionSnapshot auctionId userId w = (Ok s, w)
    /\ findWinnerBids auctionId k w = (Ok winnerBids, w)
    /\ estimatedClearingPrice s
       = (if (0 <? k) && (k <=? 200) && (k <=? n)
          then Some (clearingPriceOf winnerBids) else None)
    /\ (0 < k <= n -> jsLength winnerBids = k)
    /\ (0 < k -> 0 < n -> exists b, last winnerBids = Some b
                                   /\ clearingPriceOf winnerBids = Bid.amount b.2).
Proof.
  intros Ha Hst k n.
  destruct (getAuctionSnapshot_run auctionId userId w a Ha) as (s & Hrun & _ & _ & Hest).
  set (found := List.filter (fun kd => isActiveBidOf auctionId kd.2)
                  (map_to_list (bids (db w)))) in *.
  set (sorted := sortBy bidSortOrder found) in *.
  assert (Hlen : Z.of_nat (length sorted) = n)
    by (unfold sorted; by rewrite sortBy_length).
  unfold isState in Hest. rewrite bool_decide_eq_true_2 in Hest by done.
  rewrite (Z.min_comm (Z.max 0 _)) in Hest. fold k in Hest.
  exists s, (if k >? 0 then limit k sorted else []).
  split; [done|]. split.
  { unfold findWinnerBids. destruct (k >? 0); [|done].
    by rewrite (bind_run _ _ w w found). }
  rewrite Z.gtb_ltb in *.
  destruct (Z.ltb_spec 0 k) as [Hk|Hk]; cbn [andb].
  2: { rewrite Hest. split; [done|]. split; intros; lia. }
  rewrite (limit_positive k) by done.
  split_and!.
  - rewrite Hest. rewrite limit_positive by lia. rewrite Z.geb_leb.
    unfold jsLength. rewrite length_take.
    destruct (Z.leb_spec k 200) as [H2|H2]; cbn [andb].
    + destruct (Z.leb_spec k n) as [Hn|Hn].
      * replace (k <=? Z.of_nat (Z.to_nat (Z.max 20 (Z.min 200 k)) `min` length sorted))
          with true by (symmetry; apply Z.leb_le; lia).
        unfold at_index. destruct (Z.ltb_spec (k - 1) 0); [lia|].
        rewrite lookup_take_lt by lia.
        rewrite clearingPriceOf_last, last_lookup, length_take.
        rewrite lookup_take_lt by lia.
        replace (Nat.pred (Z.to_nat k `min` length sorted)) with (Z.to_nat (k - 1)) by lia.
        destruct (lookup_lt_is_Some_2 sorted (Z.to_nat (k - 1))) as [b Hb]; [lia|].
        by rewrite Hb.
      * replace (k <=? Z.of_nat (Z.to_nat (Z.max 20 (Z.min 200 k)) `min` length sorted))
          with false by (symmetry; apply Z.leb_gt; lia).
        done.
    + replace (k <=? Z.of_nat (Z.to_nat (Z.max 20 (Z.min 200 k)) `min` length sorted))
        with false by (symmetry; apply Z.leb_gt; lia).
      done.
  - intros Hkn. unfold jsLength. rewrite length_take. lia.
  - intros _ Hn. rewrite clearingPriceOf_last.
    destruct (last (take (Z.to_nat k) sorted)) as [b|] eqn:E; [by exists b|].
    apply last_None in E. apply (f_equal length) in E. rewrite length_take in E.
    simpl in E. lia.
Qed.
End SnapshotFacts.

Section SnapshotOnSamples.
Import Users Auctions Engine System Samples.

(** Auction 6 with the bids 100, 90 and 80 and two winners per round:
    the estimate is 90. *)
Lemma snapshot_estimate_is_clearing_price_witness :
  exists s winnerBids,
    getAuctionSnapshot 6%N None (run opsOpen initialWorld) = (Ok s, run opsOpen initialWorld)
    /\ findWinnerBids 6%N 2 (run opsOpen initialWorld)
       = (Ok winnerBids, run opsOpen initialWorld)
    /\ estimatedClearingPrice s = Some (clearingPriceOf winnerBids)
    /\ clearingPriceOf winnerBids = 90.
Proof.
  eassert (H : _).
  { eapply (snapshot_estimate_is_clearing_price (run opsOpen initialWorld) 6%N None).
    - vm_compute. reflexivity.
    - vm_compute. reflexivity. }
  destruct H as (s & wb & Hrun & Hwb & Hest & _ & _).
  exists s, wb. split; [exact Hrun|].
  assert (Hwb' := Hwb). vm_compute in Hwb'. injection Hwb' as <-.
  split; [exact Hwb|]. split; [exact Hest|]. vm_compute. reflexivity.
Defined.
End SnapshotOnSamples.

(** * A bid and its withdrawal *)

Section RoundTrip.
Import Users Auctions Engine System.





End RoundTrip.

Section RoundTripOnSamples.
Import Users Auctions Engine System Samples.

End RoundTripOnSamples.

(** * The ledger of an auction *)

Section BooksFacts.
Import Users Auctions Engine System Ledgers.
Context (weight : ObjectId -> Z).










Lemma ledgerAmount_same (ty : Ledger.Type_) (e : Ledger.Doc) :
  Ledger.type e = ty -> ledgerAmount ty e = Ledger.amount e.
Proof. intros H. unfold ledgerAmount. by rewrite bool_decide_eq_true_2. Qed.


























End BooksFacts.

(** * The audit of one auction *)

Section GroupFacts.
Import Users Auctions Engine System Ledgers.
















Section WonBids.
Context (bs : gmap ObjectId Bid.Doc) (aid : ObjectId) (n : Z).
Hypothesis Hser : serialsExactly bs aid n.
Hypothesis Hn : 0 <= n.

Local Notation "'wonBids'" :=
  (List.filter (fun kd : ObjectId * Bid.Doc =>
                  (Bid.auctionId kd.2 =? aid)%N && isBidStatus Bid.won kd.2)
     (map_to_list bs)).







End WonBids.
End GroupFacts.

Section AuctionAuditFacts.
Import Users Auctions Engine System Ledgers.


End AuctionAuditFacts.

(** * The settlement of a round goes through *)

Section Settling.
Import Users Auctions Engine System.










End Settling.

Section SettlingOnSamples.
Import Users Auctions Engine System Samples.

End SettlingOnSamples.
